(** * Pyramid: the live event pipeline, embedded and verified

    A shallow embedding of the parts of the Pyramid IRC relay that the
    specification makes testable promises about:

    - [Cache]  the message caches (bounded sequences, event bunching,
               highlight contexts);
    - [Irc]    the connection module (multi-server channel names,
               reconnect requests);
    - [Legacy] the first generation of the IRC watcher (friend tiers);
    - [Io]     the socket request handlers (access-token check);
    - [Log]    the persisted line formats (builders and regex parsers).

    Further modules carry the code around these parts: [CacheViews],
    [IrcControl] (listeners, removal, set-up and outgoing requests),
    [LegacyCache] (caches and recipients of the first watcher),
    [IoSession] (a connection's requests in a row), [LogLines] (writing a
    line and telling its type) and [LogList] (the bunched lines of a log
    file).

    JavaScript objects are records, arrays are lists, objects used as
    dictionaries are [gmap]s, and module-level mutable variables are the
    fields of an explicit state record that every operation threads. *)

From stdpp Require Import gmap strings list.
From Stdlib Require Import ZArith Lia Ascii.

Local Open Scope string_scope.
Local Open Scope list_scope.
Local Open Scope nat_scope.

(** ** Generic array helpers *)

(** [arr.slice(arr.length - n)] for [n <= arr.length], and
    [arr.slice(Math.max(0, arr.length - n), arr.length)] in general. *)
Definition sliceLast {A} (n : nat) (arr : list A) : list A :=
  drop (length arr - n) arr.

(** [arr.shift()]: the array without its head. *)
Definition shift {A} (arr : list A) : list A := tail arr.

(** [arr[arr.length - 1] = x] on a non-empty array. *)
Definition setLast {A} (x : A) (arr : list A) : list A :=
  <[length arr - 1 := x]> arr.

(** JavaScript adds booleans as numbers. *)
Definition b2n (b : bool) : nat := if b then 1 else 0.

(** Truthiness of a JavaScript string. *)
Definition truthy (s : string) : bool := negb (bool_decide (s = "")).

(** ** The message caches *)

Module Cache.

(** A line object.  One record covers messages, single events and
    "events" bunches; a field that a given JavaScript object does not
    carry is held at its empty value.  [contextMessages] is a reference
    to a shared array in the state's [contextArrays]. *)
#[local] Set Warnings "-register-all".
Inductive line : Type := Line {
  lineId : string;
  type : string;
  channel : string;
  server : string;
  time : nat;
  username : string;
  symbol : string;
  message : string;
  color : nat;
  tags : list (string * string);
  relationship : nat;
  highlight : list string;
  events : list line;
  firstTime : nat;
  joinCount : nat;
  partCount : nat;
  prevIds : list string;
  contextMessages : option nat
}.

(** [highlightMsg = _.clone(msg); highlightMsg.contextMessages = ref] *)
Definition withContextMessages (ref : nat) (l : line) : line :=
  Line (lineId l) (type l) (channel l) (server l) (time l) (username l)
       (symbol l) (message l) (color l) (tags l) (relationship l)
       (highlight l) (events l) (firstTime l) (joinCount l) (partCount l)
       (prevIds l) (Some ref).

(** Calls made to the collaborators handed to the module. *)
Inductive effect : Type :=
| DbStoreLine (channelId : nat) (l : line)
| DbDeleteLinesWithLineIds (ids : list string)
| IoEmitEventToChannel (channel : string) (l : line)
| IoEmitNewHighlight (l : line)
| IoEmitUnseenHighlights
| EmitToUserRecipients (username : string) (l : line)
| EmitToCategoryRecipients (categoryName : string) (l : line)
| EmitCategoryCacheToRecipients (categoryName : string)
| UnseenHighlightIdsAdd (id : string).

(** The module-level variables.  The two interval callbacks that flush
    [bunchableLinesToInsert] and [lineIdsToDelete] to the database touch
    none of the caches and are left out. *)
Record state : Type := State {
  channelCaches : gmap string (list line);
  userCaches : gmap string (list line);
  categoryCaches : gmap string (list line);
  channelIdCache : gmap string nat;
  currentHighlightContexts : gmap string (list line);
  contextArrays : gmap nat (list line);
  nextArray : nat;
  bunchableLinesToInsert : gmap string (string * line);
  lineIdsToDelete : gset string;
  uuidCount : nat;
  outbox : list effect
}.

Definition initial : state :=
  State ∅ ∅ (<["highlights" := []]> (<["allfriends" := []]> (<["system" := []]> ∅)))
        ∅ ∅ ∅ 0 ∅ ∅ 0 [].

Definition setChannelCaches (v : gmap string (list line)) (s : state) : state :=
  State v (userCaches s) (categoryCaches s) (channelIdCache s)
        (currentHighlightContexts s) (contextArrays s) (nextArray s)
        (bunchableLinesToInsert s) (lineIdsToDelete s) (uuidCount s) (outbox s).

Definition setUserCaches (v : gmap string (list line)) (s : state) : state :=
  State (channelCaches s) v (categoryCaches s) (channelIdCache s)
        (currentHighlightContexts s) (contextArrays s) (nextArray s)
        (bunchableLinesToInsert s) (lineIdsToDelete s) (uuidCount s) (outbox s).

Definition setCategoryCaches (v : gmap string (list line)) (s : state) : state :=
  State (channelCaches s) (userCaches s) v (channelIdCache s)
        (currentHighlightContexts s) (contextArrays s) (nextArray s)
        (bunchableLinesToInsert s) (lineIdsToDelete s) (uuidCount s) (outbox s).

Definition setChannelIdCache (v : gmap string nat) (s : state) : state :=
  State (channelCaches s) (userCaches s) (categoryCaches s) v
        (currentHighlightContexts s) (contextArrays s) (nextArray s)
        (bunchableLinesToInsert s) (lineIdsToDelete s) (uuidCount s) (outbox s).

Definition setContexts (v : gmap string (list line)) (s : state) : state :=
  State (channelCaches s) (userCaches s) (categoryCaches s) (channelIdCache s)
        v (contextArrays s) (nextArray s)
        (bunchableLinesToInsert s) (lineIdsToDelete s) (uuidCount s) (outbox s).

Definition setContextArrays (v : gmap nat (list line)) (n : nat) (s : state) : state :=
  State (channelCaches s) (userCaches s) (categoryCaches s) (channelIdCache s)
        (currentHighlightContexts s) v n
        (bunchableLinesToInsert s) (lineIdsToDelete s) (uuidCount s) (outbox s).

Definition setBunchableLinesToInsert (v : gmap string (string * line)) (s : state) : state :=
  State (channelCaches s) (userCaches s) (categoryCaches s) (channelIdCache s)
        (currentHighlightContexts s) (contextArrays s) (nextArray s)
        v (lineIdsToDelete s) (uuidCount s) (outbox s).

Definition setLineIdsToDelete (v : gset string) (s : state) : state :=
  State (channelCaches s) (userCaches s) (categoryCaches s) (channelIdCache s)
        (currentHighlightContexts s) (contextArrays s) (nextArray s)
        (bunchableLinesToInsert s) v (uuidCount s) (outbox s).

Definition setUuidCount (v : nat) (s : state) : state :=
  State (channelCaches s) (userCaches s) (categoryCaches s) (channelIdCache s)
        (currentHighlightContexts s) (contextArrays s) (nextArray s)
        (bunchableLinesToInsert s) (lineIdsToDelete s) v (outbox s).

(** One more collaborator call, appended to the trace. *)
Definition emit (e : effect) (s : state) : state :=
  State (channelCaches s) (userCaches s) (categoryCaches s) (channelIdCache s)
        (currentHighlightContexts s) (contextArrays s) (nextArray s)
        (bunchableLinesToInsert s) (lineIdsToDelete s) (uuidCount s)
        (outbox s ++ [e]).

(** The server-side constants module, the helper modules, the uuid
    generator and the application configuration lie outside the module;
    the operations read what they use of them from an environment.  [uuid_v4 n] is the n-th identifier [uuid.v4()] hands
    out, [cacheLines] is [configValue("cacheLines")] after [parseInt]
    ([None] is NaN), [logLinesDb] is [configValue("logLinesDb")], and
    [io] tells whether an [io] object was handed over. *)
Record environment : Type := Environment {
  CACHE_LINES : nat;
  CONTEXT_CACHE_LINES : nat;
  BUNCHED_EVENT_SIZE : nat;
  BUNCHABLE_EVENT_TYPES : list string;
  RELATIONSHIP_FRIEND : nat;
  isJoinEvent : line -> bool;
  isPartEvent : line -> bool;
  getUserColorNumber : string -> nat;
  uuid_v4 : nat -> string;
  cacheLines : option Z;
  logLinesDb : bool;
  io : bool
}.

Section WithEnvironment.

Variable E : environment.

Definition getCacheLinesSetting : nat :=
  match cacheLines E with
  | Some valueFromConfig =>
      if (20 <=? valueFromConfig)%Z && (valueFromConfig <=? 500)%Z
      then Z.to_nat valueFromConfig
      else (CACHE_LINES E)
  | None => (CACHE_LINES E)
  end.

Definition storeLine (channel : string) (l : line) (s : state) : state :=
  match channelIdCache s !! channel with
  | Some channelId => emit (DbStoreLine channelId l) s
  | None => s
  end.

Definition cacheItem (cache : list line) (data : line) : list line :=
  let cacheLinesSetting := getCacheLinesSetting in
  let cache := cache ++ [data] in
  if cacheLinesSetting <? length cache then
    if length cache =? cacheLinesSetting + 1 then shift cache
    else sliceLast cacheLinesSetting cache
  else cache.

Definition cacheChannelEvent (channel : string) (data : line) (s : state) : state :=
  let cache := default [] (channelCaches s !! channel) in
  let s := setChannelCaches (<[channel := cacheItem cache data]> (channelCaches s)) s in
  let s := if (logLinesDb E) then storeLine channel data s else s in
  if io E then emit (IoEmitEventToChannel channel data) s else s.

Definition cacheUserMessage (username : string) (msg : line) (s : state) : state :=
  let cache := default [] (userCaches s !! username) in
  let s := setUserCaches (<[username := cacheItem cache msg]> (userCaches s)) s in
  emit (EmitToUserRecipients username msg) s.

Definition createCurrentHighlightContext (channel : string) (highlightMsg : line)
    (s : state) : state :=
  let highlights := default [] (currentHighlightContexts s !! channel) in
  setContexts (<[channel := highlights ++ [highlightMsg]]> (currentHighlightContexts s)) s.

Definition cacheCategoryMessage (categoryName : string) (msg : line) (s : state) : state :=
  let cache := default [] (categoryCaches s !! categoryName) in
  let s := setCategoryCaches (<[categoryName := cacheItem cache msg]> (categoryCaches s)) s in
  let s := emit (EmitToCategoryRecipients categoryName msg) s in
  if bool_decide (categoryName = "highlights") && truthy (lineId msg) then
    let s := emit (UnseenHighlightIdsAdd (lineId msg)) s in
    let s := createCurrentHighlightContext (channel msg) msg s in
    if io E then emit IoEmitUnseenHighlights (emit (IoEmitNewHighlight msg) s) else s
  else s.

(** The loop of [addToCurrentHighlightContext]: push [msg] onto the
    context array of every open highlight, keeping the highlights whose
    array is still shorter than twice the context size.  Pushing onto a
    missing [contextMessages] throws ([None]). *)
Fixpoint pushToContexts (msg : line) (highlights : list line)
    (arrays : gmap nat (list line)) : option (list line * gmap nat (list line)) :=
  match highlights with
  | [] => Some ([], arrays)
  | highlight :: rest =>
      ref ← contextMessages highlight;
      list ← arrays !! ref;
      let list := list ++ [msg] in
      '(surviving, arrays) ← pushToContexts msg rest (<[ref := list]> arrays);
      Some (if length list <? 2 * (CONTEXT_CACHE_LINES E)
            then highlight :: surviving else surviving, arrays)
  end.

Definition addToCurrentHighlightContext (channel : string) (msg : line)
    (s : state) : option state :=
  match currentHighlightContexts s !! channel with
  | Some (h :: hs) =>
      '(survivingHighlights, arrays) ← pushToContexts msg (h :: hs) (contextArrays s);
      let s := setContextArrays arrays (nextArray s) s in
      let s := setContexts (<[channel := survivingHighlights]> (currentHighlightContexts s)) s in
      Some (emit (EmitCategoryCacheToRecipients "highlights") s)
  | _ => Some s
  end.

Definition storeBunchableLine (channel : string) (data : line) (s : state) : state :=
  if (logLinesDb E) && truthy (lineId data)
  then setBunchableLinesToInsert
         (<[lineId data := (channel, data)]> (bunchableLinesToInsert s)) s
  else s.

Definition deleteLinesWithLineIds (lineIds : list string) (s : state) : state :=
  foldl (fun s lineId =>
           setBunchableLinesToInsert (delete lineId (bunchableLinesToInsert s))
             (setLineIdsToDelete ({[lineId]} ∪ lineIdsToDelete s) s))
        s lineIds.

Definition replaceLastCacheItem (channel : string) (data : line) (s : state) : state :=
  let s :=
    match channelCaches s !! channel with
    | Some cache =>
        if 0 <? length cache
        then setChannelCaches (<[channel := setLast data cache]> (channelCaches s)) s
        else s
    | None => s
    end in
  let s := storeBunchableLine channel data s in
  if 0 <? length (prevIds data) then deleteLinesWithLineIds (prevIds data) s else s.

(** The bunch built when the tail is a single bunchable event. *)
Definition newBunch (lineId' : string) (lastItem data : line) : line :=
  Line lineId' "events" (channel lastItem) (server lastItem) (time data)
       "" "" "" 0 [] 0 []
       [lastItem; data]
       (time lastItem)
       (b2n ((isJoinEvent E) data) + b2n ((isJoinEvent E) lastItem))
       (b2n ((isPartEvent E) data) + b2n ((isPartEvent E) lastItem))
       [lineId lastItem]
       None.

(** The bunch built when the tail is already an "events" bunch. *)
Definition grownBunch (lineId' : string) (lastItem data : line) : line :=
  let maxLines := (BUNCHED_EVENT_SIZE E) in
  let prevIds' := prevIds lastItem ++ [lineId lastItem] in
  let prevIds' :=
    if maxLines <? length prevIds' then sliceLast maxLines prevIds' else prevIds' in
  let events' := events lastItem ++ [data] in
  let events' :=
    if maxLines <? length events' then sliceLast maxLines events' else events' in
  Line lineId' "events" (channel lastItem) (server lastItem) (time data)
       "" "" "" 0 [] 0 []
       events'
       (firstTime lastItem)
       (joinCount lastItem + b2n ((isJoinEvent E) data))
       (partCount lastItem + b2n ((isPartEvent E) data))
       prevIds'
       None.

Definition cacheBunchableChannelEvent (channel : string) (data : line)
    (s : state) : state :=
  let replaceWith bunch s :=
    let s := replaceLastCacheItem channel bunch (setUuidCount (S (uuidCount s)) s) in
    if io E then emit (IoEmitEventToChannel channel bunch) s else s in
  match last (default [] (channelCaches s !! channel)) with
  | Some lastItem =>
      if bool_decide (type lastItem ∈ (BUNCHABLE_EVENT_TYPES E)) then
        replaceWith (newBunch ((uuid_v4 E) (uuidCount s)) lastItem data) s
      else if bool_decide (type lastItem = "events") then
        replaceWith (grownBunch ((uuid_v4 E) (uuidCount s)) lastItem data) s
      else cacheChannelEvent channel data s
  | None => cacheChannelEvent channel data s
  end.

(** The [msg] object [cacheMessage] builds; [customCols] stands for
    [_.assign(msg, customCols)]. *)
Definition newMessage (channelUri serverName username symbol : string)
    (time : nat) (type message : string) (tags : list (string * string))
    (relationship : nat) (highlightStrings : list string)
    (customCols : option (line -> line)) (s : state) : line :=
  let msg :=
    Line (uuid_v4 E (uuidCount s)) type channelUri serverName time username
         symbol message (getUserColorNumber E username) tags relationship
         highlightStrings [] 0 0 0 [] None in
  match customCols with Some assign => assign msg | None => msg end.

(** [cacheMessage].  The context array of a highlight is a fresh array (a
    [slice] of the channel cache) that the highlight copy of the message
    refers to. *)
Definition cacheMessage (channelUri serverName username symbol : string)
    (time : nat) (type message : string) (tags : list (string * string))
    (relationship : nat) (highlightStrings : list string)
    (customCols : option (line -> line)) (s : state) : option state :=
  let msg :=
    newMessage channelUri serverName username symbol time type message tags
               relationship highlightStrings customCols s in
  let s := setUuidCount (S (uuidCount s)) s in
  let isHighlight := 0 <? length highlightStrings in
  let currentCache := default [] (channelCaches s !! channelUri) in
  let ref := nextArray s in
  let highlightMsg := withContextMessages ref msg in
  let s :=
    if isHighlight
    then setContextArrays
           (<[ref := sliceLast (CONTEXT_CACHE_LINES E) currentCache]> (contextArrays s))
           (S ref) s
    else s in
  let s := cacheChannelEvent channelUri msg s in
  s ← addToCurrentHighlightContext channelUri msg s;
  let s :=
    if (RELATIONSHIP_FRIEND E) <=? relationship
    then cacheCategoryMessage "allfriends" msg (cacheUserMessage username msg s)
    else s in
  Some (if isHighlight then cacheCategoryMessage "highlights" highlightMsg s else s).

Definition getCategoryCache (categoryName : string) (s : state) : option (list line) :=
  categoryCaches s !! categoryName.
Definition getChannelCache (channel : string) (s : state) : option (list line) :=
  channelCaches s !! channel.
Definition getUserCache (username : string) (s : state) : option (list line) :=
  userCaches s !! username.

(** *** Append histories *)

(** The three cache namespaces. *)
Inductive cacheKey : Type :=
| ChannelKey (channel : string)
| UserKey (username : string)
| CategoryKey (categoryName : string).

(** The sequence stored under a key ([[]] while the key has never been
    touched). *)
Definition stored (key : cacheKey) (s : state) : list line :=
  match key with
  | ChannelKey channel => default [] (channelCaches s !! channel)
  | UserKey username => default [] (userCaches s !! username)
  | CategoryKey categoryName => default [] (categoryCaches s !! categoryName)
  end.

(** One append through [cacheItem], by way of the function that owns the
    namespace. *)
Inductive append : Type :=
| ToChannel (channel : string) (data : line)
| ToUser (username : string) (msg : line)
| ToCategory (categoryName : string) (msg : line).

Definition applyAppend (s : state) (a : append) : state :=
  match a with
  | ToChannel channel data => cacheChannelEvent channel data s
  | ToUser username msg => cacheUserMessage username msg s
  | ToCategory categoryName msg => cacheCategoryMessage categoryName msg s
  end.

(** What an append contributes to the history of a key. *)
Definition appended (key : cacheKey) (a : append) : list line :=
  match key, a with
  | ChannelKey k, ToChannel channel data => if bool_decide (channel = k) then [data] else []
  | UserKey k, ToUser username msg => if bool_decide (username = k) then [msg] else []
  | CategoryKey k, ToCategory categoryName msg =>
      if bool_decide (categoryName = k) then [msg] else []
  | _, _ => []
  end.

Definition history (key : cacheKey) (appends : list append) : list line :=
  concat (map (appended key) appends).

(** A run of events handed one after the other to
    [cacheBunchableChannelEvent] for one channel. *)
Definition bunchRun (channel : string) (run : list line) (s : state) : state :=
  foldl (fun s data => cacheBunchableChannelEvent channel data s) s run.

(** The tail of a channel's cache, [cache[cache.length - 1]]. *)
Definition tailOf (channel : string) (s : state) : option line :=
  last (stored (ChannelKey channel) s).

(** *** Calls into the module *)

(** The arguments of one [cacheMessage] call. *)
Record messageArgs : Type := MessageArgs {
  channelUri : string;
  serverName : string;
  fromUsername : string;
  fromSymbol : string;
  atTime : nat;
  ofType : string;
  text : string;
  withTags : list (string * string);
  withRelationship : nat;
  highlightStrings : list string;
  customCols : option (line -> line)
}.

Definition messageOf (a : messageArgs) (s : state) : line :=
  newMessage (channelUri a) (serverName a) (fromUsername a) (fromSymbol a)
             (atTime a) (ofType a) (text a) (withTags a) (withRelationship a)
             (highlightStrings a) (customCols a) s.

Definition cacheMessageWith (a : messageArgs) (s : state) : option state :=
  cacheMessage (channelUri a) (serverName a) (fromUsername a) (fromSymbol a)
               (atTime a) (ofType a) (text a) (withTags a) (withRelationship a)
               (highlightStrings a) (customCols a) s.

(** A call of one of the exported caching functions. *)
Inductive call : Type :=
| CacheMessage (a : messageArgs)
| CacheChannelEvent (channel : string) (data : line)
| CacheBunchableChannelEvent (channel : string) (data : line)
| CacheUserMessage (username : string) (msg : line)
| CacheCategoryMessage (categoryName : string) (msg : line).

Definition step (s : state) (c : call) : option state :=
  match c with
  | CacheMessage a => cacheMessageWith a s
  | CacheChannelEvent channel data => Some (cacheChannelEvent channel data s)
  | CacheBunchableChannelEvent channel data =>
      Some (cacheBunchableChannelEvent channel data s)
  | CacheUserMessage username msg => Some (cacheUserMessage username msg s)
  | CacheCategoryMessage categoryName msg =>
      Some (cacheCategoryMessage categoryName msg s)
  end.

Fixpoint steps (s : state) (calls : list call) : option state :=
  match calls with
  | [] => Some s
  | c :: rest => s' ← step s c; steps s' rest
  end.

(** Highlights reach the "highlights" category through [cacheMessage];
    the other callers of [cacheCategoryMessage] feed the other
    categories. *)
Definition feedsOtherCategory (c : call) : Prop :=
  match c with
  | CacheCategoryMessage categoryName _ => categoryName <> "highlights"
  | _ => True
  end.

(** The highlights whose context is still collecting on a channel. *)
Definition openOn (channel : string) (s : state) : list line :=
  default [] (currentHighlightContexts s !! channel).

(** The context array behind [ref] is allocated and no open highlight
    refers to it any more. *)
Definition finalized (ref : nat) (s : state) : Prop :=
  ref < nextArray s
  /\ forall channel h, h ∈ openOn channel s -> contextMessages h <> Some ref.

(** The three fields the highlight contexts live in. *)
Definition sameContexts (s s' : state) : Prop :=
  currentHighlightContexts s' = currentHighlightContexts s
  /\ contextArrays s' = contextArrays s
  /\ nextArray s' = nextArray s.

(** The shape of the highlight contexts in every state the module
    reaches: an open highlight owns an allocated array that is still
    shorter than twice the context size, and no two open highlights share
    an array. *)
Record wellFormed (s : state) : Prop := WellFormed {
  wf_array : forall channel h,
    h ∈ openOn channel s ->
    exists ref arr,
      contextMessages h = Some ref /\ ref < nextArray s
      /\ contextArrays s !! ref = Some arr
      /\ length arr < 2 * CONTEXT_CACHE_LINES E;
  wf_nodup : forall channel, NoDup (contextMessages <$> openOn channel s);
  wf_apart : forall c1 c2 h1 h2,
    h1 ∈ openOn c1 s -> h2 ∈ openOn c2 s ->
    contextMessages h1 = contextMessages h2 -> c1 = c2
}.

End WithEnvironment.

(** *** A sample configuration *)

(** An event line as the pipeline hands it over. *)
Definition eventLine (lineId type channel username : string) (time : nat) : line :=
  Line lineId type channel "alpha" time username "" "" 0 [] 0 [] [] 0 0 0 [] None.

Definition sampleEnvironment : environment :=
  Environment 150 40 3 ["join"; "part"; "quit"; "kick"; "mode"; "kill"] 1
    (fun l => bool_decide (type l = "join"))
    (fun l => bool_decide (type l = "part"))
    (fun _ => 0)
    (fun n => "uuid-" +:+ String (ascii_of_nat (48 + n)) "")
    None true true.

Definition sampleJoin : line := eventLine "id-join" "join" "alpha/x" "alice" 1.
Definition samplePart : line := eventLine "id-part" "part" "alpha/x" "alice" 2.
Definition sampleQuit : line := eventLine "id-quit" "quit" "alpha/x" "carol" 3.
Definition sampleRun : list line :=
  [sampleJoin; samplePart; sampleJoin; sampleQuit].

(** A message from carol that mentions the configured nickname. *)
Definition sampleHighlight : messageArgs :=
  MessageArgs "alpha/x" "alpha" "carol" "" 5 "msg" "hello bob" [] 0 ["bob"] None.

(** A message that mentions nobody. *)
Definition samplePlain : messageArgs :=
  MessageArgs "alpha/x" "alpha" "dave" "" 6 "msg" "good morning" [] 0 [] None.

End Cache.

(** ** The connection module (server/irc.js) *)

Module Irc.

(** [constants.CONNECTION_STATUS], by the names the module uses. *)
Inductive status : Type := CONNECTED | DISCONNECTED | FAILED | ABORTED.

(** What the module reads and writes of an [irc.Client]:
    [client.extConfig.name] ([None] when there is no [extConfig]),
    [client.opt.channels] and the [_pyramidAborted] flag. *)
Record client : Type := Client {
  extConfigName : option string;
  channels : list string;
  pyramidAborted : bool
}.

(** Calls into the IRC library and into [main]; a client is named by its
    position in [clients]. *)
Inductive effect : Type :=
| ClientConnect (i : nat)
| ClientDisconnect (i : nat)
| MainWarn (text : string)
| MainHandleIrcConnectionStateChange (server : string) (st : status)
| PluginsConnect (i : nat).

Record state : Type := State {
  clients : list client;
  multiServerChannels : list string;
  calls : list effect
}.

Definition call (e : effect) (s : state) : state :=
  State (clients s) (multiServerChannels s) (calls s ++ [e]).

Definition setClient (i : nat) (c : client) (s : state) : state :=
  State (<[i := c]> (clients s)) (multiServerChannels s) (calls s).

(** The inner loop of [calibrateMultiServerChannels]. *)
Fixpoint scanChannels (chs : list string) (namesSeen multi : list string)
    : list string * list string :=
  match chs with
  | [] => (namesSeen, multi)
  | ch :: rest =>
      let multi := if bool_decide (ch ∈ namesSeen) then multi ++ [ch] else multi in
      scanChannels rest (namesSeen ++ [ch]) multi
  end.

(** The outer loop. *)
Fixpoint scanClients (cs : list client) (namesSeen multi : list string)
    : list string * list string :=
  match cs with
  | [] => (namesSeen, multi)
  | c :: rest =>
      let '(namesSeen, multi) := scanChannels (channels c) namesSeen multi in
      scanClients rest namesSeen multi
  end.

Definition calibrateMultiServerChannels (s : state) : state :=
  State (clients s) (snd (scanClients (clients s) [] [])) (calls s).

Definition clientServerName (c : client) : option string := extConfigName c.

(** A channel object: [{ server, channel, client }]. *)
Record chobj : Type := Chobj {
  server : option string;
  channel : string
}.

Definition channelObject (c : client) (channel : string) : chobj :=
  Chobj (clientServerName c) channel.

(** String coercion of a possibly null name in a concatenation. *)
Definition toStr (o : option string) : string := default "null" o.

Definition isMultiServerChannel (channel : string) (s : state) : bool :=
  bool_decide (channel ∈ multiServerChannels s).

Definition getChannelFullName (co : chobj) (s : state) : string :=
  if isMultiServerChannel (channel co) s
  then toStr (server co) +:+ " " +:+ channel co
  else channel co.

Definition findClientByServerName (serverName : string) (s : state)
    : option (nat * client) :=
  list_find (fun c => clientServerName c = Some serverName) (clients s).

Definition handleConnectionStateChange (i : nat) (st : status) (s : state) : state :=
  match clients s !! i with
  | Some c =>
      let st := if pyramidAborted c then ABORTED else st in
      match clientServerName c with
      | Some server => call (MainHandleIrcConnectionStateChange server st) s
      | None => s
      end
  | None => s
  end.

Definition abortClient (i : nat) (st : status) (s : state) : state :=
  match clients s !! i with
  | Some c =>
      handleConnectionStateChange i st
        (setClient i (Client (extConfigName c) (channels c) true) s)
  | None => s
  end.

(** The "connect" listener installed by [setUpClient]. *)
Definition onConnect (i : nat) (s : state) : state :=
  match clients s !! i with
  | Some c =>
      call (PluginsConnect i)
        (handleConnectionStateChange i CONNECTED
           (setClient i (Client (extConfigName c) (channels c) false) s))
  | None => s
  end.

Definition reconnectWarning (serverName : string) : string :=
  "Disregarded " +:+ serverName +:+
  " IRC reconnect request, because client isn't aborted".

Definition reconnectServer (serverName : string) (s : state) : state :=
  match findClientByServerName serverName s with
  | Some (i, c) =>
      if pyramidAborted c then call (ClientConnect i) s
      else call (MainWarn (reconnectWarning serverName)) s
  | None => call (MainWarn (reconnectWarning serverName)) s
  end.

Definition disconnectServer (serverName : string) (s : state) : state :=
  match findClientByServerName serverName s with
  | Some (i, _) => call (ClientDisconnect i) (abortClient i ABORTED s)
  | None => s
  end.

(** The active (server, channel) pairs. *)
Definition activePairs (s : state) : list (option string * string) :=
  flat_map (fun c => pair (clientServerName c) <$> channels c) (clients s).

(** [x] occurs in [l] behind an earlier occurrence of itself. *)
Definition repeated (x : string) (l : list string) : Prop :=
  exists pre post, l = pre ++ x :: post /\ x ∈ pre.

(** Two servers that both have a channel called [#general]. *)
Definition sampleState : state :=
  State [Client (Some "alpha") ["#general"; "#alpha-only"] false;
         Client (Some "beta") ["#general"] true]
        [] [].

End Irc.

(** ** The first IRC watcher (irc.js): relationship of an author *)

Module Legacy.

Definition RELATIONSHIP_NONE : nat := 0.
Definition RELATIONSHIP_FRIEND : nat := 1.
Definition RELATIONSHIP_BEST_FRIEND : nat := 2.

(** [String.prototype.toLowerCase] on the ASCII letters; other bytes are
    left as they are. *)
Definition lowerAscii (a : ascii) : ascii :=
  let n := nat_of_ascii a in
  if (65 <=? n) && (n <=? 90) then ascii_of_nat (n + 32) else a.

Fixpoint toLowerCase (s : string) : string :=
  match s with
  | EmptyString => EmptyString
  | String a rest => String (lowerAscii a) (toLowerCase rest)
  end.

Record config : Type := Config {
  nonPeople : list string;
  bestFriends : list string;
  friends : list string
}.

(** [arr.indexOf(x) >= 0] *)
Definition includes (x : string) (arr : list string) : bool := bool_decide (x ∈ arr).

(** The part of [handleMessage] that decides the relationship: [None]
    when the function returns early because the author is "not a
    person", else the relationship handed to [emitMessage]. *)
Definition handleMessageRelationship (cfg : config) (from : string) : option nat :=
  if includes from (nonPeople cfg) then None
  else
    let relationship := RELATIONSHIP_NONE in
    let allFriends := bestFriends cfg ++ friends cfg in
    let relationship :=
      if includes (toLowerCase from) allFriends then
        let isBestFriend := includes (toLowerCase from) (bestFriends cfg) in
        if isBestFriend then RELATIONSHIP_BEST_FRIEND else RELATIONSHIP_FRIEND
      else relationship in
    Some relationship.

(** Membership of a name in a configured list, regardless of case. *)
Definition listedIn (name : string) (arr : list string) : Prop :=
  exists entry, entry ∈ arr /\ toLowerCase entry = toLowerCase name.

(** A configuration whose lists are written in lower case, and one that
    lists a close friend with a capital letter. *)
Definition sampleConfig : config :=
  Config ["chanserv"] ["alice"] ["alice"; "bob"].

Definition capitalConfig : config := Config [] ["Alice"] [].

End Legacy.

(** ** The socket request handlers (IO module) *)

Module Io.

(** Values that arrive over a socket. *)
#[local] Set Warnings "-register-all".
Inductive value : Type :=
| VUndefined
| VNull
| VBool (b : bool)
| VNumber (n : Z)
| VString (s : string)
| VObject (fields : list (string * value)).

Definition isTruthy (v : value) : bool :=
  match v with
  | VUndefined | VNull => false
  | VBool b => b
  | VNumber n => negb (n =? 0)%Z
  | VString s => truthy s
  | VObject _ => true
  end.

(** [typeof v === "string"] *)
Definition isString (v : value) : bool :=
  match v with VString _ => true | _ => false end.

Fixpoint lookupField (name : string) (fields : list (string * value)) : value :=
  match fields with
  | [] => VUndefined
  | (k, v) :: rest => if bool_decide (k = name) then v else lookupField name rest
  end.

(** [details && details.name]: the property of a truthy value. *)
Definition prop (details : value) (name : string) : value :=
  match details with
  | VObject fields => lookupField name fields
  | _ => VUndefined
  end.

(** What a handler does: calls to the module's own emitters and to the
    services of [main], by name; [DoThen] is a call that takes a
    callback, with what the callback does when no error is reported. *)
Inductive action : Type :=
| Do (fn : string) (args : list value)
| DoThen (fn : string) (args : list value) (onSuccess : list action).

(** The events a connection's socket listens to. *)
Inductive event : Type :=
| disconnect | token
| requestChannelCache | requestUserCache | requestCategoryCache
| subscribe | unsubscribe
| requestUserLogDetails | requestChannelLogDetails
| requestUserLogFile | requestChannelLogFile
| reportHighlightAsSeen | clearUnseenHighlights
| storeViewState | sendMessage | requestLineInfo | reloadBaseData
| addNewFriend | changeFriendLevel | removeFriend
| setAppConfigValue
| addIrcServer | changeIrcServer | removeIrcServer
| addIrcChannel | removeIrcChannel
| addNickname | changeNicknameValue | removeNickname
| reconnectToIrcServer | requestSystemInfo.

(** The utilities the handlers call, which lie outside the module. *)
Record environment : Type := Environment {
  isAnAcceptedToken : value -> bool;
  formatUriName : value -> value;
  lowerClean : value -> value;
  normalise : value -> value;
  parseInt : value -> option Z
}.

Section WithEnvironment.

Variable E : environment.

Definition levelIsTwo (level : value) : value :=
  VBool (bool_decide (parseInt E level = Some 2%Z)).

(** The listener registered for [ev] on a connection whose
    [connectionToken] variable holds [connectionToken], run on the
    payload [details]: the new value of the variable and the calls
    made. *)
Definition handler (ev : event) (details : value) (connectionToken : value)
    : value * list action :=
  let accepted := isAnAcceptedToken E connectionToken in
  let reply acts := (connectionToken, acts) in
  let ignored := (connectionToken, []) in
  match ev with
  | disconnect =>
      reply [Do "recipients.removeRecipientEverywhere" []]
  | token =>
      if isTruthy details && isString (prop details "token") then
        let connectionToken := prop details "token" in
        (connectionToken,
         [Do "emitTokenStatus" [VBool (isAnAcceptedToken E connectionToken)]])
      else ignored
  | requestChannelCache =>
      if negb accepted then ignored else
      if isString details then reply [Do "emitChannelCache" [details]] else ignored
  | requestUserCache =>
      if negb accepted then ignored else
      if isString details then reply [Do "emitUserCache" [details]] else ignored
  | requestCategoryCache =>
      if negb accepted then ignored else
      if isString details then reply [Do "emitCategoryCache" [details]] else ignored
  | subscribe =>
      if negb accepted then ignored else
      if isTruthy details && isTruthy (prop details "channel") then
        reply [Do "recipients.addChannelRecipient" [prop details "channel"];
               Do "emitChannelCache" [prop details "channel"];
               Do "emitChannelUserList" [prop details "channel"];
               Do "emitChannelData" [prop details "channel"]]
      else if isTruthy details && isTruthy (prop details "username") then
        reply [Do "recipients.addUserRecipient" [prop details "username"];
               Do "emitUserCache" [prop details "username"]]
      else if isTruthy details && isTruthy (prop details "category") then
        reply [Do "recipients.addCategoryRecipient" [prop details "category"];
               Do "emitCategoryCache" [prop details "category"]]
      else ignored
  | unsubscribe =>
      if negb accepted then ignored else
      if isTruthy details && isTruthy (prop details "channel") then
        reply [Do "recipients.removeChannelRecipient" [prop details "channel"]]
      else if isTruthy details && isTruthy (prop details "username") then
        reply [Do "recipients.removeUserRecipient" [prop details "username"]]
      else if isTruthy details && isTruthy (prop details "category") then
        reply [Do "recipients.removeCategoryRecipient" [prop details "category"]]
      else ignored
  | requestUserLogDetails =>
      if negb accepted then ignored else
      if isTruthy details && isString (prop details "username") then
        reply [Do "emitUserLogDetails" [prop details "username"; prop details "time"]]
      else ignored
  | requestChannelLogDetails =>
      if negb accepted then ignored else
      if isTruthy details && isString (prop details "channel") then
        reply [Do "emitChannelLogDetails" [prop details "channel"; prop details "time"]]
      else ignored
  | requestUserLogFile =>
      if negb accepted then ignored else
      if isTruthy details && isString (prop details "username")
         && isString (prop details "time") then
        reply [Do "emitUserLogFile"
                 [prop details "username"; prop details "time";
                  prop details "pageNumber"]]
      else ignored
  | requestChannelLogFile =>
      if negb accepted then ignored else
      if isTruthy details && isString (prop details "channel")
         && isString (prop details "time") then
        reply [Do "emitChannelLogFile"
                 [prop details "channel"; prop details "time";
                  prop details "pageNumber"]]
      else ignored
  | reportHighlightAsSeen =>
      if negb accepted then ignored else
      if isTruthy details && isString (prop details "messageId") then
        reply [Do "unseenHighlights.reportHighlightAsSeen" [prop details "messageId"]]
      else ignored
  | clearUnseenHighlights =>
      if negb accepted then ignored else
      reply [Do "unseenHighlights.clearUnseenHighlights" []]
  | storeViewState =>
      if negb accepted then ignored else
      if isTruthy details && isTruthy (prop details "viewState") then
        reply [Do "viewState.storeViewState" [prop details "viewState"]]
      else ignored
  | sendMessage =>
      if negb accepted then ignored else
      if isTruthy details && isTruthy (prop details "channel")
         && isTruthy (prop details "message") && isTruthy (prop details "token") then
        if isAnAcceptedToken E (prop details "token") then
          reply ((if isTruthy (prop details "messageToken")
                  then [Do "emitMessagePosted"
                          [prop details "channel"; prop details "messageToken"]]
                  else []) ++
                 [Do "ircControl.sendOutgoingMessage"
                    [prop details "channel"; normalise E (prop details "message")]])
        else ignored
      else ignored
  | requestLineInfo =>
      if negb accepted then ignored else
      if isTruthy details && isString (prop details "lineId") then
        reply [Do "emitLineInfo" [prop details "lineId"]]
      else ignored
  | reloadBaseData =>
      if negb accepted then ignored else reply [Do "emitBaseData" []]
  | addNewFriend =>
      if negb accepted then ignored else
      if isTruthy details && isTruthy (prop details "username") then
        let username := formatUriName E (prop details "username") in
        reply [DoThen "friends.addToFriends"
                 [VNumber 0; username; levelIsTwo (prop details "level")]
                 [Do "emitFriendsList" []]]
      else ignored
  | changeFriendLevel =>
      if negb accepted then ignored else
      if isTruthy details && isTruthy (prop details "username")
         && isTruthy (prop details "level") then
        let username := formatUriName E (prop details "username") in
        reply [DoThen "friends.modifyFriend"
                 [VNumber 0; username;
                  VObject [("isBestFriend", levelIsTwo (prop details "level"))]]
                 [Do "emitFriendsList" []]]
      else ignored
  | removeFriend =>
      if negb accepted then ignored else
      if isTruthy details && isTruthy (prop details "username") then
        let username := formatUriName E (prop details "username") in
        reply [DoThen "friends.removeFromFriends" [VNumber 0; username]
                 [Do "emitFriendsList" []]]
      else ignored
  | setAppConfigValue =>
      if negb accepted then ignored else
      if isTruthy details && isTruthy (prop details "key") then
        reply [DoThen "appConfig.storeConfigValue"
                 [prop details "key"; prop details "value"]
                 [Do "emitAppConfig" []]]
      else ignored
  | addIrcServer =>
      if negb accepted then ignored else
      if isTruthy details && isTruthy (prop details "name")
         && isTruthy (prop details "data") then
        reply [DoThen "ircConfig.addIrcServerFromDetails" [details]
                 [DoThen "emitIrcConfig" []
                    [Do "ircControl.connectUnconnectedIrcs" []]]]
      else ignored
  | changeIrcServer =>
      if negb accepted then ignored else
      if isTruthy details && isTruthy (prop details "name")
         && isTruthy (prop details "data") then
        let name := formatUriName E (prop details "name") in
        reply [DoThen "ircConfig.modifyServerInIrcConfig" [name; prop details "data"]
                 [DoThen "emitIrcConfig" []
                    [Do "ircControl.disconnectAndRemoveIrcServer" [name];
                     Do "ircControl.connectUnconnectedIrcs" []]]]
      else ignored
  | removeIrcServer =>
      if negb accepted then ignored else
      if isTruthy details && isTruthy (prop details "name") then
        let name := formatUriName E (prop details "name") in
        reply [DoThen "ircConfig.removeServerFromIrcConfig" [name]
                 [DoThen "emitIrcConfig" []
                    [Do "ircControl.disconnectAndRemoveIrcServer" [name]]]]
      else ignored
  | addIrcChannel =>
      if negb accepted then ignored else
      if isTruthy details && isTruthy (prop details "serverName")
         && isTruthy (prop details "name") then
        let serverName := formatUriName E (prop details "serverName") in
        let name := formatUriName E (prop details "name") in
        reply [DoThen "ircConfig.addChannelToIrcConfig" [serverName; name; VObject []]
                 [Do "ircControl.joinIrcChannel" [serverName; name];
                  Do "emitIrcConfig" []]]
      else ignored
  | removeIrcChannel =>
      if negb accepted then ignored else
      if isTruthy details && isTruthy (prop details "serverName")
         && isTruthy (prop details "name") then
        let serverName := formatUriName E (prop details "serverName") in
        let name := formatUriName E (prop details "name") in
        reply [DoThen "ircConfig.removeChannelFromIrcConfig" [serverName; name]
                 [Do "ircControl.partIrcChannel" [serverName; name];
                  Do "emitIrcConfig" []]]
      else ignored
  | addNickname =>
      if negb accepted then ignored else
      if isTruthy details && isTruthy (prop details "nickname") then
        let nickname := lowerClean E (prop details "nickname") in
        reply [DoThen "nicknames.addNickname" [nickname] [Do "emitNicknames" []]]
      else ignored
  | changeNicknameValue =>
      if negb accepted then ignored else
      if isTruthy details && isTruthy (prop details "nickname")
         && isTruthy (prop details "key") then
        let nickname := lowerClean E (prop details "nickname") in
        reply [DoThen "nicknames.modifyNickname"
                 [nickname; prop details "key"; prop details "value"]
                 [Do "emitNicknames" []]]
      else ignored
  | removeNickname =>
      if negb accepted then ignored else
      if isTruthy details && isTruthy (prop details "nickname") then
        let nickname := lowerClean E (prop details "nickname") in
        reply [DoThen "nicknames.removeNickname" [nickname] [Do "emitNicknames" []]]
      else ignored
  | reconnectToIrcServer =>
      if negb accepted then ignored else
      if isTruthy details && isTruthy (prop details "name") then
        let name := formatUriName E (prop details "name") in
        reply [Do "ircControl.reconnectIrcServer" [name]]
      else ignored
  | requestSystemInfo =>
      if negb accepted then ignored else
      reply [DoThen "log.getDatabaseSize" []
               [Do "emitSystemInfo" [VString "databaseSize"]];
             DoThen "log.getLogFolderSize" []
               [Do "emitSystemInfo" [VString "logFolderSize"]]]
  end.

(** The listeners that answer a viewer's request: every one but the
    socket's own "disconnect" and the "token" presentation. *)
Definition isRequest (ev : event) : bool :=
  match ev with
  | disconnect | token => false
  | _ => true
  end.

End WithEnvironment.

(** An environment that accepts one token and leaves names as they are. *)
Definition sampleEnvironment : environment :=
  Environment
    (fun v => match v with VString t => String.eqb t "secret" | _ => false end)
    (fun v => v) (fun v => v) (fun v => v)
    (fun v => match v with VNumber n => Some n | _ => None end).

Definition sampleSendMessage : value :=
  VObject [("channel", VString "alpha/x"); ("message", VString "hello");
           ("token", VString "secret")].

End Io.

(** ** The persisted line formats (server/log.js) *)

Module Log.

(** *** Regular expressions

    The fragment of JavaScript regular expressions that the line parsers
    use, with the backtracking, greedy semantics of [String.prototype.match].
    Every expression of [lineFormats] starts with [^] and carries no
    flags, so a match is attempted at index 0 only.  Strings are ASCII. *)

Definition charClass : Type := ascii -> bool.

Inductive regex : Type :=
| Lit (s : string)
| Star (cls : charClass)
| Plus (cls : charClass)
| Seq (r1 r2 : regex)
| Opt (r : regex)
| Alt (r1 r2 : regex)
| Group (i : nat) (r : regex)
| Eos.

Definition captures : Type := list (nat * string).

(** [str.substr(n)] *)
Fixpoint substr (n : nat) (s : string) : string :=
  match n, s with
  | 0, _ => s
  | S n', String _ s' => substr n' s'
  | S _, EmptyString => EmptyString
  end.

(** The part of [s] in front of its suffix [rest]. *)
Definition consumed (s rest : string) : string :=
  String.substring 0 (String.length s - String.length rest) s.

Fixpoint litK {R} (lit s : string) (k : string -> option R) : option R :=
  match lit, s with
  | EmptyString, _ => k s
  | String a lit', String b s' => if Ascii.eqb a b then litK lit' s' k else None
  | String _ _, EmptyString => None
  end.

(** Greedy repetition of a character class: the longest run first, then
    one character less on every failure of the continuation. *)
Fixpoint starK {R} (cls : charClass) (s : string) (k : string -> option R) : option R :=
  match s with
  | String c s' =>
      if cls c then
        match starK cls s' k with
        | Some r => Some r
        | None => k s
        end
      else k s
  | EmptyString => k EmptyString
  end.

Fixpoint run {R} (r : regex) (s : string) (caps : captures)
    (k : string -> captures -> option R) : option R :=
  match r with
  | Lit l => litK l s (fun s' => k s' caps)
  | Star cls => starK cls s (fun s' => k s' caps)
  | Plus cls =>
      match s with
      | String c s' => if cls c then starK cls s' (fun s'' => k s'' caps) else None
      | EmptyString => None
      end
  | Seq r1 r2 => run r1 s caps (fun s' caps' => run r2 s' caps' k)
  | Opt r =>
      match run r s caps k with
      | Some x => Some x
      | None => k s caps
      end
  | Alt r1 r2 =>
      match run r1 s caps k with
      | Some x => Some x
      | None => run r2 s caps k
      end
  | Group i r => run r s caps (fun s' caps' => k s' ((i, consumed s s') :: caps'))
  | Eos =>
      match s with
      | EmptyString => k s caps
      | String _ _ => None
      end
  end.

(** [line.match(re)]: the matched text [match[0]] and the groups. *)
Definition jsMatch (re : regex) (line : string) : option (string * captures) :=
  run re line [] (fun rest caps => Some (consumed line rest, caps)).

(** [match[i]]; [None] is [undefined]. *)
Fixpoint group (i : nat) (caps : captures) : option string :=
  match caps with
  | [] => None
  | (j, text) :: rest => if Nat.eqb i j then Some text else group i rest
  end.

Fixpoint seqs (rs : list regex) : regex :=
  match rs with
  | [] => Lit ""
  | [r] => r
  | r :: rest => Seq r (seqs rest)
  end.

(** *** Character classes *)

Definition code (c : ascii) : nat := nat_of_ascii c.

Definition oneOf (chars : string) : charClass :=
  fun c => bool_decide (c ∈ String.list_ascii_of_string chars).

(** [\s] *)
Definition space : charClass :=
  fun c => let n := code c in ((9 <=? n) && (n <=? 13)) || (n =? 32).

(** [[@\+%!\.]] *)
Definition symbolChar : charClass := oneOf "@+%!.".

(** [[A-Za-z0-9|\[\]{}\\_-]] *)
Definition nameChar : charClass :=
  fun c =>
    let n := code c in
    ((65 <=? n) && (n <=? 90)) || ((97 <=? n) && (n <=? 122))
    || ((48 <=? n) && (n <=? 57)) || oneOf "|[]{}\_-" c.

(** [[^\s\*]] *)
Definition notSpaceStar : charClass := fun c => negb (space c || oneOf "*" c).

(** [[^\s]] *)
Definition notSpace : charClass := fun c => negb (space c).

(** [[^\)]] *)
Definition notParen : charClass := fun c => negb (oneOf ")" c).

(** [.] *)
Definition dot : charClass := fun c => negb ((code c =? 10) || (code c =? 13)).

(** *** The expressions *)

(** [USERNAME_SYMBOL_RGXSTR], with its two groups numbered from [i]. *)
Definition USERNAME_SYMBOL (i : nat) : regex :=
  Seq (Group i (Star symbolChar)) (Group (S i) (Plus nameChar)).

(** The template literal [`^<${USERNAME_SYMBOL_RGXSTR}>\s*`]: inside a
    template literal the escape [\s] is the letter [s]. *)
Definition msgRegExp : regex :=
  seqs [Lit "<"; USERNAME_SYMBOL 1; Lit ">"; Star (oneOf "s")].

(** [/^\*\s*([^\s\*]+)\s+/] *)
Definition actionRegExp : regex :=
  seqs [Lit "*"; Star space; Group 1 (Plus notSpaceStar); Plus space].

(** The template literal [`^-${USERNAME_SYMBOL_RGXSTR}-\s*`]. *)
Definition noticeRegExp : regex :=
  seqs [Lit "-"; USERNAME_SYMBOL 1; Lit "-"; Star (oneOf "s")].

(** [/^\*\*\s*([^\s\*]+)\s+joined$/] *)
Definition joinRegExp : regex :=
  seqs [Lit "**"; Star space; Group 1 (Plus notSpaceStar); Plus space;
        Lit "joined"; Eos].

(** [(\s+\(([^\)]+)\))?] with its two groups numbered from [i]. *)
Definition reasonSuffix (i : nat) : regex :=
  Opt (Group i (seqs [Plus space; Lit "("; Group (S i) (Plus notParen); Lit ")"])).

Definition eventWithReasonLogRegExp (descriptor : string) : regex :=
  seqs [Lit "**"; Star space; USERNAME_SYMBOL 1; Plus space; Lit descriptor;
        reasonSuffix 3; Eos].

Definition kickRegExp : regex :=
  seqs [Lit "**"; Star space; USERNAME_SYMBOL 1; Plus space; Lit "was kicked by";
        Plus space; Group 3 (Plus notSpace); reasonSuffix 4; Eos].

Definition modeRegExp : regex :=
  seqs [Lit "**"; Star space; USERNAME_SYMBOL 1; Plus space; Lit "sets mode:";
        Plus space; Group 3 (Plus notSpace);
        Opt (Group 4 (Seq (Plus space) (Group 5 (Plus dot)))); Eos].

(** [/^\*\*\*\s*([^\s\*]+)\s+(by|to|from)\s+([^\s\*]+)$/] *)
Definition connectionEventRegExp : regex :=
  seqs [Lit "***"; Star space; Group 1 (Plus notSpaceStar); Plus space;
        Group 2 (Alt (Lit "by") (Alt (Lit "to") (Lit "from")));
        Plus space; Group 3 (Plus notSpaceStar); Eos].

(** *** Builders and parsers *)

(** The object a parser returns, and the fields a line is built from;
    [None] is a field that is absent or [undefined]. *)
Record fields : Type := Fields {
  symbol : option string;
  username : option string;
  message : option string;
  type : option string;
  reason : option string;
  by_ : option string;
  mode : option string;
  argument : option string;
  status : option string;
  server : option string
}.

Definition noFields : fields :=
  Fields None None None None None None None None None None.

(** A value inside a template literal or a concatenation. *)
Definition str (o : option string) : string := default "undefined" o.

(** [x ? " (" + x + ")" : ""] and the like: the test of an optional
    string. *)
Definition given (o : option string) : bool :=
  match o with Some s => truthy s | None => false end.

Definition withReason (reason : option string) : string :=
  if given reason then " (" +:+ str reason +:+ ")" else "".

Inductive kind : Type :=
| msg | action | notice | join | part | quit | kick | mode_ | kill | connectionEvent.

Definition build_msg (symbol username message : option string) : string :=
  "<" +:+ str symbol +:+ str username +:+ "> " +:+ str message.

Definition build_action (symbol username message : option string) : string :=
  "* " +:+ str symbol +:+ str username +:+ " " +:+ str message.

Definition build_notice (symbol username message : option string) : string :=
  let username := if given username then username else Some "notice" in
  "-" +:+ str symbol +:+ str username +:+ "- " +:+ str message.

Definition build_join (symbol username : option string) : string :=
  "** " +:+ str symbol +:+ str username +:+ " joined".

Definition build_part (symbol username reason : option string) : string :=
  "** " +:+ str symbol +:+ str username +:+ " left" +:+ withReason reason.

Definition build_quit (symbol username reason : option string) : string :=
  "** " +:+ str symbol +:+ str username +:+ " quit" +:+ withReason reason.

Definition build_kick (symbol username by_ reason : option string) : string :=
  "** " +:+ str symbol +:+ str username +:+ " was kicked by " +:+ str by_
  +:+ withReason reason.

Definition build_mode (symbol username mode argument : option string) : string :=
  "** " +:+ str symbol +:+ str username +:+ " sets mode: " +:+ str mode
  +:+ (if given argument then " " +:+ str argument else "").

Definition build_kill (symbol username reason : option string) : string :=
  "** " +:+ str symbol +:+ str username +:+ " was killed" +:+ withReason reason.

Definition build_connectionEvent (status server : option string) : string :=
  let by_ := "by" in
  let by_ := if bool_decide (status = Some "connected") then "to" else by_ in
  let by_ := if bool_decide (status = Some "disconnected") then "from" else by_ in
  let by_ := if bool_decide (status = Some "failed") then "to connect to" else by_ in
  let by_ := if bool_decide (status = Some "aborted") then "connecting to" else by_ in
  "*** " +:+ str status +:+ " " +:+ by_ +:+ " " +:+ str server.

(** [lineFormats[kind].build], on the fields the kind is built from. *)
Definition build (k : kind) (d : fields) : string :=
  match k with
  | msg => build_msg (symbol d) (username d) (message d)
  | action => build_action (symbol d) (username d) (message d)
  | notice => build_notice (symbol d) (username d) (message d)
  | join => build_join (symbol d) (username d)
  | part => build_part (symbol d) (username d) (reason d)
  | quit => build_quit (symbol d) (username d) (reason d)
  | kick => build_kick (symbol d) (username d) (by_ d) (reason d)
  | mode_ => build_mode (symbol d) (username d) (mode d) (argument d)
  | kill => build_kill (symbol d) (username d) (reason d)
  | connectionEvent => build_connectionEvent (status d) (server d)
  end.

Definition eventWithReasonLogParser (descriptor line : string) : option fields :=
  match jsMatch (eventWithReasonLogRegExp descriptor) line with
  | Some (_, m) =>
      Some (Fields (group 1 m) (group 2 m) None None (group 3 m)
                   None None None None None)
  | None => None
  end.

(** [lineFormats[kind].parse]; [None] is [null]. *)
Definition parse (k : kind) (line : string) : option fields :=
  match k with
  | msg =>
      match jsMatch msgRegExp line with
      | Some (m0, m) =>
          Some (Fields (group 1 m) (group 2 m)
                       (Some (substr (String.length m0) line)) (Some "msg")
                       None None None None None None)
      | None => None
      end
  | action =>
      match jsMatch actionRegExp line with
      | Some (m0, m) =>
          Some (Fields None (group 1 m)
                       (Some (substr (String.length m0) line)) (Some "action")
                       None None None None None None)
      | None => None
      end
  | notice =>
      match jsMatch noticeRegExp line with
      | Some (m0, m) =>
          Some (Fields None (group 1 m)
                       (Some (substr (String.length m0) line)) (Some "notice")
                       None None None None None None)
      | None => None
      end
  | join =>
      match jsMatch joinRegExp line with
      | Some (_, m) =>
          Some (Fields None (group 1 m) None None None None None None None None)
      | None => None
      end
  | part => eventWithReasonLogParser "left" line
  | quit => eventWithReasonLogParser "quit" line
  | kick =>
      match jsMatch kickRegExp line with
      | Some (_, m) =>
          Some (Fields (group 1 m) (group 2 m) None None (group 4 m) (group 3 m)
                       None None None None)
      | None => None
      end
  | mode_ =>
      match jsMatch modeRegExp line with
      | Some (_, m) =>
          Some (Fields (group 1 m) (group 2 m) None None None None
                       (group 3 m) (group 4 m) None None)
      | None => None
      end
  | kill => eventWithReasonLogParser "was killed" line
  | connectionEvent =>
      match jsMatch connectionEventRegExp line with
      | Some (_, m) =>
          Some (Fields None None None None None None None None
                       (group 1 m) (group 3 m))
      | None => None
      end
  end.

(** The fields the specification requires a line of each kind to give
    back. *)
Definition requiredFields (k : kind) (d : fields) : list (option string) :=
  match k with
  | msg | action | notice => [symbol d; username d; message d]
  | join => [symbol d; username d]
  | part | quit | kill => [symbol d; username d; reason d]
  | kick => [symbol d; username d; by_ d; reason d]
  | mode_ => [symbol d; username d; mode d; argument d]
  | connectionEvent => [status d; server d]
  end.

(** [parse(build(kind, data)) == data] on the required fields. *)
Definition roundTrips (k : kind) (d : fields) : bool :=
  match parse k (build k d) with
  | Some p => bool_decide (requiredFields k p = requiredFields k d)
  | None => false
  end.

(** *** Strings within a character class *)

(** Every character of [s] is in the class. *)
Fixpoint allOf (cls : charClass) (s : string) : bool :=
  match s with
  | EmptyString => true
  | String c s' => cls c && allOf cls s'
  end.

(** [s] is empty or starts outside the class. *)
Definition stopsAt (cls : charClass) (s : string) : bool :=
  match s with
  | EmptyString => true
  | String c _ => negb (cls c)
  end.

(** A line's worth of fields, with every optional one present. *)
Definition sampleFields : fields :=
  Fields (Some "@") (Some "bob") (Some "hi there") None (Some "bye")
         (Some "op") (Some "+o") (Some "alice")
         (Some "connected") (Some "irc.example.org").

(** The shortest of messages: no symbol, a nickname, a word. *)
Definition plainFields : fields :=
  Fields (Some "") (Some "bob") (Some "hi") None None None None None None None.

Definition allKinds : list kind :=
  [msg; action; notice; join; part; quit; kick; mode_; kill; connectionEvent].

End Log.

(** ** Views of the message caches used by the further properties *)

Module CacheViews.
Import Cache.

(** The channel whose cache a call works on, if any. *)
Definition targetChannel (c : call) : option string :=
  match c with
  | CacheMessage a => Some (channelUri a)
  | CacheChannelEvent channel _ => Some channel
  | CacheBunchableChannelEvent channel _ => Some channel
  | CacheUserMessage _ _ => None
  | CacheCategoryMessage _ _ => None
  end.

(** A call to the database's [storeLine]. *)
Definition isStore (e : effect) : bool :=
  match e with
  | DbStoreLine _ _ => true
  | _ => false
  end.

(** No context array holds more than twice the context size. *)
Definition contextsBounded (E : environment) (s : state) : Prop :=
  forall ref arr,
    contextArrays s !! ref = Some arr -> length arr <= 2 * CONTEXT_CACHE_LINES E.

(** How many of the events of a run a predicate holds of, as the counters
    of a bunch add them up. *)
Definition countOf (p : line -> bool) (run : list line) : nat :=
  foldr (fun e n => b2n (p e) + n) 0 run.

(** The call [storeLine] makes for a line of a channel when database
    logging is on: one [db.storeLine] if the channel has a known id. *)
Definition written (E : environment) (channel : string) (l : line) (s : state)
    : list effect :=
  if logLinesDb E
  then match channelIdCache s !! channel with
       | Some channelId => [DbStoreLine channelId l]
       | None => []
       end
  else [].

(** Whether the tail of a channel's cache takes the next bunchable event
    into a bunch. *)
Definition bunches (E : environment) (channel : string) (s : state) : bool :=
  match tailOf channel s with
  | Some lastItem =>
      bool_decide (type lastItem ∈ BUNCHABLE_EVENT_TYPES E)
      || bool_decide (type lastItem = "events")
  | None => false
  end.

(** The database writes a call is expected to make before it returns. *)
Definition writtenBy (E : environment) (c : call) (s : state) : list effect :=
  match c with
  | CacheMessage a => written E (channelUri a) (messageOf E a s) s
  | CacheChannelEvent channel data => written E channel data s
  | CacheBunchableChannelEvent channel data =>
      if bunches E channel s then [] else written E channel data s
  | CacheUserMessage _ _ => []
  | CacheCategoryMessage _ _ => []
  end.

(** From [s] to [s'] the collaborators were called some more, the
    database's [storeLine] exactly as [w] lists, and the channel ids were
    left alone. *)
Definition wrote (w : list effect) (s s' : state) : Prop :=
  channelIdCache s' = channelIdCache s
  /\ exists new, outbox s' = outbox s ++ new /\ List.filter isStore new = w.

End CacheViews.

(** ** The connection module, continued: listeners, removal, set-up and
    outgoing requests (server/irc.js) *)

Module IrcControl.
Import Irc.

(** The connection-state listeners [setUpClient] installs beside
    "connect": "close" and "end" report a disconnection, "abort" (the
    library gave up reconnecting) a failure. *)
Inductive listenerEvent : Type := Close | End_ | Abort.

Definition reported (e : listenerEvent) : status :=
  match e with
  | Close => DISCONNECTED
  | End_ => DISCONNECTED
  | Abort => FAILED
  end.

Definition listen (i : nat) (s : state) (e : listenerEvent) : state :=
  handleConnectionStateChange i (reported e) s.

(** [removeServer].  Every client is an object of its own, so
    [lodash.without(clients, c)] takes out the one position [c] is at;
    the clients behind it move up by one. *)
Definition removeServer (serverName : string) (s : state) : state :=
  match findClientByServerName serverName s with
  | Some (i, _) =>
      let s := disconnectServer serverName s in
      State (delete i (clients s)) (multiServerChannels s) (calls s)
  | None => s
  end.

(** The names the clients go by. *)
Definition serverNames (s : state) : list (option string) :=
  clientServerName <$> clients s.

(** *** Setting clients up *)

(** What the module reads of an entry of the IRC configuration:
    [cf.name], [cf.hostname], [cf.nickname] and the names of
    [cf.channels]; [None] is a missing property. *)
Record serverConfig : Type := ServerConfig {
  name : option string;
  hostname : option string;
  nickname : option string;
  channelNames : list string
}.

(** Truthiness of a property that may be missing. *)
Definition given (o : option string) : bool :=
  match o with Some s => truthy s | None => false end.

(** A property inside a concatenation. *)
Definition text (o : option string) : string := default "undefined" o.

Definition convertChannelObjects (channels : list string) : list string :=
  (fun channel => "#" +:+ channel) <$> channels.

(** [initiateClient]: the line handed to [main.log] and the state with the
    new client pushed.  The client starts without the [_pyramidAborted]
    flag. *)
Definition initiateClient (cf : option serverConfig) (s : state)
    : list string * state :=
  match cf with
  | Some cf =>
      if given (hostname cf)
      then (["Connecting to " +:+ text (hostname cf) +:+ " as " +:+ text (nickname cf)],
            State (clients s ++
                     [Client (name cf) (convertChannelObjects (channelNames cf)) false])
                  (multiServerChannels s) (calls s))
      else ([], s)
  | None => ([], s)
  end.

(** What a set-up function leaves behind: the lines logged, the names of
    the servers whose clients got their listeners, and the state. *)
Record setUp : Type := SetUp {
  logged : list string;
  newNames : list string;
  after : state
}.

(** The body of the [forEach] of [connectUnconnectedClients]. *)
Definition connectUnconnected (acc : setUp) (config : option serverConfig) : setUp :=
  match config with
  | Some cf =>
      match name cf with
      | Some n =>
          if truthy n && given (hostname cf)
             && negb (bool_decide (is_Some (findClientByServerName n (after acc))))
          then
            let '(lines, s) := initiateClient (Some cf) (after acc) in
            SetUp (logged acc ++ lines) (newNames acc ++ [n]) s
          else acc
      | None => acc
      end
  | None => acc
  end.

Definition connectUnconnectedClients (ircConfig : list (option serverConfig))
    (s : state) : setUp :=
  let r := foldl connectUnconnected (SetUp [] [] s) ircConfig in
  SetUp (logged r) (newNames r) (calibrateMultiServerChannels (after r)).

(** An entry that [connectUnconnectedClients] takes up. *)
Definition connectable (cf : serverConfig) : Prop :=
  exists n, name cf = Some n /\ truthy n = true /\ given (hostname cf) = true.

(** *** Requests to the IRC library *)

(** ["#" + channelName.replace(/^#/, "")] *)
Definition formatChannelName (channelName : string) : string :=
  "#" +:+ match channelName with
          | String "#" rest => rest
          | _ => channelName
          end.

(** Who a message is handed on as coming from: [client.nick] of the
    client at a position, or a name. *)
Inductive sender : Type :=
| Nick (i : nat)
| Named (username : string).

(** Calls into the IRC library, the plugins and [main] made on the way
    out.  The time of the call and the tags object are left out. *)
Inductive request : Type :=
| ClientJoin (i : nat) (channel : string)
| ClientPart (i : nat) (channel : string)
| ClientSay (i : nat) (target message : string)
| ClientAction (i : nat) (target message : string)
| PluginsMessageTags (channelUri : string) (serverName : option string)
    (username : sender) (type message : string) (postedLocally : bool)
| MainHandleIncomingMessage (channelUri channelName : string)
    (serverName : option string) (username : sender) (type message : string).

Definition joinChannel (serverName channelName : string) (s : state) : list request :=
  match findClientByServerName serverName s with
  | Some (i, _) => [ClientJoin i (formatChannelName channelName)]
  | None => []
  end.

Definition partChannel (serverName channelName : string) (s : state) : list request :=
  match findClientByServerName serverName s with
  | Some (i, _) => [ClientPart i (formatChannelName channelName)]
  | None => []
  end.

(** The channel helpers of the utility module, which lies outside the
    module: the server and the channel a URI names ([None] is a null
    result), and the URI of a channel on a server. *)
Record util : Type := Util {
  channelServerNameFromUrl : string -> option string;
  channelNameFromUrl : string -> string -> option string;
  getChannelUri : string -> option string -> string
}.

(** [/^\/me\s+/] *)
Definition meRegex : Log.regex := Log.seqs [Log.Lit "/me"; Log.Plus Log.space].

Section WithUtil.

Variable U : util.

(** [handleIncomingMessage] with a tags object: the plugins see the
    message first, then [main]. *)
Definition handleIncomingMessage (i : nat) (c : client) (username : sender)
    (channel type message : string) (postedLocally : bool) (s : state)
    : list request :=
  let co := channelObject c channel in
  let channelUri := getChannelUri U (Irc.channel co) (server co) in
  let channelName := getChannelFullName co s in
  let serverName := server co in
  [PluginsMessageTags channelUri serverName username type message postedLocally;
   MainHandleIncomingMessage channelUri channelName serverName username type message].

(** [sendOutgoingMessage]: what it returns and the calls it makes. *)
Definition sendOutgoingMessage (channelUri message : string) (isAction : bool)
    (s : state) : bool * list request :=
  let serverName := channelServerNameFromUrl U channelUri in
  let channelName := channelNameFromUrl U channelUri "#" in
  match serverName, channelName with
  | Some serverName, Some channelName =>
      if truthy serverName && truthy channelName then
        match findClientByServerName serverName s with
        | Some (i, client) =>
            let '(isAction, message) :=
              match (if negb isAction then Log.jsMatch meRegex message else None) with
              | Some (m0, _) => (true, Log.substr (String.length m0) message)
              | None => (isAction, message)
              end in
            let type := if isAction then "action" else "msg" in
            (true,
             (if isAction
              then ClientAction i channelName message
              else ClientSay i channelName message)
             :: handleIncomingMessage i client (Nick i) channelName type message true s)
        | None => (false, [])
        end
      else (false, [])
  | _, _ => (false, [])
  end.

End WithUtil.

(** *** A sample configuration *)

(** The server "beta" of [sampleState] with another channel. *)
Definition sampleConfig : list (option serverConfig) :=
  [Some (ServerConfig (Some "beta") (Some "irc.beta.example") (Some "me") ["lobby"])].

(** Channel URIs of the shape "alpha/general". *)
Definition sampleUtil : util :=
  Util (fun _ => Some "alpha") (fun _ _ => Some "#general")
       (fun channel server => default "" server +:+ "/" +:+ channel).

End IrcControl.

(** ** The first IRC watcher (irc.js): caches and recipients *)

Module LegacyCache.

Definition CACHE_LINES : nat := 150.

(** A socket handed over as a recipient; [None] is a falsy value. *)
Definition socket : Type := option nat.

Section WithMessages.

(** The message objects [emitMessage] builds; the caches and the
    recipient lists never look inside them. *)
Context {msg : Type}.

(** [cacheMessage(cache, msg)], as the array [cache] is left: the push
    and the [shift] work on the array itself, the [slice] makes a new
    array that the function drops when it returns. *)
Definition cacheMessage (cache : list msg) (m : msg) : list msg :=
  let cache := cache ++ [m] in
  if CACHE_LINES <? length cache then
    if length cache =? CACHE_LINES + 1 then shift cache
    else cache
  else cache.

(** The module-level variables, and the [socket.emit("msg", ...)] calls
    made so far. *)
Record state : Type := State {
  channelCaches : gmap string (list msg);
  userCaches : gmap string (list msg);
  channelRecipients : gmap string (list socket);
  userRecipients : gmap string (list socket);
  emitted : list (nat * msg)
}.

Definition initial : state := State ∅ ∅ ∅ ∅ [].

(** [emitMessageToRecipients(list, msg)]: the calls it makes. *)
Definition emitMessageToRecipients (recipients : option (list socket)) (m : msg)
    : list (nat * msg) :=
  match recipients with
  | Some recipients => omap (fun so : socket => (fun n => (n, m)) <$> so) recipients
  | None => []
  end.

Definition cacheChannelMessage (channelUrl : string) (m : msg) (s : state) : state :=
  let cache := default [] (channelCaches s !! channelUrl) in
  State (<[channelUrl := cacheMessage cache m]> (channelCaches s))
        (userCaches s) (channelRecipients s) (userRecipients s)
        (emitted s ++ emitMessageToRecipients (channelRecipients s !! channelUrl) m).

Definition cacheUserMessage (username : string) (m : msg) (s : state) : state :=
  let cache := default [] (userCaches s !! username) in
  State (channelCaches s)
        (<[username := cacheMessage cache m]> (userCaches s))
        (channelRecipients s) (userRecipients s)
        (emitted s ++ emitMessageToRecipients (userRecipients s !! username) m).

(** [addRecipient(list, targetName, socket)] *)
Definition addRecipient (lists : gmap string (list socket)) (targetName : string)
    (so : socket) : gmap string (list socket) :=
  let sockets := default [] (lists !! targetName) in
  <[targetName := if bool_decide (so ∈ sockets) then sockets else sockets ++ [so]]> lists.

(** [removeRecipient(list, targetName, socket)] *)
Definition removeRecipient (lists : gmap string (list socket)) (targetName : string)
    (so : socket) : gmap string (list socket) :=
  match lists !! targetName with
  | Some sockets => <[targetName := filter (fun r => r <> so) sockets]> lists
  | None => lists
  end.

(** The calls the rest of the application makes. *)
Inductive call : Type :=
| CacheChannelMessage (channelUrl : string) (m : msg)
| CacheUserMessage (username : string) (m : msg)
| AddChannelRecipient (channelUrl : string) (so : socket)
| RemoveChannelRecipient (channelUrl : string) (so : socket)
| AddUserRecipient (username : string) (so : socket)
| RemoveUserRecipient (username : string) (so : socket).

Definition step (s : state) (c : call) : state :=
  match c with
  | CacheChannelMessage channelUrl m => cacheChannelMessage channelUrl m s
  | CacheUserMessage username m => cacheUserMessage username m s
  | AddChannelRecipient channelUrl so =>
      State (channelCaches s) (userCaches s)
            (addRecipient (channelRecipients s) channelUrl so) (userRecipients s)
            (emitted s)
  | RemoveChannelRecipient channelUrl so =>
      State (channelCaches s) (userCaches s)
            (removeRecipient (channelRecipients s) channelUrl so) (userRecipients s)
            (emitted s)
  | AddUserRecipient username so =>
      State (channelCaches s) (userCaches s) (channelRecipients s)
            (addRecipient (userRecipients s) username so) (emitted s)
  | RemoveUserRecipient username so =>
      State (channelCaches s) (userCaches s) (channelRecipients s)
            (removeRecipient (userRecipients s) username so) (emitted s)
  end.

(** The messages cached for a channel by a run of calls, in order. *)
Definition channelHistory (channelUrl : string) (calls : list call) : list msg :=
  omap (fun c => match c with
                 | CacheChannelMessage u m =>
                     if bool_decide (u = channelUrl) then Some m else None
                 | _ => None
                 end) calls.

(** Whether the last request a run makes about a socket on a channel is
    one to add it. *)
Definition subscribed (channelUrl : string) (so : socket) (calls : list call) : bool :=
  foldl (fun b c =>
           match c with
           | AddChannelRecipient u r =>
               if bool_decide (u = channelUrl /\ r = so) then true else b
           | RemoveChannelRecipient u r =>
               if bool_decide (u = channelUrl /\ r = so) then false else b
           | _ => b
           end) false calls.

End WithMessages.

Arguments state : clear implicits.
Arguments call : clear implicits.

End LegacyCache.

(** ** A connection's requests, one after the other (IO module) *)

Module IoSession.
Import Io.

Section WithEnvironment.

Variable E : environment.

(** One more event on a connection: its listener runs on the token the
    connection holds, and may replace it. *)
Definition serve (acc : value * list action) (request : event * value)
    : value * list action :=
  let '(connectionToken, done) := acc in
  let '(connectionToken, acts) :=
    handler E (fst request) (snd request) connectionToken in
  (connectionToken, done ++ acts).

(** A connection from its start: [connectionToken] is [null]. *)
Definition connection (requests : list (event * value)) : value * list action :=
  foldl serve (VNull, []) requests.

(** The token a "token" event presents, if it carries one. *)
Definition presented (request : event * value) : option value :=
  match fst request with
  | token =>
      if isTruthy (snd request) && isString (prop (snd request) "token")
      then Some (prop (snd request) "token")
      else None
  | _ => None
  end.

End WithEnvironment.

End IoSession.

(** ** The persisted line formats, continued: writing a line and telling
    its type (server/log.js) *)

Module LogLines.
Import Log.

(** The keys of [lineFormats]. *)
Definition kindName (k : kind) : string :=
  match k with
  | msg => "msg"
  | action => "action"
  | notice => "notice"
  | join => "join"
  | part => "part"
  | quit => "quit"
  | kick => "kick"
  | mode_ => "mode"
  | kill => "kill"
  | connectionEvent => "connectionEvent"
  end.

(** [Object.keys(lineFormats)] *)
Definition lineTypes : list kind := allKinds.

(** [getLogLineFromData(type, data)]; there is no case for "notice". *)
Definition getLogLineFromData (type : string) (data : option fields) : string :=
  match data with
  | Some d =>
      if truthy type then
        if bool_decide (type = "msg") then build msg d
        else if bool_decide (type = "action") then build action d
        else if bool_decide (type = "join") then build join d
        else if bool_decide (type = "part") then build part d
        else if bool_decide (type = "quit") then build quit d
        else if bool_decide (type = "kill") then build kill d
        else if bool_decide (type = "kick") then build kick d
        else if bool_decide (type = "mode") then build mode_ d
        else if bool_decide (type = "connectionEvent") then build connectionEvent d
        else ""
      else ""
  | None => ""
  end.

(** The loop of [parseLogLine] over the line types: the first parser
    that accepts the line names its type. *)
Fixpoint firstParse (types : list kind) (innerLine : string) : option (kind * fields) :=
  match types with
  | [] => None
  | type :: rest =>
      match parse type innerLine with
      | Some result => Some (type, result)
      | None => firstParse rest innerLine
      end
  end.

Definition parseContents (innerLine : string) : option (kind * fields) :=
  firstParse lineTypes innerLine.

(** The words behind the nickname on the three kinds of line that end
    in an optional reason. *)
Definition descriptor (k : kind) : string :=
  match k with
  | part => "left"
  | quit => "quit"
  | kill => "was killed"
  | _ => ""
  end.

(** A symbol and a nickname as the parsers spell them. *)
Definition nick (sy u : string) : Prop :=
  allOf symbolChar sy = true /\ allOf nameChar u = true /\ u <> "".

(** A non-empty word of a character class. *)
Definition word (cls : charClass) (w : string) : Prop :=
  allOf cls w = true /\ w <> "".

(** A reason that is left out, or one without a closing parenthesis. *)
Definition plainReason (o : option string) : Prop :=
  given o = false \/ exists r, o = Some r /\ word notParen r.

(** A mode argument that is left out, or one on one line that does not
    start with white space. *)
Definition plainArgument (o : option string) : Prop :=
  given o = false
  \/ exists a, o = Some a /\ word dot a /\ stopsAt space a = true.

(** The fields of a line of each kind, within the character classes of
    its parser. *)
Definition wellFormed (k : kind) (d : fields) : Prop :=
  match k with
  | connectionEvent =>
      exists st sv,
        status d = Some st /\ server d = Some sv
        /\ word notSpaceStar st /\ word notSpaceStar sv
        /\ st <> "failed" /\ st <> "aborted"
  | _ =>
      (exists sy u, symbol d = Some sy /\ username d = Some u /\ nick sy u)
      /\ match k with
         | msg | action | notice => exists m, message d = Some m
         | part | quit | kill => plainReason (reason d)
         | kick => (exists b, by_ d = Some b /\ word notSpace b)
                   /\ plainReason (reason d)
         | mode_ => (exists mo, mode d = Some mo /\ word notSpace mo)
                    /\ plainArgument (argument d)
         | _ => True
         end
  end.

End LogLines.

(** ** The lines of a log file, bunched (server/log.js) *)

Module LogList.

(** A line object of a log file as [addLineObjectToList] reads it: its
    type, its time, the events of a bunch, and the parsed properties, which
    the function hands on untouched. *)
#[local] Set Warnings "-register-all".
Inductive lineObject : Type := LineObject {
  type : string;
  time : option string;
  events : list lineObject;
  parsed : Log.fields
}.

Section WithConstants.

(** [constants.BUNCHABLE_EVENT_TYPES] *)
Variable BUNCHABLE_EVENT_TYPES : list string.

(** [{ events, time, type: "events" }] *)
Definition bunch (events : list lineObject) (time : option string) : lineObject :=
  LineObject "events" time events Log.noFields.

(** [addLineObjectToList(linesList, data)], as [linesList] is left;
    [data] is [None] for a line [parseLogLine] made nothing of. *)
Definition addLineObjectToList (linesList : list lineObject)
    (data : option lineObject) : list lineObject :=
  match data with
  | Some data =>
      if bool_decide (type data ∈ BUNCHABLE_EVENT_TYPES) then
        match last linesList with
        | Some lastItem =>
            if bool_decide (type lastItem ∈ BUNCHABLE_EVENT_TYPES)
            then setLast (bunch [lastItem; data] (time data)) linesList
            else if bool_decide (type lastItem = "events")
            then setLast (bunch (events lastItem ++ [data]) (time data)) linesList
            else linesList ++ [data]
        | None => linesList ++ [data]
        end
      else linesList ++ [data]
  | None => linesList
  end.

(** The loop of [convertLogFileToLineObjects] over the parsed lines. *)
Definition convert (lines : list (option lineObject)) : list lineObject :=
  foldl addLineObjectToList [] lines.

End WithConstants.

(** The lines of a list with every bunch opened up. *)
Definition flatten (linesList : list lineObject) : list lineObject :=
  flat_map (fun o => if bool_decide (type o = "events") then events o else [o])
           linesList.

(** Two event lines of a log file and a message. *)
Definition sampleJoinLine : lineObject :=
  LineObject "join" (Some "12:00:01") []
    (Log.Fields None (Some "bob") None None None None None None None None).

Definition samplePartLine : lineObject :=
  LineObject "part" (Some "12:00:02") []
    (Log.Fields (Some "") (Some "bob") None None None None None None None None).

Definition sampleMessageLine : lineObject :=
  LineObject "msg" (Some "12:00:03") []
    (Log.Fields (Some "") (Some "bob") (Some " hi") (Some "msg")
       None None None None None None).

End LogList.

(** * Properties *)

Section SliceFacts.
Context {A : Type}.
Implicit Types (l : list A) (n : nat).

Lemma sliceLast_length n l : length (sliceLast n l) = min n (length l).
Proof. unfold sliceLast. rewrite length_drop. lia. Qed.

Lemma sliceLast_all n l : length l <= n -> sliceLast n l = l.
Proof.
  intros H. unfold sliceLast.
  replace (length l - n) with 0 by lia. reflexivity.
Qed.

Lemma sliceLast_suffix n l : sliceLast n l `suffix_of` l.
Proof. apply suffix_drop. Qed.

Lemma sliceLast_app n l1 l2 :
  length l2 <= n -> sliceLast n (l1 ++ l2) = sliceLast (n - length l2) l1 ++ l2.
Proof.
  intros H. unfold sliceLast. rewrite length_app, drop_app.
  replace (length l1 + length l2 - n) with (length l1 - (n - length l2)) by lia.
  replace (length l1 - (n - length l2) - length l1) with 0 by lia.
  reflexivity.
Qed.

Lemma sliceLast_sliceLast_app n l1 l2 :
  sliceLast n (sliceLast n l1 ++ l2) = sliceLast n (l1 ++ l2).
Proof.
  unfold sliceLast. rewrite !length_app, length_drop, !drop_app, length_drop.
  rewrite drop_drop.
  destruct (decide (length l1 <= n)) as [Hle|Hgt].
  - replace (length l1 - n) with 0 by lia. simpl.
    rewrite Nat.sub_0_r. reflexivity.
  - replace (length l1 - (length l1 - n)) with n by lia.
    replace (length l1 - n + (n + length l2 - n)) with (length l1 + length l2 - n) by lia.
    replace (n + length l2 - n - n) with (length l1 + length l2 - n - length l1) by lia.
    reflexivity.
Qed.

Lemma sliceLast_app_ge n l1 l2 :
  n <= length l2 -> sliceLast n (l1 ++ l2) = sliceLast n l2.
Proof.
  intros H. unfold sliceLast. rewrite length_app, drop_app.
  rewrite (drop_ge l1) by lia. simpl. f_equal. lia.
Qed.

Lemma sliceLast_rotate n l x :
  0 < n -> length l = n -> sliceLast n (l ++ [x]) = tail l ++ [x].
Proof.
  intros Hn Hl. unfold sliceLast. rewrite length_app. simpl.
  replace (length l + 1 - n) with 1 by lia.
  destruct l; [simpl in Hl; lia | reflexivity].
Qed.

Lemma tail_drop l : tail l = drop 1 l.
Proof. destruct l; reflexivity. Qed.

End SliceFacts.

(** ** The cache engine *)

Module CacheFacts.
Import Cache.

Section WithEnvironment.

Variable E : environment.

Lemma cacheItem_sliceLast cache data :
  cacheItem E cache data = sliceLast (getCacheLinesSetting E) (cache ++ [data]).
Proof.
  unfold cacheItem.
  destruct (getCacheLinesSetting E <? length (cache ++ [data])) eqn:Hover.
  - apply Nat.ltb_lt in Hover.
    destruct (length (cache ++ [data]) =? getCacheLinesSetting E + 1) eqn:Hone.
    + apply Nat.eqb_eq in Hone. unfold shift, sliceLast.
      rewrite Hone, tail_drop. f_equal. lia.
    + reflexivity.
  - apply Nat.ltb_ge in Hover. now rewrite sliceLast_all.
Qed.

Lemma cacheItem_length cache data :
  length (cacheItem E cache data) <= getCacheLinesSetting E.
Proof. rewrite cacheItem_sliceLast, sliceLast_length. lia. Qed.

Lemma cacheChannelEvent_caches channel data s :
  let s' := cacheChannelEvent E channel data s in
  channelCaches s' =
    <[channel := cacheItem E (default [] (channelCaches s !! channel)) data]>
      (channelCaches s)
  /\ userCaches s' = userCaches s
  /\ categoryCaches s' = categoryCaches s.
Proof.
  unfold cacheChannelEvent, storeLine.
  destruct (logLinesDb E);
    [cbn [channelIdCache setChannelCaches];
     destruct (channelIdCache s !! channel)|];
    destruct (io E); repeat split.
Qed.

Lemma cacheUserMessage_caches username msg s :
  let s' := cacheUserMessage E username msg s in
  channelCaches s' = channelCaches s
  /\ userCaches s' =
       <[username := cacheItem E (default [] (userCaches s !! username)) msg]>
         (userCaches s)
  /\ categoryCaches s' = categoryCaches s.
Proof. repeat split. Qed.

Lemma cacheCategoryMessage_caches categoryName msg s :
  let s' := cacheCategoryMessage E categoryName msg s in
  channelCaches s' = channelCaches s
  /\ userCaches s' = userCaches s
  /\ categoryCaches s' =
       <[categoryName :=
           cacheItem E (default [] (categoryCaches s !! categoryName)) msg]>
         (categoryCaches s).
Proof.
  unfold cacheCategoryMessage.
  destruct (_ && _), (io E); repeat split.
Qed.

Lemma stored_applyAppend key s a :
  stored key (applyAppend E s a) =
  match appended key a with
  | [] => stored key s
  | data :: _ => cacheItem E (stored key s) data
  end.
Proof.
  destruct a as [channel data|username msg|categoryName msg];
    cbn [applyAppend].
  - destruct (cacheChannelEvent_caches channel data s) as (Hc & Hu & Hg).
    destruct key as [k|k|k]; cbn [stored appended];
      rewrite ?Hc, ?Hu, ?Hg; [|reflexivity..].
    case_bool_decide; subst;
      [now rewrite lookup_insert_eq | now rewrite lookup_insert_ne].
  - destruct (cacheUserMessage_caches username msg s) as (Hc & Hu & Hg).
    destruct key as [k|k|k]; cbn [stored appended];
      rewrite ?Hc, ?Hu, ?Hg; [reflexivity| |reflexivity].
    case_bool_decide; subst;
      [now rewrite lookup_insert_eq | now rewrite lookup_insert_ne].
  - destruct (cacheCategoryMessage_caches categoryName msg s) as (Hc & Hu & Hg).
    destruct key as [k|k|k]; cbn [stored appended];
      rewrite ?Hc, ?Hu, ?Hg; [reflexivity..|].
    case_bool_decide; subst;
      [now rewrite lookup_insert_eq | now rewrite lookup_insert_ne].
Qed.

Lemma stored_appends key appends : forall s,
  length (stored key s) <= getCacheLinesSetting E ->
  stored key (foldl (applyAppend E) s appends) =
  sliceLast (getCacheLinesSetting E) (stored key s ++ history key appends).
Proof.
  induction appends as [|a appends IH]; intros s Hlen; simpl.
  - unfold history. simpl. rewrite app_nil_r. now rewrite sliceLast_all.
  - unfold history in *. simpl. rewrite IH.
    + rewrite stored_applyAppend.
      destruct (appended key a) as [|data rest] eqn:Ha; [reflexivity|].
      assert (rest = []) as ->.
      { destruct key, a; simpl in Ha; try discriminate;
          case_bool_decide; congruence. }
      rewrite cacheItem_sliceLast, sliceLast_sliceLast_app.
      now rewrite <- app_assoc.
    + rewrite stored_applyAppend.
      destruct (appended key a); [assumption | apply cacheItem_length].
Qed.

End WithEnvironment.

(** C1.  Whatever is appended through [cacheItem] to the channel, user
    and category caches of a fresh module, the sequence stored under any
    key is never longer than the configured capacity and is exactly the
    most recent capacity-many entries of everything appended under that
    key.  An append that brings the length to one more than the capacity
    removes exactly the head; one that brings it further above keeps the
    most recent capacity-many entries; any other append only adds the new
    entry at the tail. *)
Theorem cacheItem_bounded_suffix_of_history
    (E : environment) (appends : list append) (key : cacheKey) :
  let s := foldl (applyAppend E) initial appends in
  let capacity := getCacheLinesSetting E in
  length (stored key s) <= capacity
  /\ stored key s = sliceLast capacity (history key appends)
  /\ stored key s `suffix_of` history key appends
  /\ (forall cache data,
        length (cache ++ [data]) = capacity + 1 ->
        cacheItem E cache data = tail (cache ++ [data]))
  /\ (forall cache data,
        capacity + 1 < length (cache ++ [data]) ->
        cacheItem E cache data = sliceLast capacity (cache ++ [data]))
  /\ (forall cache data,
        length (cache ++ [data]) <= capacity ->
        cacheItem E cache data = cache ++ [data]).
Proof.
  intros s capacity.
  assert (Hinit : stored key initial = []).
  { destruct key; simpl; try reflexivity.
    unfold initial; simpl.
    destruct (decide (categoryName = "highlights")) as [->|];
      [now rewrite lookup_insert_eq | rewrite lookup_insert_ne by congruence].
    destruct (decide (categoryName = "allfriends")) as [->|];
      [now rewrite lookup_insert_eq | rewrite lookup_insert_ne by congruence].
    destruct (decide (categoryName = "system")) as [->|];
      [now rewrite lookup_insert_eq | rewrite lookup_insert_ne by congruence].
    reflexivity. }
  assert (Hs : stored key s = sliceLast capacity (history key appends)).
  { subst s capacity. rewrite stored_appends; rewrite Hinit; simpl; [reflexivity | lia]. }
  split; [rewrite Hs, sliceLast_length; lia|].
  split; [exact Hs|].
  split; [rewrite Hs; apply sliceLast_suffix|].
  split; [|split]; intros cache data Hlen; subst capacity.
  - rewrite cacheItem_sliceLast. unfold sliceLast.
    rewrite Hlen, tail_drop. f_equal. lia.
  - apply cacheItem_sliceLast.
  - rewrite cacheItem_sliceLast. now apply sliceLast_all.
Qed.

(** *** Replacing the last entry *)

Section Replace.

Variable E : environment.

Lemma deleteLinesWithLineIds_frame lineIds : forall s,
  exists toInsert toDelete,
    deleteLinesWithLineIds lineIds s =
    setBunchableLinesToInsert toInsert (setLineIdsToDelete toDelete s).
Proof.
  induction lineIds as [|lineId lineIds IH]; intros s; simpl.
  - exists (bunchableLinesToInsert s), (lineIdsToDelete s). now destruct s.
  - unfold deleteLinesWithLineIds in *. simpl.
    destruct (IH (setBunchableLinesToInsert (delete lineId (bunchableLinesToInsert s))
                    (setLineIdsToDelete ({[lineId]} ∪ lineIdsToDelete s) s)))
      as (toInsert & toDelete & ->).
    now exists toInsert, toDelete.
Qed.

(** What [replaceLastCacheItem] leaves of the state outside the two
    deferred-storage queues. *)
Lemma replaceLastCacheItem_frame channel data s :
  exists toInsert toDelete,
    replaceLastCacheItem E channel data s =
    setBunchableLinesToInsert toInsert
      (setLineIdsToDelete toDelete
         (match channelCaches s !! channel with
          | Some cache =>
              if 0 <? length cache
              then setChannelCaches (<[channel := setLast data cache]> (channelCaches s)) s
              else s
          | None => s
          end)).
Proof.
  unfold replaceLastCacheItem.
  set (s1 := match channelCaches s !! channel with
             | Some cache => _ | None => _ end).
  assert (exists toInsert, storeBunchableLine E channel data s1 =
            setBunchableLinesToInsert toInsert s1) as [toInsert ->].
  { unfold storeBunchableLine. destruct (_ && _); eauto.
    exists (bunchableLinesToInsert s1). now destruct s1. }
  destruct (0 <? length (prevIds data)).
  - destruct (deleteLinesWithLineIds_frame (prevIds data)
                (setBunchableLinesToInsert toInsert s1)) as (i & d & ->).
    now exists i, d.
  - exists toInsert, (lineIdsToDelete s1). now destruct s1.
Qed.

Lemma setLast_length {A} (x : A) l : length (setLast x l) = length l.
Proof. apply length_insert. Qed.

Lemma setLast_lookup {A} (x : A) l i :
  i < length l - 1 -> setLast x l !! i = l !! i.
Proof. intros H. unfold setLast. apply list_lookup_insert_ne. lia. Qed.

Lemma setLast_last {A} (x : A) l : l <> [] -> last (setLast x l) = Some x.
Proof.
  intros H. rewrite last_lookup, setLast_length. unfold setLast.
  replace (Nat.pred (length l)) with (length l - 1) by lia.
  apply list_lookup_insert_eq. destruct l; [congruence | simpl; lia].
Qed.

End Replace.

(** C10.  Replacing the most recent entry of a non-empty channel cache
    keeps the length of that cache and every entry but the last, which
    becomes the replacement; on a channel with no cache or an empty one
    the channel caches stay as they are.  The caches of other channels,
    the user caches and the category caches are never touched. *)
Theorem replaceLastCacheItem_frame_effect
    (E : environment) (channel : string) (data : line) (s : state) :
  let s' := replaceLastCacheItem E channel data s in
  (forall cache,
      channelCaches s !! channel = Some cache -> cache <> [] ->
      exists cache',
        channelCaches s' !! channel = Some cache'
        /\ length cache' = length cache
        /\ (forall i, i < length cache - 1 -> cache' !! i = cache !! i)
        /\ last cache' = Some data)
  /\ (stored (ChannelKey channel) s = [] -> channelCaches s' = channelCaches s)
  /\ (forall other, other <> channel ->
        channelCaches s' !! other = channelCaches s !! other)
  /\ userCaches s' = userCaches s
  /\ categoryCaches s' = categoryCaches s.
Proof.
  intros s'. subst s'.
  destruct (replaceLastCacheItem_frame E channel data s) as (i & d & ->).
  repeat split.
  - intros cache Hcache Hne. rewrite Hcache.
    assert ((0 <? length cache) = true) as ->.
    { apply Nat.ltb_lt. destruct cache; [congruence | simpl; lia]. }
    exists (setLast data cache). simpl. rewrite lookup_insert_eq.
    repeat split.
    + apply setLast_length.
    + intros j Hj. now apply setLast_lookup.
    + now apply setLast_last.
  - simpl. intros Hempty.
    destruct (channelCaches s !! channel) as [cache|]; [|reflexivity].
    simpl in Hempty. subst cache. reflexivity.
  - intros other Hother.
    destruct (channelCaches s !! channel) as [cache|]; [|reflexivity].
    destruct (0 <? length cache); [|reflexivity].
    simpl. now rewrite lookup_insert_ne.
  - destruct (channelCaches s !! channel) as [cache|]; [|reflexivity].
    now destruct (0 <? length cache).
  - destruct (channelCaches s !! channel) as [cache|]; [|reflexivity].
    now destruct (0 <? length cache).
Qed.

(** *** Bunching *)

Section Bunching.

Variable E : environment.

Lemma last_sliceLast_snoc {A} n (l : list A) x :
  0 < n -> last (sliceLast n (l ++ [x])) = Some x.
Proof.
  intros Hn. unfold sliceLast. rewrite length_app. simpl.
  rewrite last_lookup, length_drop, length_app, lookup_drop. simpl.
  rewrite lookup_app_r by lia.
  replace (_ - length l) with 0 by lia. reflexivity.
Qed.

Lemma tailOf_nonempty channel s t :
  tailOf channel s = Some t ->
  exists cache, channelCaches s !! channel = Some cache /\ cache <> []
                /\ stored (ChannelKey channel) s = cache.
Proof.
  unfold tailOf. simpl. destruct (channelCaches s !! channel) as [cache|]; simpl.
  - intros H. exists cache. repeat split. intros ->. discriminate.
  - discriminate.
Qed.

Lemma cacheChannelEvent_stored channel data s :
  stored (ChannelKey channel) (cacheChannelEvent E channel data s) =
  cacheItem E (stored (ChannelKey channel) s) data.
Proof.
  pose proof (stored_applyAppend E (ChannelKey channel) s (ToChannel channel data)) as H.
  cbn [applyAppend appended] in H.
  now rewrite bool_decide_eq_true_2 in H by reflexivity.
Qed.

Lemma cacheChannelEvent_uuidCount channel data s :
  uuidCount (cacheChannelEvent E channel data s) = uuidCount s.
Proof.
  unfold cacheChannelEvent, storeLine.
  destruct (logLinesDb E);
    [cbn [channelIdCache setChannelCaches];
     destruct (channelIdCache s !! channel)|];
    destruct (io E); reflexivity.
Qed.

Lemma cacheChannelEvent_tailOf channel data s :
  0 < getCacheLinesSetting E ->
  tailOf channel (cacheChannelEvent E channel data s) = Some data.
Proof.
  intros Hcap. unfold tailOf.
  rewrite cacheChannelEvent_stored, cacheItem_sliceLast.
  now apply last_sliceLast_snoc.
Qed.

(** The state after a bunch has replaced the tail. *)
Lemma replaced_stored channel bunch s t :
  tailOf channel s = Some t ->
  let s' :=
    (let s1 := replaceLastCacheItem E channel bunch (setUuidCount (S (uuidCount s)) s) in
     if io E then emit (IoEmitEventToChannel channel bunch) s1 else s1) in
  stored (ChannelKey channel) s' = setLast bunch (stored (ChannelKey channel) s)
  /\ uuidCount s' = S (uuidCount s)
  /\ tailOf channel s' = Some bunch.
Proof.
  intros Ht. destruct (tailOf_nonempty _ _ _ Ht) as (cache & Hcache & Hne & Hst).
  assert (Hpos : (0 <? length cache) = true).
  { apply Nat.ltb_lt. destruct cache; [congruence | simpl; lia]. }
  cbv zeta.
  destruct (replaceLastCacheItem_frame E channel bunch
              (setUuidCount (S (uuidCount s)) s)) as (i & d & ->).
  unfold tailOf. rewrite Hst. simpl. rewrite Hcache, Hpos.
  destruct (io E); simpl; rewrite lookup_insert_eq; simpl;
    (repeat split; [now apply setLast_last]).
Qed.

Lemma cacheBunchable_new channel data s t :
  tailOf channel s = Some t ->
  type t ∈ BUNCHABLE_EVENT_TYPES E ->
  let s' := cacheBunchableChannelEvent E channel data s in
  let bunch := newBunch E (uuid_v4 E (uuidCount s)) t data in
  stored (ChannelKey channel) s' = setLast bunch (stored (ChannelKey channel) s)
  /\ uuidCount s' = S (uuidCount s)
  /\ tailOf channel s' = Some bunch.
Proof.
  intros Ht Hin. cbv zeta. unfold cacheBunchableChannelEvent.
  change (last (default [] (channelCaches s !! channel))) with (tailOf channel s).
  rewrite Ht, bool_decide_eq_true_2 by assumption.
  now apply replaced_stored with (t := t).
Qed.

Lemma cacheBunchable_grow channel data s b :
  tailOf channel s = Some b ->
  type b ∉ BUNCHABLE_EVENT_TYPES E ->
  type b = "events" ->
  let s' := cacheBunchableChannelEvent E channel data s in
  let bunch := grownBunch E (uuid_v4 E (uuidCount s)) b data in
  stored (ChannelKey channel) s' = setLast bunch (stored (ChannelKey channel) s)
  /\ uuidCount s' = S (uuidCount s)
  /\ tailOf channel s' = Some bunch.
Proof.
  intros Ht Hin Hty. cbv zeta. unfold cacheBunchableChannelEvent.
  change (last (default [] (channelCaches s !! channel))) with (tailOf channel s).
  rewrite Ht, bool_decide_eq_false_2, bool_decide_eq_true_2 by assumption.
  now apply replaced_stored with (t := b).
Qed.

Lemma cacheBunchable_plain channel data s :
  (forall t, tailOf channel s = Some t ->
             (type t ∉ BUNCHABLE_EVENT_TYPES E) /\ type t <> "events") ->
  cacheBunchableChannelEvent E channel data s = cacheChannelEvent E channel data s.
Proof.
  intros H. unfold cacheBunchableChannelEvent.
  change (last (default [] (channelCaches s !! channel))) with (tailOf channel s).
  destruct (tailOf channel s) as [t|]; [|reflexivity].
  destruct (H t eq_refl) as [Hnb Hne].
  now rewrite !bool_decide_eq_false_2 by assumption.
Qed.

End Bunching.

Section BunchRuns.

Variable E : environment.
Variable channel : string.

Let m := BUNCHED_EVENT_SIZE E.

Lemma capped_sliceLast {A} (l : list A) :
  (if m <? length l then sliceLast m l else l) = sliceLast m l.
Proof.
  destruct (m <? length l) eqn:H; [reflexivity|].
  apply Nat.ltb_ge in H. now rewrite sliceLast_all.
Qed.

Lemma grownBunch_fields lineId' b data :
  type (grownBunch E lineId' b data) = "events"
  /\ events (grownBunch E lineId' b data) = sliceLast m (events b ++ [data])
  /\ prevIds (grownBunch E lineId' b data) = sliceLast m (prevIds b ++ [lineId b])
  /\ lineId (grownBunch E lineId' b data) = lineId'.
Proof. unfold grownBunch; simpl. now rewrite !capped_sliceLast. Qed.

(** A run appended onto a cache whose tail is already a bunch. *)
Lemma grow_run rest : forall data s b,
  tailOf channel s = Some b ->
  type b = "events" ->
  "events" ∉ BUNCHABLE_EVENT_TYPES E ->
  exists b',
    tailOf channel (bunchRun E channel (data :: rest) s) = Some b'
    /\ type b' = "events"
    /\ events b' = sliceLast m (events b ++ data :: rest)
    /\ length (prevIds b') = min m (length (prevIds b) + S (length rest)).
Proof.
  induction rest as [|x rest IH]; intros data s b Ht Hty Hev.
  - destruct (cacheBunchable_grow E channel data s b Ht) as (_ & _ & Ht');
      [congruence | assumption |].
    destruct (grownBunch_fields (uuid_v4 E (uuidCount s)) b data) as (F1 & F2 & F3 & _).
    eexists. split; [exact Ht'|]. repeat split; try assumption.
    rewrite F3, sliceLast_length, length_app. simpl. lia.
  - destruct (cacheBunchable_grow E channel data s b Ht) as (_ & _ & Ht');
      [congruence | assumption |].
    destruct (grownBunch_fields (uuid_v4 E (uuidCount s)) b data) as (F1 & F2 & F3 & _).
    destruct (IH x _ _ Ht' F1 Hev) as (b' & T & Y & EV & PL).
    exists b'. split; [exact T|]. split; [exact Y|]. split.
    + rewrite EV, F2, sliceLast_sliceLast_app, <- app_assoc. reflexivity.
    + rewrite PL, F3, sliceLast_length, length_app. simpl. lia.
Qed.

Lemma full_bunch_after_run run s :
  2 <= m ->
  0 < getCacheLinesSetting E ->
  "events" ∉ BUNCHABLE_EVENT_TYPES E ->
  Forall (fun e => type e ∈ BUNCHABLE_EVENT_TYPES E) run ->
  m < length run ->
  exists b,
    tailOf channel (bunchRun E channel run s) = Some b
    /\ type b = "events"
    /\ events b = sliceLast m run
    /\ length (prevIds b) = m.
Proof.
  intros Hm Hcap Hev Hrun Hlen.
  destruct run as [|e1 rest]; [simpl in Hlen; lia|].
  simpl in Hlen. apply Forall_cons in Hrun as [He1 Hrest].
  destruct (tailOf channel s) as [t|] eqn:Ht.
  - destruct (decide (type t ∈ BUNCHABLE_EVENT_TYPES E)) as [Hin|Hnot].
    + (* the tail is a single bunchable event *)
      destruct (cacheBunchable_new E channel e1 s t Ht Hin) as (_ & _ & Ht').
      destruct rest as [|x rest]; [simpl in Hlen; lia|].
      destruct (grow_run rest x _ _ Ht' eq_refl Hev) as (b & T & Y & EV & PL).
      exists b. split; [exact T|]. split; [exact Y|]. split.
      * rewrite EV. simpl events.
        change ([t; e1] ++ x :: rest) with ([t] ++ e1 :: x :: rest).
        apply sliceLast_app_ge. simpl. simpl in Hlen. lia.
      * rewrite PL. simpl. simpl in Hlen. lia.
    + destruct (decide (type t = "events")) as [Hty|Hty].
      * (* the tail is a bunch already *)
        destruct (grow_run rest e1 s t Ht Hty Hev) as (b & T & Y & EV & PL).
        exists b. split; [exact T|]. split; [exact Y|]. split.
        -- rewrite EV. apply sliceLast_app_ge. simpl. lia.
        -- rewrite PL. lia.
      * (* the tail is something else: the run starts a fresh entry *)
        destruct rest as [|e2 rest]; [simpl in Hlen; lia|].
        destruct rest as [|x rest]; [simpl in Hlen; lia|].
        assert (Hplain : cacheBunchableChannelEvent E channel e1 s
                         = cacheChannelEvent E channel e1 s).
        { apply cacheBunchable_plain. intros t' Ht'. rewrite Ht in Ht'.
          injection Ht' as <-. now split. }
        pose proof (cacheChannelEvent_tailOf E channel e1 s Hcap) as T1.
        rewrite <- Hplain in T1.
        destruct (cacheBunchable_new E channel e2 _ e1 T1 He1) as (_ & _ & T2).
        destruct (grow_run rest x _ _ T2 eq_refl Hev) as (b & T & Y & EV & PL).
        exists b. split; [exact T|]. split; [exact Y|]. split.
        -- rewrite EV. reflexivity.
        -- rewrite PL. simpl. simpl in Hlen. lia.
  - (* no cache, or an empty one *)
    destruct rest as [|e2 rest]; [simpl in Hlen; lia|].
    destruct rest as [|x rest]; [simpl in Hlen; lia|].
    assert (Hplain : cacheBunchableChannelEvent E channel e1 s
                     = cacheChannelEvent E channel e1 s).
    { apply cacheBunchable_plain. intros t' Ht'. rewrite Ht in Ht'. discriminate. }
    pose proof (cacheChannelEvent_tailOf E channel e1 s Hcap) as T1.
    rewrite <- Hplain in T1.
    destruct (cacheBunchable_new E channel e2 _ e1 T1 He1) as (_ & _ & T2).
    destruct (grow_run rest x _ _ T2 eq_refl Hev) as (b & T & Y & EV & PL).
    exists b. split; [exact T|]. split; [exact Y|]. split.
    + rewrite EV. reflexivity.
    + rewrite PL. simpl. simpl in Hlen. lia.
Qed.

End BunchRuns.

(** C4.  After more than [BUNCHED_EVENT_SIZE] bunchable events in a row
    on one channel, the tail of the channel cache is an "events" bunch
    whose members are exactly the most recent [BUNCHED_EVENT_SIZE] events
    of the run and whose [prevIds] has the same length; from then on every
    further event drops the oldest member and the oldest prior id and
    adds the new event and the id of the bunch it replaces. *)
Theorem bunch_member_cap
    (E : environment) (channel : string) (run : list line) (s : state) :
  2 <= BUNCHED_EVENT_SIZE E ->
  0 < getCacheLinesSetting E ->
  "events" ∉ BUNCHABLE_EVENT_TYPES E ->
  Forall (fun e => type e ∈ BUNCHABLE_EVENT_TYPES E) run ->
  BUNCHED_EVENT_SIZE E < length run ->
  let s' := bunchRun E channel run s in
  exists b,
    tailOf channel s' = Some b
    /\ type b = "events"
    /\ events b = sliceLast (BUNCHED_EVENT_SIZE E) run
    /\ length (events b) = BUNCHED_EVENT_SIZE E
    /\ length (prevIds b) = BUNCHED_EVENT_SIZE E
    /\ forall next,
         exists b',
           tailOf channel (cacheBunchableChannelEvent E channel next s') = Some b'
           /\ type b' = "events"
           /\ events b' = tail (events b) ++ [next]
           /\ prevIds b' = tail (prevIds b) ++ [lineId b].
Proof.
  intros Hm Hcap Hev Hrun Hlen s'.
  destruct (full_bunch_after_run E channel run s Hm Hcap Hev Hrun Hlen)
    as (b & T & Y & EV & PL).
  assert (EL : length (events b) = BUNCHED_EVENT_SIZE E).
  { rewrite EV, sliceLast_length. lia. }
  exists b. repeat split; try assumption.
  intros next.
  destruct (cacheBunchable_grow E channel next s' b T) as (_ & _ & T');
    [congruence | assumption |].
  destruct (grownBunch_fields E (uuid_v4 E (uuidCount s')) b next) as (F1 & F2 & F3 & _).
  eexists. split; [exact T'|]. split; [exact F1|]. split.
  - rewrite F2. apply sliceLast_rotate; [lia | assumption].
  - rewrite F3. apply sliceLast_rotate; [lia | assumption].
Qed.

Lemma bunch_member_cap_witness :
  exists b,
    tailOf "alpha/x" (bunchRun sampleEnvironment "alpha/x" sampleRun initial) = Some b
    /\ type b = "events"
    /\ events b = [samplePart; sampleJoin; sampleQuit]
    /\ length (events b) = 3
    /\ length (prevIds b) = 3.
Proof.
  destruct (bunch_member_cap sampleEnvironment "alpha/x" sampleRun initial)
    as (b & T & Y & EV & EL & PL & _).
  - simpl; lia.
  - vm_compute; lia.
  - compute_done.
  - repeat constructor; compute_done.
  - simpl; lia.
  - exists b. repeat split; assumption.
Defined.

(** C3, as the code has it.  A join and then a part appended to an empty
    channel cache leave exactly one entry, of type "events", with
    [joinCount = 1], [partCount = 1], both events as members, and a
    [prevIds] that already lists the id of the join line it replaced; a
    further event makes a second bunch whose [prevIds] lists the join's id
    and then the id of the first bunch. *)
Theorem join_then_part_bunch
    (E : environment) (channel : string) (j p next : line) (s : state) :
  0 < getCacheLinesSetting E ->
  2 <= BUNCHED_EVENT_SIZE E ->
  type j ∈ BUNCHABLE_EVENT_TYPES E ->
  "events" ∉ BUNCHABLE_EVENT_TYPES E ->
  isJoinEvent E j = true -> isPartEvent E j = false ->
  isJoinEvent E p = false -> isPartEvent E p = true ->
  stored (ChannelKey channel) s = [] ->
  let s2 := bunchRun E channel [j; p] s in
  let s3 := cacheBunchableChannelEvent E channel next s2 in
  exists b1 b2,
    stored (ChannelKey channel) s2 = [b1]
    /\ type b1 = "events"
    /\ joinCount b1 = 1
    /\ partCount b1 = 1
    /\ events b1 = [j; p]
    /\ prevIds b1 = [lineId j]
    /\ stored (ChannelKey channel) s3 = [b2]
    /\ type b2 = "events"
    /\ prevIds b2 = [lineId j; lineId b1].
Proof.
  intros Hcap Hm Hj Hev Hjj Hjp Hpj Hpp Hempty s2 s3.
  assert (Hplain : cacheBunchableChannelEvent E channel j s
                   = cacheChannelEvent E channel j s).
  { apply cacheBunchable_plain. unfold tailOf. rewrite Hempty. discriminate. }
  assert (S1 : stored (ChannelKey channel) (cacheBunchableChannelEvent E channel j s) = [j]).
  { rewrite Hplain, cacheChannelEvent_stored, Hempty, cacheItem_sliceLast.
    apply sliceLast_all. simpl. lia. }
  assert (T1 : tailOf channel (cacheBunchableChannelEvent E channel j s) = Some j).
  { unfold tailOf. now rewrite S1. }
  destruct (cacheBunchable_new E channel p _ j T1 Hj) as (S2 & _ & T2).
  rewrite S1 in S2.
  destruct (cacheBunchable_grow E channel next _ _ T2) as (S3 & _ & _);
    [simpl; congruence | reflexivity |].
  change (cacheBunchableChannelEvent E channel p
            (cacheBunchableChannelEvent E channel j s)) with s2 in *.
  rewrite S2 in S3.
  eexists _, _.
  split; [exact S2|].
  split; [reflexivity|].
  split; [simpl; now rewrite Hjj, Hpj|].
  split; [simpl; now rewrite Hjp, Hpp|].
  split; [reflexivity|].
  split; [reflexivity|].
  split; [exact S3|].
  split; [reflexivity|].
  rewrite (proj1 (proj2 (proj2 (grownBunch_fields E _ _ _)))).
  apply sliceLast_all. simpl. lia.
Qed.

Lemma join_then_part_bunch_witness :
  exists b1 b2,
    stored (ChannelKey "alpha/x")
      (bunchRun sampleEnvironment "alpha/x" [sampleJoin; samplePart] initial) = [b1]
    /\ joinCount b1 = 1 /\ partCount b1 = 1
    /\ prevIds b1 = ["id-join"]
    /\ prevIds b2 = ["id-join"; "uuid-0"].
Proof.
  destruct (join_then_part_bunch sampleEnvironment "alpha/x"
              sampleJoin samplePart sampleQuit initial)
    as (b1 & b2 & S2 & Y1 & J & P & EV & PI & S3 & Y2 & PI2).
  - vm_compute; lia.
  - simpl; lia.
  - compute_done.
  - compute_done.
  - reflexivity.
  - reflexivity.
  - reflexivity.
  - reflexivity.
  - reflexivity.
  - exists b1, b2. repeat split; try assumption.
    rewrite PI2. f_equal. f_equal.
    cbv zeta in S2. vm_compute in S2. injection S2 as <-. reflexivity.
Defined.

(** C3, as the specification has it, fails: after a join and a part on
    an empty cache the single "events" entry does not have an empty
    [prevIds]. *)
Lemma first_bunch_prevIds_not_empty :
  ~ (exists b,
       stored (ChannelKey "alpha/x")
         (bunchRun sampleEnvironment "alpha/x" [sampleJoin; samplePart] initial) = [b]
       /\ type b = "events" /\ joinCount b = 1 /\ partCount b = 1
       /\ prevIds b = []).
Proof.
  intros (b & Hb & _ & _ & _ & Hprev).
  vm_compute in Hb. injection Hb as <-. discriminate Hprev.
Qed.

(** *** Highlight contexts *)

Section Contexts.

Variable E : environment.

Lemma pushToContexts_spec msg hs : forall arrays,
  NoDup (contextMessages <$> hs) ->
  (forall h, h ∈ hs ->
     exists ref arr, contextMessages h = Some ref /\ arrays !! ref = Some arr) ->
  exists surviving arrays',
    pushToContexts E msg hs arrays = Some (surviving, arrays')
    /\ (forall r, (forall h, h ∈ hs -> contextMessages h <> Some r) ->
          arrays' !! r = arrays !! r)
    /\ (forall h ref arr,
          h ∈ hs -> contextMessages h = Some ref -> arrays !! ref = Some arr ->
          arrays' !! ref = Some (arr ++ [msg])
          /\ (h ∈ surviving <-> length (arr ++ [msg]) < 2 * CONTEXT_CACHE_LINES E))
    /\ surviving `sublist_of` hs.
Proof.
  induction hs as [|h rest IH]; intros arrays Hnd Hall.
  - exists [], arrays. simpl. split; [reflexivity|]. split; [reflexivity|].
    split; [|reflexivity]. intros h ref arr Hin. inversion Hin.
  - simpl in Hnd. apply NoDup_cons in Hnd as [Hfresh Hnd].
    destruct (Hall h) as (ref & arr & Href & Harr); [left|].
    assert (Hother : forall h', h' ∈ rest -> contextMessages h' <> Some ref).
    { intros h' Hin Heq. apply Hfresh. rewrite Href, <- Heq.
      apply list_elem_of_fmap. now exists h'. }
    destruct (IH (<[ref := arr ++ [msg]]> arrays) Hnd)
      as (surv & arrays' & Hrun & Hframe & Heff & Hsub).
    { intros h' Hin. destruct (Hall h') as (ref' & arr' & Href' & Harr'); [now right|].
      exists ref', arr'. split; [assumption|].
      rewrite lookup_insert_ne; [assumption|].
      intros ->. now apply (Hother h'). }
    simpl. rewrite Href. simpl. rewrite Harr. simpl. rewrite Hrun. simpl.
    change (CONTEXT_CACHE_LINES E + (CONTEXT_CACHE_LINES E + 0))
      with (2 * CONTEXT_CACHE_LINES E).
    eexists _, arrays'. split; [reflexivity|].
    assert (Hat : arrays' !! ref = Some (arr ++ [msg])).
    { rewrite Hframe by assumption. apply lookup_insert_eq. }
    assert (Hnotin : h ∉ rest).
    { intros Hin. now apply (Hother h). }
    split; [|split].
    + intros r Hr. rewrite Hframe.
      * apply lookup_insert_ne. intros ->. apply (Hr h); [left | assumption].
      * intros h' Hin. apply Hr. now right.
    + intros h0 ref0 arr0 Hin Href0 Harr0.
      apply elem_of_cons in Hin as [->|Hin].
      * rewrite Href in Href0. injection Href0 as <-.
        rewrite Harr in Harr0. injection Harr0 as <-.
        split; [assumption|].
        destruct (length (arr ++ [msg]) <? 2 * CONTEXT_CACHE_LINES E) eqn:Hk.
        -- apply Nat.ltb_lt in Hk. split; [done | intros _; left].
        -- apply Nat.ltb_ge in Hk. split; [|lia].
           intros Hin. exfalso. apply Hnotin. eapply elem_of_sublist; eassumption.
      * assert (ref0 <> ref) by (intros ->; now apply (Hother h0)).
        destruct (Heff h0 ref0 arr0 Hin Href0) as [Ha Hs].
        { now rewrite lookup_insert_ne. }
        split; [assumption|]. rewrite <- Hs.
        assert (h0 <> h) by (intros ->; contradiction).
        destruct (_ <? _); [|reflexivity].
        rewrite elem_of_cons. intuition.
    + destruct (_ <? _); [now apply sublist_skip | now apply sublist_cons].
Qed.


Lemma sublist_fmap {A B} (f : A -> B) (l1 l2 : list A) :
  l1 `sublist_of` l2 -> (f <$> l1) `sublist_of` (f <$> l2).
Proof.
  induction 1; simpl; [constructor | now apply sublist_skip | now apply sublist_cons].
Qed.

(** What the loop leaves alone, whatever the shape of the contexts. *)
Lemma pushToContexts_frame msg hs : forall arrays surviving arrays',
  pushToContexts E msg hs arrays = Some (surviving, arrays') ->
  surviving `sublist_of` hs
  /\ forall r, (forall h, h ∈ hs -> contextMessages h <> Some r) ->
               arrays' !! r = arrays !! r.
Proof.
  induction hs as [|h rest IH]; intros arrays surviving arrays' Hrun; simpl in Hrun.
  - injection Hrun as <- <-. split; [reflexivity | done].
  - destruct (contextMessages h) as [ref|] eqn:Href; [|discriminate]. simpl in Hrun.
    destruct (arrays !! ref) as [arr|] eqn:Harr; [|discriminate]. simpl in Hrun.
    destruct (pushToContexts E msg rest (<[ref := arr ++ [msg]]> arrays))
      as [[surv arrays1]|] eqn:Hrest; [|discriminate].
    simpl in Hrun. injection Hrun as <- <-.
    destruct (IH _ _ _ Hrest) as [Hsub Hframe]. split.
    + destruct (_ <? _); [now apply sublist_skip | now apply sublist_cons].
    + intros r Hr. rewrite Hframe.
      * apply lookup_insert_ne. intros ->. apply (Hr h); [left | assumption].
      * intros h' Hin. apply Hr. now right.
Qed.

Lemma sameContexts_openOn s s' channel :
  sameContexts s s' -> openOn channel s' = openOn channel s.
Proof. intros (H & _ & _). unfold openOn. now rewrite H. Qed.

Lemma sameContexts_wellFormed s s' :
  sameContexts s s' -> wellFormed E s -> wellFormed E s'.
Proof.
  intros Hsame [A B C]. pose proof Hsame as (H1 & H2 & H3).
  constructor.
  - intros channel h. rewrite (sameContexts_openOn _ _ _ Hsame), H2, H3. apply A.
  - intros channel. rewrite (sameContexts_openOn _ _ _ Hsame). apply B.
  - intros c1 c2 h1 h2. rewrite !(sameContexts_openOn _ _ _ Hsame). apply C.
Qed.

Lemma sameContexts_finalized s s' ref :
  sameContexts s s' -> finalized ref s -> finalized ref s'.
Proof.
  intros Hsame [Hlt Hno]. pose proof Hsame as (H1 & H2 & H3). split.
  - now rewrite H3.
  - intros channel h. rewrite (sameContexts_openOn _ _ _ Hsame). apply Hno.
Qed.

Lemma sameContexts_trans s1 s2 s3 :
  sameContexts s1 s2 -> sameContexts s2 s3 -> sameContexts s1 s3.
Proof. intros (A & B & C) (A' & B' & C'). repeat split; congruence. Qed.

Lemma cacheChannelEvent_sameContexts channel data s :
  sameContexts s (cacheChannelEvent E channel data s).
Proof.
  unfold cacheChannelEvent, storeLine.
  destruct (logLinesDb E);
    [cbn [channelIdCache setChannelCaches];
     destruct (channelIdCache s !! channel)|];
    destruct (io E); repeat split.
Qed.

Lemma cacheUserMessage_sameContexts username msg s :
  sameContexts s (cacheUserMessage E username msg s).
Proof. repeat split. Qed.

Lemma cacheCategoryMessage_sameContexts categoryName msg s :
  categoryName <> "highlights" ->
  sameContexts s (cacheCategoryMessage E categoryName msg s).
Proof.
  intros Hne. unfold cacheCategoryMessage.
  rewrite bool_decide_eq_false_2 by assumption. repeat split.
Qed.

Lemma cacheBunchableChannelEvent_sameContexts channel data s :
  sameContexts s (cacheBunchableChannelEvent E channel data s).
Proof.
  assert (Hreplace : forall bunch,
    sameContexts s
      (let s1 := replaceLastCacheItem E channel bunch
                   (setUuidCount (S (uuidCount s)) s) in
       if io E then emit (IoEmitEventToChannel channel bunch) s1 else s1)).
  { intros bunch. cbv zeta.
    destruct (replaceLastCacheItem_frame E channel bunch
                (setUuidCount (S (uuidCount s)) s)) as (i & d & ->).
    cbn [channelCaches setUuidCount].
    destruct (channelCaches s !! channel) as [cache|];
      [destruct (0 <? length cache)|]; destruct (io E); repeat split. }
  unfold cacheBunchableChannelEvent.
  destruct (last _) as [lastItem|]; [|apply cacheChannelEvent_sameContexts].
  destruct (bool_decide _); [apply Hreplace|].
  destruct (bool_decide _); [apply Hreplace|].
  apply cacheChannelEvent_sameContexts.
Qed.


Lemma addToCurrentHighlightContext_frame channel msg s s' :
  addToCurrentHighlightContext E channel msg s = Some s' ->
  nextArray s' = nextArray s
  /\ (forall c, c <> channel -> openOn c s' = openOn c s)
  /\ openOn channel s' `sublist_of` openOn channel s
  /\ (forall r, (forall h, h ∈ openOn channel s -> contextMessages h <> Some r) ->
                contextArrays s' !! r = contextArrays s !! r)
  /\ channelCaches s' = channelCaches s
  /\ userCaches s' = userCaches s
  /\ categoryCaches s' = categoryCaches s
  /\ uuidCount s' = uuidCount s.
Proof.
  unfold addToCurrentHighlightContext, openOn.
  destruct (currentHighlightContexts s !! channel) as [[|h hs]|] eqn:Hopen;
    try (intros [= <-]; rewrite ?Hopen; repeat split; reflexivity).
  destruct (pushToContexts E msg (h :: hs) (contextArrays s))
    as [[surviving arrays]|] eqn:Hrun; [|discriminate].
  simpl. intros [= <-]. simpl.
  destruct (pushToContexts_frame _ _ _ _ _ Hrun) as [Hsub Hframe].
  repeat split; try assumption.
  - intros c Hc. now rewrite lookup_insert_ne.
  - now rewrite lookup_insert_eq.
Qed.

Lemma addToCurrentHighlightContext_spec channel msg s :
  wellFormed E s ->
  exists s',
    addToCurrentHighlightContext E channel msg s = Some s'
    /\ forall h ref arr,
         h ∈ openOn channel s -> contextMessages h = Some ref ->
         contextArrays s !! ref = Some arr ->
         contextArrays s' !! ref = Some (arr ++ [msg])
         /\ (h ∈ openOn channel s' <->
             length (arr ++ [msg]) < 2 * CONTEXT_CACHE_LINES E).
Proof.
  intros [A B C].
  unfold addToCurrentHighlightContext.
  pose proof (A channel) as A'. pose proof (B channel) as B'.
  unfold openOn in A', B' |- *.
  destruct (currentHighlightContexts s !! channel) as [[|h hs]|] eqn:Hopen;
    simpl in A', B'.
  - exists s. split; [reflexivity|]. rewrite Hopen. simpl.
    intros h ref arr Hin. inversion Hin.
  - destruct (pushToContexts_spec msg (h :: hs) (contextArrays s) B')
      as (surviving & arrays & Hrun & _ & Heff & _).
    { intros h' Hin. destruct (A' h' Hin) as (ref & arr & ? & _ & ? & _). eauto. }
    rewrite Hrun. simpl. eexists. split; [reflexivity|].
    simpl. rewrite lookup_insert_eq. simpl. exact Heff.
  - exists s. split; [reflexivity|]. rewrite Hopen. simpl.
    intros h ref arr Hin. inversion Hin.
Qed.

Lemma addToCurrentHighlightContext_wellFormed channel msg s s' :
  wellFormed E s ->
  addToCurrentHighlightContext E channel msg s = Some s' ->
  wellFormed E s'.
Proof.
  intros Hwf Hrun.
  destruct (addToCurrentHighlightContext_frame _ _ _ _ Hrun)
    as (Hnext & Hother & Hsub & Hframe & _).
  destruct (addToCurrentHighlightContext_spec channel msg s Hwf) as (s'' & Hrun' & Heff).
  rewrite Hrun in Hrun'. injection Hrun' as <-.
  pose proof Hwf as [A B C].
  assert (Hmem : forall c h, h ∈ openOn c s' -> h ∈ openOn c s).
  { intros c h Hin. destruct (decide (c = channel)) as [->|Hc].
    - eapply elem_of_sublist; eassumption.
    - now rewrite <- Hother. }
  constructor.
  - intros c h Hin. destruct (A c h (Hmem _ _ Hin)) as (ref & arr & Href & Hlt & Harr & Hlen).
    destruct (decide (c = channel)) as [->|Hc].
    + destruct (Heff h ref arr (Hmem _ _ Hin) Href Harr) as [Harr' Hkeep].
      exists ref, (arr ++ [msg]). rewrite Hnext. repeat split; try assumption.
      now apply Hkeep.
    + exists ref, arr. rewrite Hnext. repeat split; try assumption.
      rewrite Hframe; [assumption|].
      intros h' Hin' Href'. apply Hc.
      apply (C c channel h h'); [now apply Hmem | assumption | congruence].
  - intros c. destruct (decide (c = channel)) as [->|Hc].
    + eapply sublist_NoDup; [apply B | apply sublist_fmap, Hsub].
    + rewrite Hother by assumption. apply B.
  - intros c1 c2 h1 h2 H1 H2. apply C; now apply Hmem.
Qed.


Lemma cacheCategoryMessage_highlights hm s :
  let s' := cacheCategoryMessage E "highlights" hm s in
  contextArrays s' = contextArrays s
  /\ nextArray s' = nextArray s
  /\ currentHighlightContexts s' =
       (if truthy (lineId hm)
        then <[channel hm := openOn (channel hm) s ++ [hm]]> (currentHighlightContexts s)
        else currentHighlightContexts s).
Proof.
  unfold cacheCategoryMessage, createCurrentHighlightContext.
  rewrite bool_decide_eq_true_2 by reflexivity. cbn [andb].
  destruct (truthy (lineId hm)), (io E); repeat split.
Qed.

Lemma openOn_registered hm s c :
  truthy (lineId hm) = true ->
  openOn c (cacheCategoryMessage E "highlights" hm s) =
  if decide (c = channel hm) then openOn c s ++ [hm] else openOn c s.
Proof.
  intros Ht. destruct (cacheCategoryMessage_highlights hm s) as (_ & _ & H).
  unfold openOn at 1. rewrite H, Ht.
  destruct (decide (c = channel hm)) as [->|Hc].
  - now rewrite lookup_insert_eq.
  - rewrite lookup_insert_ne by congruence. reflexivity.
Qed.

Lemma registered_wellFormed hm ref arr s :
  wellFormed E s ->
  contextMessages hm = Some ref ->
  ref < nextArray s ->
  contextArrays s !! ref = Some arr ->
  length arr < 2 * CONTEXT_CACHE_LINES E ->
  (forall c h, h ∈ openOn c s -> contextMessages h <> Some ref) ->
  wellFormed E (cacheCategoryMessage E "highlights" hm s).
Proof.
  intros Hwf Href Hlt Harr Hlen Hfresh.
  destruct (cacheCategoryMessage_highlights hm s) as (Ha & Hn & Hc).
  destruct (truthy (lineId hm)) eqn:Ht.
  2: { apply (sameContexts_wellFormed s); [repeat split; assumption | assumption]. }
  pose proof Hwf as [A B C].
  assert (Hmem : forall c h, h ∈ openOn c (cacheCategoryMessage E "highlights" hm s) ->
                             h ∈ openOn c s \/ (h = hm /\ c = channel hm)).
  { intros c h. rewrite openOn_registered by assumption.
    destruct (decide (c = channel hm)) as [->|]; [|now left].
    rewrite elem_of_app, list_elem_of_singleton. intuition. }
  constructor.
  - intros c h Hin. rewrite Ha, Hn.
    destruct (Hmem c h Hin) as [Hold|[-> ->]]; [now apply (A c)|].
    exists ref, arr. repeat split; assumption.
  - intros c. rewrite openOn_registered by assumption.
    destruct (decide (c = channel hm)) as [->|]; [|apply B].
    rewrite fmap_app. apply NoDup_app. split; [apply B|]. split.
    + intros x Hx Hx'. apply list_elem_of_singleton in Hx'. subst x.
      apply list_elem_of_fmap in Hx as (h & Heq & Hin).
      apply (Hfresh _ _ Hin). congruence.
    + apply NoDup_singleton.
  - intros c1 c2 h1 h2 H1 H2 Heq.
    destruct (Hmem _ _ H1) as [O1|[-> ->]], (Hmem _ _ H2) as [O2|[-> ->]].
    + now apply (C c1 c2 h1 h2).
    + exfalso. apply (Hfresh _ _ O1). congruence.
    + exfalso. apply (Hfresh _ _ O2). congruence.
    + reflexivity.
Qed.

(** The state [cacheMessage] works on once the context array of a
    highlight has been sliced off the channel cache. *)
Lemma allocated_wellFormed (hl : bool) arr s :
  wellFormed E s ->
  let s2 := if hl
            then setContextArrays (<[nextArray s := arr]> (contextArrays s))
                                  (S (nextArray s)) s
            else s in
  wellFormed E s2
  /\ (forall c, openOn c s2 = openOn c s)
  /\ nextArray s <= nextArray s2
  /\ (forall r, r < nextArray s -> contextArrays s2 !! r = contextArrays s !! r)
  /\ (hl = true -> contextArrays s2 !! nextArray s = Some arr
                   /\ nextArray s2 = S (nextArray s)).
Proof.
  intros Hwf. destruct hl; cbv zeta.
  - pose proof Hwf as [A B C]. split; [constructor|]; simpl.
    + intros c h Hin. destruct (A c h Hin) as (ref & arr' & ? & ? & ? & ?).
      exists ref, arr'. repeat split; try assumption; [lia|].
      rewrite lookup_insert_ne by lia. assumption.
    + apply B.
    + apply C.
    + repeat split; try done; try lia.
      * intros r Hr. apply lookup_insert_ne. lia.
      * apply lookup_insert_eq.
  - split; [assumption|]. split; [reflexivity|]. split; [lia|].
    split; [reflexivity | discriminate].
Qed.


Lemma stored_uuid key s n : stored key (setUuidCount n s) = stored key s.
Proof. now destruct key. Qed.

Lemma cacheMessage_spec a s :
  0 < CONTEXT_CACHE_LINES E ->
  wellFormed E s ->
  let msg := messageOf E a s in
  let N := CONTEXT_CACHE_LINES E in
  exists s',
    cacheMessageWith E a s = Some s'
    /\ wellFormed E s'
    /\ nextArray s <= nextArray s'
    /\ (forall h ref arr,
          h ∈ openOn (channelUri a) s -> contextMessages h = Some ref ->
          contextArrays s !! ref = Some arr ->
          contextArrays s' !! ref = Some (arr ++ [msg])
          /\ (length (arr ++ [msg]) < 2 * N -> h ∈ openOn (channelUri a) s')
          /\ (2 * N <= length (arr ++ [msg]) -> finalized ref s'))
    /\ (highlightStrings a <> [] ->
          contextArrays s' !! nextArray s =
            Some (sliceLast N (stored (ChannelKey (channelUri a)) s))
          /\ (truthy (lineId msg) = true ->
              withContextMessages (nextArray s) msg ∈ openOn (channel msg) s')).
Proof.
  intros HN Hwf msg N. pose proof Hwf as [A B C].
  unfold cacheMessageWith, cacheMessage.
  change (newMessage E _ _ _ _ _ _ _ _ _ _ _ s) with msg.
  set (hl := 0 <? length (highlightStrings a)).
  set (s1 := setUuidCount (S (uuidCount s)) s).
  assert (Hwf1 : wellFormed E s1) by (apply (sameContexts_wellFormed s); [repeat split | assumption]).
  change (nextArray s1) with (nextArray s).
  change (contextArrays s1) with (contextArrays s).
  change (channelCaches s1 !! channelUri a) with (channelCaches s !! channelUri a).
  set (arr0 := sliceLast (CONTEXT_CACHE_LINES E) (default [] (channelCaches s !! channelUri a))).
  destruct (allocated_wellFormed hl arr0 s1 Hwf1) as (Hwf2 & Hopen2' & Hnext2 & Hold2 & Hnew2).
  assert (Hopen2 : forall c, openOn c (if hl then setContextArrays (<[nextArray s1 := arr0]> (contextArrays s1)) (S (nextArray s1)) s1 else s1) = openOn c s)
    by (intros c; rewrite Hopen2'; reflexivity).
  clear Hopen2'.
  change (nextArray s1) with (nextArray s) in *.
  change (contextArrays s1) with (contextArrays s) in *.
  set (s2 := if hl then _ else s1) in *.
  set (s3 := cacheChannelEvent E (channelUri a) msg s2).
  pose proof (cacheChannelEvent_sameContexts (channelUri a) msg s2) as Hsame3.
  fold s3 in Hsame3.
  pose proof (sameContexts_wellFormed _ _ Hsame3 Hwf2) as Hwf3.
  destruct (addToCurrentHighlightContext_spec (channelUri a) msg s3 Hwf3)
    as (s4 & Hrun4 & Heff4).
  pose proof (addToCurrentHighlightContext_wellFormed _ _ _ _ Hwf3 Hrun4) as Hwf4.
  destruct (addToCurrentHighlightContext_frame _ _ _ _ Hrun4)
    as (Hnext4 & Hother4 & Hsub4 & Hframe4 & _).
  rewrite Hrun4. cbn [mbind option_bind].
  set (s5 := if RELATIONSHIP_FRIEND E <=? withRelationship a then _ else s4).
  assert (Hsame5 : sameContexts s4 s5).
  { subst s5. destruct (_ <=? _); [|repeat split].
    eapply sameContexts_trans; [apply cacheUserMessage_sameContexts|].
    apply cacheCategoryMessage_sameContexts. discriminate. }
  pose proof (sameContexts_wellFormed _ _ Hsame5 Hwf4) as Hwf5.
  pose proof Hsame3 as (Hc3 & Ha3 & Hn3).
  pose proof Hsame5 as (Hc5 & Ha5 & Hn5).
  (* every highlight open before the call keeps an array below the new one *)
  assert (Hbelow : forall c h, h ∈ openOn c s5 -> exists ref,
             contextMessages h = Some ref /\ ref < nextArray s /\ h ∈ openOn c s).
  { intros c h. rewrite (sameContexts_openOn _ _ _ Hsame5). intros Hin.
    assert (Hin3 : h ∈ openOn c s3).
    { destruct (decide (c = channelUri a)) as [->|Hc];
        [eapply elem_of_sublist; eassumption | now rewrite <- Hother4]. }
    rewrite (sameContexts_openOn _ _ _ Hsame3), Hopen2 in Hin3.
    destruct (A c h Hin3) as (ref & ? & ? & ? & _).
    exists ref. repeat split; assumption. }
  assert (Harr5 : forall r, contextArrays s5 !! r = contextArrays s4 !! r)
    by (intros r; now rewrite Ha5).
  eexists. split; [reflexivity|].
  (* the growth of the contexts that were open *)
  assert (Hgrow : forall h ref arr,
            h ∈ openOn (channelUri a) s -> contextMessages h = Some ref ->
            contextArrays s !! ref = Some arr ->
            ref < nextArray s
            /\ contextArrays s5 !! ref = Some (arr ++ [msg])
            /\ (h ∈ openOn (channelUri a) s5 <-> length (arr ++ [msg]) < 2 * N)).
  { intros h ref arr Hin Href Harr.
    assert (ref < nextArray s) as Hlt.
    { destruct (A _ h Hin) as (ref' & ? & ? & ? & _).
      assert (ref' = ref) by congruence. now subst. }
    split; [assumption|].
    rewrite Harr5, (sameContexts_openOn _ _ _ Hsame5).
    apply Heff4.
    - now rewrite (sameContexts_openOn _ _ _ Hsame3), Hopen2.
    - assumption.
    - rewrite Ha3, Hold2 by assumption. assumption. }
  destruct hl eqn:Hhl.
  - (* a highlight: its context is registered last *)
    destruct (Hnew2 eq_refl) as [Hat2 Hn2].
    assert (Hat5 : contextArrays s5 !! nextArray s = Some arr0).
    { rewrite Harr5, Hframe4, Ha3; [assumption|].
      intros h Hin Href.
      rewrite (sameContexts_openOn _ _ _ Hsame3), Hopen2 in Hin.
      destruct (A _ h Hin) as (ref' & ? & ? & ? & _).
      assert (ref' = nextArray s) by congruence. lia. }
    assert (Hlen0 : length arr0 < 2 * N).
    { subst arr0. rewrite sliceLast_length. subst N. lia. }
    assert (Hfresh : forall c h, h ∈ openOn c s5 ->
                                 contextMessages h <> Some (nextArray s)).
    { intros c h Hin Href. destruct (Hbelow c h Hin) as (ref & ? & ? & _).
      assert (ref = nextArray s) by congruence. lia. }
    destruct (cacheCategoryMessage_highlights (withContextMessages (nextArray s) msg) s5)
      as (Ha6 & Hn6 & Hc6).
    split; [|split; [|split]].
    + eapply registered_wellFormed; try eassumption; [reflexivity|].
      rewrite Hn5, Hnext4, Hn3, Hn2. lia.
    + rewrite Hn6, Hn5, Hnext4, Hn3. assumption.
    + intros h ref arr Hin Href Harr.
      destruct (Hgrow h ref arr Hin Href Harr) as (Hlt & Hat & Hkeep).
      rewrite Ha6. split; [assumption|]. split.
      * intros Hshort. apply Hkeep in Hshort.
        destruct (truthy (lineId (withContextMessages (nextArray s) msg))) eqn:Ht.
        -- rewrite openOn_registered by assumption.
           destruct (decide _); [apply elem_of_app; now left | assumption].
        -- unfold openOn in Hshort |- *. now rewrite Hc6, ?Ht.
      * intros Hfull. split; [rewrite Hn6, Hn5, Hnext4, Hn3; lia|].
        intros c h' Hin' Href'.
        assert (Hin5 : h' ∈ openOn c s5).
        { destruct (truthy (lineId (withContextMessages (nextArray s) msg))) eqn:Ht.
          - rewrite openOn_registered in Hin' by assumption.
            destruct (decide _); [|assumption].
            apply elem_of_app in Hin' as [?|Hnew]; [assumption|].
            apply list_elem_of_singleton in Hnew. subst h'.
            simpl in Href'. injection Href' as <-. lia.
          - unfold openOn in Hin' |- *. now rewrite Hc6, ?Ht in Hin'. }
        destruct (Hbelow c h' Hin5) as (ref' & Href'' & _ & Hin0).
        assert (c = channelUri a) as ->.
        { apply (C c (channelUri a) h' h); [assumption..|congruence]. }
        destruct (Hgrow h' ref arr Hin0 Href' Harr) as (_ & _ & Hkeep').
        apply Hkeep' in Hin5. lia.
    + intros _. rewrite Ha6. split.
      * rewrite Hat5. subst arr0. simpl. reflexivity.
      * intros Ht. rewrite openOn_registered by exact Ht.
        rewrite decide_True by reflexivity. apply elem_of_app. right.
        now apply list_elem_of_singleton.
  - (* no highlight *)
    split; [assumption|]. split; [rewrite Hn5, Hnext4, Hn3; assumption|]. split.
    + intros h ref arr Hin Href Harr.
      destruct (Hgrow h ref arr Hin Href Harr) as (Hlt & Hat & Hkeep).
      split; [assumption|]. split; [apply Hkeep|].
      intros Hfull. split; [rewrite Hn5, Hnext4, Hn3; lia|].
      intros c h' Hin5 Href'.
      destruct (Hbelow c h' Hin5) as (ref' & Href'' & _ & Hin0).
      assert (c = channelUri a) as ->.
      { apply (C c (channelUri a) h' h); [assumption..|congruence]. }
      destruct (Hgrow h' ref arr Hin0 Href' Harr) as (_ & _ & Hkeep').
      apply Hkeep' in Hin5. lia.
    + intros Hne. exfalso. subst hl. apply Nat.ltb_ge in Hhl.
      destruct (highlightStrings a); [congruence | simpl in Hhl; lia].
Qed.


(** Where [cacheMessage] files the message. *)
Lemma cacheMessage_caches a s s' :
  cacheMessageWith E a s = Some s' ->
  let msg := messageOf E a s in
  channelCaches s' =
    <[channelUri a := cacheItem E (stored (ChannelKey (channelUri a)) s) msg]>
      (channelCaches s)
  /\ (withRelationship a < RELATIONSHIP_FRIEND E ->
      userCaches s' = userCaches s
      /\ categoryCaches s' !! "allfriends" = categoryCaches s !! "allfriends").
Proof.
  unfold cacheMessageWith, cacheMessage.
  change (newMessage E _ _ _ _ _ _ _ _ _ _ _ s) with (messageOf E a s).
  set (msg := messageOf E a s).
  set (hl := 0 <? length (highlightStrings a)).
  set (s2 := if hl then _ else _).
  assert (H2 : channelCaches s2 = channelCaches s /\ userCaches s2 = userCaches s
               /\ categoryCaches s2 = categoryCaches s)
    by (subst s2; destruct hl; repeat split).
  destruct H2 as (Hc2 & Hu2 & Hg2).
  destruct (cacheChannelEvent_caches E (channelUri a) msg s2) as (Hc3 & Hu3 & Hg3).
  set (s3 := cacheChannelEvent E (channelUri a) msg s2) in *.
  destruct (addToCurrentHighlightContext E (channelUri a) msg s3) as [s4|] eqn:Hrun4;
    [|discriminate].
  destruct (addToCurrentHighlightContext_frame _ _ _ _ Hrun4)
    as (_ & _ & _ & _ & Hc4 & Hu4 & Hg4 & _).
  cbn [mbind option_bind]. intros [= <-]. cbv zeta. split.
  - assert (Hc5 : forall s5, channelCaches
               (if hl then cacheCategoryMessage E "highlights"
                            (withContextMessages (nextArray s) msg) s5 else s5)
             = channelCaches s5).
    { intros s5. destruct hl; [|reflexivity].
      now destruct (cacheCategoryMessage_caches E "highlights"
                      (withContextMessages (nextArray s) msg) s5) as (-> & _). }
    rewrite Hc5. destruct (_ <=? _).
    + destruct (cacheCategoryMessage_caches E "allfriends" msg
                  (cacheUserMessage E (fromUsername a) msg s4)) as (-> & _).
      destruct (cacheUserMessage_caches E (fromUsername a) msg s4) as (-> & _).
      rewrite Hc4, Hc3, Hc2. reflexivity.
    + rewrite Hc4, Hc3, Hc2. reflexivity.
  - intros Hrel. apply Nat.leb_gt in Hrel. rewrite Hrel.
    destruct hl.
    + destruct (cacheCategoryMessage_caches E "highlights"
                  (withContextMessages (nextArray s) msg) s4) as (_ & -> & ->).
      rewrite lookup_insert_ne by discriminate.
      rewrite Hu4, Hg4, Hu3, Hg3, Hu2, Hg2. split; reflexivity.
    + rewrite Hu4, Hg4, Hu3, Hg3, Hu2, Hg2. split; reflexivity.
Qed.

(** A finalized context array is out of reach of [cacheMessage]. *)
Lemma cacheMessage_finalized a s s' ref :
  cacheMessageWith E a s = Some s' ->
  finalized ref s ->
  finalized ref s' /\ contextArrays s' !! ref = contextArrays s !! ref.
Proof.
  unfold cacheMessageWith, cacheMessage.
  change (newMessage E _ _ _ _ _ _ _ _ _ _ _ s) with (messageOf E a s).
  set (msg := messageOf E a s).
  set (hl := 0 <? length (highlightStrings a)).
  set (s2 := if hl then _ else _).
  intros Hrun [Hlt Hno].
  assert (H2 : (forall c, openOn c s2 = openOn c s)
               /\ contextArrays s2 !! ref = contextArrays s !! ref
               /\ nextArray s <= nextArray s2).
  { subst s2. destruct hl; simpl; repeat split; try lia.
    apply lookup_insert_ne. lia. }
  destruct H2 as (Ho2 & Ha2 & Hn2).
  pose proof (cacheChannelEvent_sameContexts (channelUri a) msg s2) as Hsame3.
  set (s3 := cacheChannelEvent E (channelUri a) msg s2) in *.
  destruct (addToCurrentHighlightContext E (channelUri a) msg s3) as [s4|] eqn:Hrun4;
    [|discriminate].
  destruct (addToCurrentHighlightContext_frame _ _ _ _ Hrun4)
    as (Hn4 & Hother4 & Hsub4 & Hframe4 & _).
  cbn [mbind option_bind] in Hrun. injection Hrun as <-.
  set (s5 := if RELATIONSHIP_FRIEND E <=? withRelationship a then _ else s4).
  assert (Hsame5 : sameContexts s4 s5).
  { subst s5. destruct (_ <=? _); [|repeat split].
    eapply sameContexts_trans; [apply cacheUserMessage_sameContexts|].
    apply cacheCategoryMessage_sameContexts. discriminate. }
  pose proof Hsame3 as (Hc3 & Ha3 & Hn3).
  pose proof Hsame5 as (Hc5 & Ha5 & Hn5).
  assert (Hin5 : forall c h, h ∈ openOn c s5 -> h ∈ openOn c s).
  { intros c h. rewrite (sameContexts_openOn _ _ _ Hsame5). intros Hin.
    rewrite <- Ho2, <- (sameContexts_openOn _ _ _ Hsame3).
    destruct (decide (c = channelUri a)) as [->|Hc];
      [eapply elem_of_sublist; eassumption | now rewrite <- Hother4]. }
  assert (Hat5 : contextArrays s5 !! ref = contextArrays s !! ref).
  { rewrite Ha5, Hframe4, Ha3; [assumption|].
    intros h Hin. apply (Hno (channelUri a)).
    now rewrite <- Ho2, <- (sameContexts_openOn _ _ _ Hsame3). }
  assert (Hlt5 : ref < nextArray s5) by (rewrite Hn5, Hn4, Hn3; lia).
  destruct hl; [|split; [split|]; try assumption; intros c h Hin; eauto].
  destruct (cacheCategoryMessage_highlights (withContextMessages (nextArray s) msg) s5)
    as (Ha6 & Hn6 & Hc6).
  rewrite Ha6. split; [split|]; [now rewrite Hn6 | | assumption].
  intros c h Hin.
  destruct (truthy (lineId (withContextMessages (nextArray s) msg))) eqn:Ht.
  - rewrite openOn_registered in Hin by assumption.
    destruct (decide _); [|eauto].
    apply elem_of_app in Hin as [?|Hnew]; [eauto|].
    apply list_elem_of_singleton in Hnew. subst h. simpl. intros [= <-]. lia.
  - unfold openOn in Hin. rewrite Hc6, ?Ht in Hin. eauto.
Qed.

Lemma step_sameContexts c s s' :
  (forall a, c <> CacheMessage a) ->
  feedsOtherCategory c ->
  step E s c = Some s' ->
  sameContexts s s'.
Proof.
  intros Hnot Hfeeds Hstep.
  destruct c as [a|channel data|channel data|username msg|cat msg];
    cbn [step] in Hstep.
  - now destruct (Hnot a).
  - injection Hstep as <-. apply cacheChannelEvent_sameContexts.
  - injection Hstep as <-. apply cacheBunchableChannelEvent_sameContexts.
  - injection Hstep as <-. apply cacheUserMessage_sameContexts.
  - injection Hstep as <-. now apply cacheCategoryMessage_sameContexts.
Qed.

Lemma step_total c s :
  0 < CONTEXT_CACHE_LINES E ->
  wellFormed E s ->
  feedsOtherCategory c ->
  exists s', step E s c = Some s' /\ wellFormed E s'.
Proof.
  intros HN Hwf Hfeeds.
  destruct c as [a|channel data|channel data|username msg|cat msg].
  - destruct (cacheMessage_spec a s HN Hwf) as (s' & Hrun & Hwf' & _).
    exists s'. now split.
  - eexists. split; [reflexivity|].
    eapply sameContexts_wellFormed; [apply cacheChannelEvent_sameContexts | assumption].
  - eexists. split; [reflexivity|].
    eapply sameContexts_wellFormed;
      [apply cacheBunchableChannelEvent_sameContexts | assumption].
  - eexists. split; [reflexivity|].
    eapply sameContexts_wellFormed; [apply cacheUserMessage_sameContexts | assumption].
  - eexists. split; [reflexivity|].
    eapply sameContexts_wellFormed;
      [now apply cacheCategoryMessage_sameContexts | assumption].
Qed.

Lemma step_finalized c s s' ref :
  feedsOtherCategory c ->
  step E s c = Some s' ->
  finalized ref s ->
  finalized ref s' /\ contextArrays s' !! ref = contextArrays s !! ref.
Proof.
  intros Hfeeds Hstep Hfin.
  destruct c as [a|channel data|channel data|username msg|cat msg];
    [now apply (cacheMessage_finalized a s)|..];
    (assert (Hsame : sameContexts s s')
       by (match goal with
           | H : step E s ?c = Some _ |- _ =>
               apply (step_sameContexts c s s'); [discriminate | assumption..]
           end));
    (split; [now apply (sameContexts_finalized s) | now destruct Hsame as (_ & -> & _)]).
Qed.

Lemma steps_finalized calls : forall s ref,
  0 < CONTEXT_CACHE_LINES E ->
  wellFormed E s ->
  Forall (feedsOtherCategory) calls ->
  finalized ref s ->
  exists s',
    steps E s calls = Some s'
    /\ wellFormed E s'
    /\ finalized ref s'
    /\ contextArrays s' !! ref = contextArrays s !! ref.
Proof.
  induction calls as [|c calls IH]; intros s ref HN Hwf Hall Hfin.
  - exists s. split; [reflexivity|]. split; [assumption|].
    split; [assumption | reflexivity].
  - apply Forall_cons in Hall as [Hc Hall].
    destruct (step_total c s HN Hwf Hc) as (s1 & Hstep & Hwf1).
    destruct (step_finalized c s s1 ref Hc Hstep Hfin) as [Hfin1 Harr1].
    destruct (IH s1 ref HN Hwf1 Hall Hfin1) as (s' & Hrun & Hwf' & Hfin' & Harr').
    exists s'. cbn [steps]. rewrite Hstep. cbn [mbind option_bind].
    split; [assumption|]. split; [assumption|].
    split; [assumption | congruence].
Qed.


(** Every run of calls returns and keeps the contexts well formed. *)
Lemma steps_wellFormed calls : forall s,
  0 < CONTEXT_CACHE_LINES E ->
  wellFormed E s ->
  Forall (feedsOtherCategory) calls ->
  exists s', steps E s calls = Some s' /\ wellFormed E s'.
Proof.
  induction calls as [|c calls IH]; intros s HN Hwf Hall.
  - exists s. now split.
  - apply Forall_cons in Hall as [Hc Hall].
    destruct (step_total c s HN Hwf Hc) as (s1 & Hstep & Hwf1).
    destruct (IH s1 HN Hwf1 Hall) as (s' & Hrun & Hwf').
    exists s'. cbn [steps]. rewrite Hstep. now split.
Qed.

Lemma wellFormed_initial : wellFormed E initial.
Proof.
  constructor.
  - intros channel h Hin. inversion Hin.
  - intros channel. apply NoDup_nil_2.
  - intros c1 c2 h1 h2 Hin. inversion Hin.
Qed.

(** The states the module reaches from its start are well formed. *)
Lemma reachable_wellFormed calls :
  0 < CONTEXT_CACHE_LINES E ->
  Forall (feedsOtherCategory) calls ->
  exists s, steps E initial calls = Some s /\ wellFormed E s.
Proof. intros HN Hall. apply steps_wellFormed; [assumption | apply wellFormed_initial | assumption]. Qed.

End Contexts.

(** C5, as the code has it.  On a well-formed state every [cacheMessage]
    call returns, and: (opening) a highlighted message with an id opens a
    context that holds exactly the last [CONTEXT_CACHE_LINES] entries the
    channel cache had before the message, or all of them if there were
    fewer, and not the message itself, which goes to the channel cache;
    (growth) the message of every [cacheMessage] call on the channel is
    pushed onto each context open there, which never gets longer than
    twice [CONTEXT_CACHE_LINES], stays open below that length and is
    finalized on reaching it; (finalization) a finalized context is never
    changed again, whatever the module is called with afterwards;
    (others) the other caching functions, which put join, part and other
    event lines in the channel cache, leave every context as it is. *)
Theorem highlight_context_lifecycle
    (E : environment) (s : state) (a : messageArgs) :
  0 < CONTEXT_CACHE_LINES E ->
  wellFormed E s ->
  let N := CONTEXT_CACHE_LINES E in
  let msg := messageOf E a s in
  let before := stored (ChannelKey (channelUri a)) s in
  exists s',
    cacheMessageWith E a s = Some s'
    /\ wellFormed E s'
    /\ stored (ChannelKey (channelUri a)) s' = cacheItem E before msg
    /\ (highlightStrings a <> [] -> truthy (lineId msg) = true ->
          withContextMessages (nextArray s) msg ∈ openOn (channel msg) s'
          /\ contextArrays s' !! nextArray s = Some (sliceLast N before)
          /\ length (sliceLast N before) = min N (length before))
    /\ (forall h ref arr,
          h ∈ openOn (channelUri a) s -> contextMessages h = Some ref ->
          contextArrays s !! ref = Some arr ->
          contextArrays s' !! ref = Some (arr ++ [msg])
          /\ length (arr ++ [msg]) <= 2 * N
          /\ (length (arr ++ [msg]) < 2 * N -> h ∈ openOn (channelUri a) s')
          /\ (length (arr ++ [msg]) = 2 * N -> finalized ref s'))
    /\ (forall ref calls,
          finalized ref s' -> Forall (feedsOtherCategory) calls ->
          exists s'',
            steps E s' calls = Some s''
            /\ wellFormed E s''
            /\ finalized ref s''
            /\ contextArrays s'' !! ref = contextArrays s' !! ref)
    /\ (forall c s'',
          (forall a', c <> CacheMessage a') -> feedsOtherCategory c ->
          step E s' c = Some s'' -> sameContexts s' s'').
Proof.
  intros HN Hwf N msg before. subst N msg before.
  destruct (cacheMessage_spec E a s HN Hwf) as (s' & Hrun & Hwf' & _ & Hgrow & Hopen).
  destruct (cacheMessage_caches E a s s' Hrun) as [Hcache _].
  exists s'. split; [assumption|]. split; [assumption|].
  split; [|split; [|split; [|split]]];
    [| | | |intros c s'' Hc Hfeeds Hstep; now apply (step_sameContexts E c)].
  - simpl. rewrite Hcache, lookup_insert_eq. reflexivity.
  - intros Hhl Ht. destruct (Hopen Hhl) as [Hat Hreg].
    split; [now apply Hreg|]. split; [assumption|]. apply sliceLast_length.
  - intros h ref arr Hin Href Harr.
    destruct (Hgrow h ref arr Hin Href Harr) as (Hat & Hkeep & Hfin).
    split; [assumption|].
    assert (length arr < 2 * CONTEXT_CACHE_LINES E).
    { destruct Hwf as [A _ _]. destruct (A _ h Hin) as (ref' & arr' & ? & _ & ? & ?).
      assert (arr' = arr) by congruence. now subst. }
    split; [rewrite length_app; simpl; lia|]. split; [assumption|].
    intros Hfull. apply Hfin. lia.
  - intros ref calls Hfin Hcalls. now apply steps_finalized.
Qed.

Lemma highlight_context_lifecycle_witness :
  exists s1 s2,
    cacheMessageWith sampleEnvironment sampleHighlight initial = Some s1
    /\ cacheMessageWith sampleEnvironment samplePlain s1 = Some s2
    /\ contextArrays s1 !! 0 = Some []
    /\ contextArrays s2 !! 0 = Some [messageOf sampleEnvironment samplePlain s1].
Proof.
  destruct (highlight_context_lifecycle sampleEnvironment initial sampleHighlight)
    as (s1 & Hrun1 & Hwf1 & _ & Hopen1 & _ & _ & _).
  - simpl; lia.
  - apply wellFormed_initial.
  - destruct Hopen1 as (Hin1 & Hat1 & _); [discriminate | reflexivity |].
    destruct (highlight_context_lifecycle sampleEnvironment s1 samplePlain)
      as (s2 & Hrun2 & _ & _ & _ & Hgrow2 & _ & _).
    + simpl; lia.
    + exact Hwf1.
    + exists s1, s2. split; [assumption|]. split; [assumption|].
      split; [exact Hat1|].
      exact (proj1 (Hgrow2 _ 0 [] Hin1 eq_refl Hat1)).
Defined.

(** C5, as the specification has it, fails: a join line cached on the
    channel while a context is open there is stored at the tail of the
    channel cache and leaves the open context empty. *)
Lemma event_not_added_to_open_context :
  exists s1 h ref arr,
    cacheMessageWith sampleEnvironment sampleHighlight initial = Some s1
    /\ h ∈ openOn "alpha/x" s1
    /\ contextMessages h = Some ref
    /\ let s2 := cacheBunchableChannelEvent sampleEnvironment "alpha/x" sampleJoin s1 in
       tailOf "alpha/x" s2 = Some sampleJoin
       /\ h ∈ openOn "alpha/x" s2
       /\ contextArrays s2 !! ref = Some arr
       /\ sampleJoin ∉ arr.
Proof.
  eexists _, _, 0, [].
  split; [vm_compute; reflexivity|].
  split; [vm_compute; apply list_elem_of_here|].
  split; [reflexivity|].
  cbv zeta.
  split; [vm_compute; reflexivity|].
  split; [vm_compute; apply list_elem_of_here|].
  split; [vm_compute; reflexivity|].
  apply not_elem_of_nil.
Qed.

End CacheFacts.

(** ** The connection module *)

Module IrcFacts.
Import Irc.

Lemma scanChannels_spec chs : forall namesSeen multi,
  exists multi',
    scanChannels chs namesSeen multi = (namesSeen ++ chs, multi')
    /\ forall x, x ∈ multi' <->
         x ∈ multi \/ exists pre post, chs = pre ++ x :: post /\ x ∈ namesSeen ++ pre.
Proof.
  induction chs as [|ch rest IH]; intros namesSeen multi; simpl.
  - exists multi. rewrite app_nil_r. split; [reflexivity|].
    intros x. split; [now left|]. intros [?|(pre & post & Heq & _)]; [assumption|].
    now destruct pre.
  - destruct (IH (namesSeen ++ [ch])
                (if bool_decide (ch ∈ namesSeen) then multi ++ [ch] else multi))
      as (multi' & -> & Hspec).
    exists multi'. rewrite <- app_assoc. split; [reflexivity|].
    intros x. rewrite Hspec. split.
    + intros [Hin|(pre & post & -> & Hin)].
      * case_bool_decide as Hseen; [|now left].
        apply elem_of_app in Hin as [?|Hin]; [now left|].
        apply list_elem_of_singleton in Hin. subst x. right.
        exists [], rest. now rewrite app_nil_r.
      * right. exists (ch :: pre), post. split; [reflexivity|].
        now rewrite <- app_assoc in Hin.
    + intros [Hin|(pre & post & Heq & Hin)].
      * left. case_bool_decide; [apply elem_of_app; now left | assumption].
      * destruct pre as [|p pre]; simpl in Heq; injection Heq as <- ->.
        -- rewrite app_nil_r in Hin. left. rewrite bool_decide_eq_true_2 by assumption.
           apply elem_of_app. right. now apply list_elem_of_singleton.
        -- right. exists pre, post. split; [reflexivity|].
           now rewrite <- app_assoc.
Qed.

Lemma scanChannels_app chs1 chs2 namesSeen multi :
  scanChannels (chs1 ++ chs2) namesSeen multi =
  let '(namesSeen', multi') := scanChannels chs1 namesSeen multi in
  scanChannels chs2 namesSeen' multi'.
Proof.
  revert namesSeen multi. induction chs1 as [|ch rest IH]; intros; simpl; [reflexivity|].
  apply IH.
Qed.

Lemma scanClients_flat cs : forall namesSeen multi,
  scanClients cs namesSeen multi =
  scanChannels (flat_map channels cs) namesSeen multi.
Proof.
  induction cs as [|c rest IH]; intros; simpl; [reflexivity|].
  rewrite scanChannels_app. destruct (scanChannels (channels c) namesSeen multi).
  apply IH.
Qed.

Lemma calibrate_repeated ch s :
  ch ∈ multiServerChannels (calibrateMultiServerChannels s)
  <-> repeated ch (flat_map channels (clients s)).
Proof.
  unfold calibrateMultiServerChannels. simpl. rewrite scanClients_flat.
  destruct (scanChannels_spec (flat_map channels (clients s)) [] [])
    as (multi' & -> & Hspec).
  simpl. rewrite Hspec. unfold repeated. split.
  - intros [Hin|?]; [inversion Hin | assumption].
  - intros ?. now right.
Qed.

Lemma activePairs_channels s :
  (snd <$> activePairs s) = flat_map channels (clients s).
Proof.
  unfold activePairs. induction (clients s) as [|c rest IH]; simpl; [reflexivity|].
  rewrite fmap_app, IH. f_equal.
  rewrite <- list_fmap_compose. apply list_fmap_id.
Qed.

Lemma repeated_pairs ch (pairs : list (option string * string)) :
  NoDup pairs ->
  repeated ch (snd <$> pairs) <->
  exists sv1 sv2, sv1 <> sv2 /\ (sv1, ch) ∈ pairs /\ (sv2, ch) ∈ pairs.
Proof.
  intros Hnd. split.
  - intros (pre & post & Heq & Hin).
    apply fmap_app_inv in Heq as (P1 & P2' & -> & Hpost & ->).
    destruct P2' as [|[sv2 ch'] P2]; simpl in Hpost; [discriminate|].
    injection Hpost as -> ->.
    apply list_elem_of_fmap in Hin as ([sv1 ch1] & Heq & Hin). simpl in Heq. subst ch1.
    exists sv1, sv2. split; [|split].
    + intros ->. apply NoDup_app in Hnd as (_ & Hdisj & _).
      apply (Hdisj _ Hin). left.
    + apply elem_of_app. now left.
    + apply elem_of_app. right. left.
  - intros (sv1 & sv2 & Hne & H1 & H2).
    apply list_elem_of_split in H1 as (A & B & ->).
    apply elem_of_app in H2 as [H2|H2].
    + exists (snd <$> A), (snd <$> B). split; [now rewrite fmap_app|].
      apply list_elem_of_fmap. now exists (sv2, ch).
    + apply elem_of_cons in H2 as [H2|H2]; [congruence|].
      apply list_elem_of_split in H2 as (B1 & B2 & ->).
      exists (snd <$> (A ++ (sv1, ch) :: B1)), (snd <$> B2). split.
      * rewrite !fmap_app, !fmap_cons, fmap_app, <- app_assoc. reflexivity.
      * apply list_elem_of_fmap. exists (sv1, ch). split; [reflexivity|].
        apply elem_of_app. right. left.
Qed.


(** C7.  After recalibration over an active set of (server, channel)
    pairs, a channel name is marked as a multi-server channel exactly when
    it is paired with two different servers; a name that belongs to one
    server only is never marked; and the full name of a channel is the
    bare channel name when it is not marked and the server name, a space
    and the channel name when it is. *)
Theorem ambiguous_iff_on_two_servers (s : state) (ch : string) :
  NoDup (activePairs s) ->
  let s' := calibrateMultiServerChannels s in
  (isMultiServerChannel ch s' = true <->
     exists sv1 sv2,
       sv1 <> sv2 /\ (sv1, ch) ∈ activePairs s /\ (sv2, ch) ∈ activePairs s)
  /\ ((forall sv1 sv2,
         (sv1, ch) ∈ activePairs s -> (sv2, ch) ∈ activePairs s -> sv1 = sv2) ->
      isMultiServerChannel ch s' = false)
  /\ (forall co,
        channel co = ch ->
        (isMultiServerChannel ch s' = false -> getChannelFullName co s' = ch)
        /\ (isMultiServerChannel ch s' = true ->
            getChannelFullName co s' = toStr (server co) +:+ " " +:+ ch)).
Proof.
  intros Hnd s'.
  assert (Hiff : isMultiServerChannel ch s' = true <->
                 exists sv1 sv2,
                   sv1 <> sv2 /\ (sv1, ch) ∈ activePairs s /\ (sv2, ch) ∈ activePairs s).
  { unfold isMultiServerChannel. rewrite bool_decide_eq_true.
    subst s'. rewrite calibrate_repeated, <- activePairs_channels.
    now apply repeated_pairs. }
  split; [exact Hiff|]. split.
  - intros Hunique. destruct (isMultiServerChannel ch s') eqn:Hm; [|reflexivity].
    destruct (proj1 Hiff eq_refl) as (sv1 & sv2 & Hne & H1 & H2).
    destruct Hne. now apply Hunique.
  - intros co <-. unfold getChannelFullName.
    split; intros ->; reflexivity.
Qed.

Lemma ambiguous_iff_on_two_servers_witness :
  isMultiServerChannel "#general" (calibrateMultiServerChannels sampleState) = true
  /\ getChannelFullName (Chobj (Some "beta") "#general")
       (calibrateMultiServerChannels sampleState) = "beta #general".
Proof.
  destruct (ambiguous_iff_on_two_servers sampleState "#general") as (Hiff & _ & Hname).
  - compute_done.
  - assert (Hm : isMultiServerChannel "#general"
                   (calibrateMultiServerChannels sampleState) = true).
    { apply Hiff. exists (Some "alpha"), (Some "beta").
      split; [discriminate|]. split; compute_done. }
    split; [exact Hm|].
    exact (proj2 (Hname (Chobj (Some "beta") "#general") eq_refl) Hm).
Defined.

(** C6.  A reconnect request never changes the clients or their aborted
    flags.  When the server's client is missing or not aborted, the only
    thing that happens is a warning; a connection is started only for a
    client that is aborted, and for such a client it is started. *)
Theorem reconnect_only_when_aborted (serverName : string) (s : state) :
  let s' := reconnectServer serverName s in
  clients s' = clients s
  /\ multiServerChannels s' = multiServerChannels s
  /\ ((forall i c, findClientByServerName serverName s = Some (i, c) ->
                   pyramidAborted c = false) ->
      calls s' = calls s ++ [MainWarn (reconnectWarning serverName)])
  /\ (forall i, ClientConnect i ∈ calls s' -> ClientConnect i ∉ calls s ->
        exists c, findClientByServerName serverName s = Some (i, c)
                  /\ pyramidAborted c = true)
  /\ (forall i c, findClientByServerName serverName s = Some (i, c) ->
                  pyramidAborted c = true ->
                  calls s' = calls s ++ [ClientConnect i]).
Proof.
  intros s'. subst s'. unfold reconnectServer.
  destruct (findClientByServerName serverName s) as [[i c]|] eqn:Hfind.
  - destruct (pyramidAborted c) eqn:Hab; simpl.
    + repeat split.
      * intros H. specialize (H i c eq_refl). congruence.
      * intros j Hin Hnot. apply elem_of_app in Hin as [?|Hin]; [contradiction|].
        apply list_elem_of_singleton in Hin. injection Hin as ->. now exists c.
      * intros j c' [= <- <-] _. reflexivity.
    + repeat split.
      * intros j Hin Hnot. apply elem_of_app in Hin as [?|Hin]; [contradiction|].
        apply list_elem_of_singleton in Hin. discriminate.
      * intros j c' [= <- <-] H. congruence.
  - simpl. repeat split.
    + intros j Hin Hnot. apply elem_of_app in Hin as [?|Hin]; [contradiction|].
      apply list_elem_of_singleton in Hin. discriminate.
    + intros j c' H. discriminate.
Qed.

(** *** Abort, connect and reconnect *)

Lemma handleConnectionStateChange_clients i st s :
  clients (handleConnectionStateChange i st s) = clients s.
Proof.
  unfold handleConnectionStateChange.
  destruct (clients s !! i) as [c|]; [|reflexivity].
  now destruct (clientServerName c).
Qed.

(** Setting the flag of the client a name resolves to keeps the name
    resolving to that client. *)
Lemma find_after_flag serverName s i c flag :
  findClientByServerName serverName s = Some (i, c) ->
  findClientByServerName serverName
    (setClient i (Client (extConfigName c) (channels c) flag) s)
  = Some (i, Client (extConfigName c) (channels c) flag).
Proof.
  unfold findClientByServerName. simpl.
  rewrite !list_find_Some. intros (Hi & Hname & Hfirst).
  split; [|split].
  - apply list_lookup_insert_eq. now apply lookup_lt_Some in Hi.
  - exact Hname.
  - intros j y Hj Hlt. rewrite list_lookup_insert_ne in Hj by lia.
    now apply (Hfirst j).
Qed.

(** Once a server's client has been aborted, a reconnect request for the
    server starts a connection. *)
Lemma reconnect_after_abort serverName s i c st :
  findClientByServerName serverName s = Some (i, c) ->
  let s1 := abortClient i st s in
  calls (reconnectServer serverName s1) = calls s1 ++ [ClientConnect i].
Proof.
  intros Hfind s1.
  assert (Hi : clients s !! i = Some c).
  { unfold findClientByServerName in Hfind. now apply list_find_Some in Hfind. }
  assert (Hfind1 : findClientByServerName serverName s1
                   = Some (i, Client (extConfigName c) (channels c) true)).
  { subst s1. unfold abortClient. rewrite Hi.
    unfold findClientByServerName. rewrite handleConnectionStateChange_clients.
    now apply find_after_flag. }
  unfold reconnectServer. now rewrite Hfind1.
Qed.

(** Once the client has connected again, the request is turned down. *)
Lemma reconnect_after_connect serverName s i c :
  findClientByServerName serverName s = Some (i, c) ->
  let s1 := onConnect i s in
  calls (reconnectServer serverName s1) =
  calls s1 ++ [MainWarn (reconnectWarning serverName)].
Proof.
  intros Hfind s1.
  assert (Hi : clients s !! i = Some c).
  { unfold findClientByServerName in Hfind. now apply list_find_Some in Hfind. }
  assert (Hfind1 : findClientByServerName serverName s1
                   = Some (i, Client (extConfigName c) (channels c) false)).
  { subst s1. unfold onConnect. rewrite Hi.
    unfold findClientByServerName. cbn [clients call].
    rewrite handleConnectionStateChange_clients.
    now apply find_after_flag. }
  unfold reconnectServer. now rewrite Hfind1.
Qed.

End IrcFacts.

(** ** Relationship tiers *)

Module TierFacts.
Import Legacy.

Lemma includes_true x arr : includes x arr = true <-> x ∈ arr.
Proof. unfold includes. apply bool_decide_eq_true. Qed.

Lemma includes_false x arr : includes x arr = false <-> x ∉ arr.
Proof. unfold includes. apply bool_decide_eq_false. Qed.




(** An author listed among the non-people gets no relationship at all:
    the handler returns before it looks at the friend lists. *)
Lemma non_person_is_dropped cfg from :
  from ∈ nonPeople cfg -> handleMessageRelationship cfg from = None.
Proof.
  intros H. apply includes_true in H.
  unfold handleMessageRelationship. now rewrite H.
Qed.

End TierFacts.

(** ** The socket request handlers *)

Module IoFacts.
Import Io.

(** C9.  Every listener that answers a viewer's request starts by
    checking the connection's token: while the token is not an accepted
    one, the listener leaves the connection as it is and makes no call at
    all, so nothing is changed, nothing is sent back and no error is
    raised. *)
Theorem request_without_accepted_token_ignored
    (E : environment) (ev : event) (details connectionToken : value) :
  isRequest ev = true ->
  isAnAcceptedToken E connectionToken = false ->
  handler E ev details connectionToken = (connectionToken, []).
Proof.
  intros Hreq Hrejected.
  destruct ev; try discriminate Hreq; unfold handler; rewrite Hrejected; reflexivity.
Qed.

Lemma request_without_accepted_token_ignored_witness :
  handler sampleEnvironment sendMessage sampleSendMessage VNull = (VNull, []).
Proof.
  apply (request_without_accepted_token_ignored sampleEnvironment sendMessage
           sampleSendMessage VNull); reflexivity.
Defined.

(** The same request on a connection that did present the token. *)
Lemma request_with_accepted_token_served :
  handler sampleEnvironment sendMessage sampleSendMessage (VString "secret") =
  (VString "secret",
   [Do "ircControl.sendOutgoingMessage" [VString "alpha/x"; VString "hello"]]).
Proof. reflexivity. Qed.

(** The "token" listener is how a token is presented; it answers with the
    token's status whether or not the token is accepted. *)
Lemma token_presentation_answered E t :
  handler E token (VObject [("token", VString t)]) VNull =
  (VString t, [Do "emitTokenStatus" [VBool (isAnAcceptedToken E (VString t))]]).
Proof. reflexivity. Qed.

End IoFacts.

(** ** The persisted line formats *)

Module LogFacts.
Import Log.

#[local] Arguments String.append !_ _ / : simpl nomatch.

Section Strings.

#[local] Arguments String.append !_ _ / : simpl nomatch.

Lemma append_assoc (a b c : string) : (a +:+ b) +:+ c = a +:+ (b +:+ c).
Proof. induction a as [|x a IH]; simpl; [reflexivity | f_equal; exact IH]. Qed.

Lemma length_append (a b : string) :
  String.length (a +:+ b) = String.length a + String.length b.
Proof. induction a as [|x a IH]; simpl; [reflexivity | f_equal; exact IH]. Qed.

Lemma substring_prefix (a b : string) :
  String.substring 0 (String.length a) (a +:+ b) = a.
Proof.
  induction a as [|x a IH]; simpl; [now destruct b | f_equal; exact IH].
Qed.

Lemma consumed_append (a b : string) : consumed (a +:+ b) b = a.
Proof.
  unfold consumed. rewrite length_append.
  replace (String.length a + String.length b - String.length b)
    with (String.length a) by lia.
  apply substring_prefix.
Qed.

Lemma substr_append (a b : string) : substr (String.length a) (a +:+ b) = b.
Proof. induction a as [|x a IH]; simpl; [now destruct b | exact IH]. Qed.

Lemma litK_append {R} (lit rest : string) (k : string -> option R) :
  litK lit (lit +:+ rest) k = k rest.
Proof.
  induction lit as [|x lit IH]; simpl; [reflexivity|].
  now rewrite Ascii.eqb_refl.
Qed.

(** A greedy run that needs no backtracking: the class holds all along
    [a], stops at [rest], and the continuation accepts [rest]. *)
Lemma starK_greedy {R} cls (a rest : string) (k : string -> option R) r :
  allOf cls a = true -> stopsAt cls rest = true -> k rest = Some r ->
  starK cls (a +:+ rest) k = Some r.
Proof.
  intros Ha Hstop Hk. induction a as [|x a IH].
  - change ("" +:+ rest) with rest.
    destruct rest as [|c rest]; cbn [starK]; [assumption|].
    cbn [stopsAt] in Hstop. apply negb_true_iff in Hstop. now rewrite Hstop.
  - cbn [allOf] in Ha. apply andb_true_iff in Ha as [Hx Ha].
    change (String x a +:+ rest) with (String x (a +:+ rest)).
    cbn [starK]. now rewrite Hx, (IH Ha).
Qed.

Lemma nameChar_not_symbolChar c : nameChar c = true -> symbolChar c = false.
Proof.
  destruct c as [[] [] [] [] [] [] [] []]; vm_compute; congruence.
Qed.

End Strings.

Lemma msg_match (sy u m : string) :
  allOf symbolChar sy = true -> allOf nameChar u = true -> u <> "" ->
  jsMatch msgRegExp (build_msg (Some sy) (Some u) (Some m)) =
  Some ("<" +:+ sy +:+ u +:+ ">", [(2, u); (1, sy)]).
Proof.
  intros Hsy Hu Hne.
  destruct u as [|c u]; [congruence|]. simpl in Hu.
  apply andb_true_iff in Hu as [Hc Hu].
  unfold jsMatch, msgRegExp, build_msg, str. cbn [default seqs run USERNAME_SYMBOL].
  simpl String.append; cbn [litK]. rewrite Ascii.eqb_refl.
  erewrite (starK_greedy symbolChar sy); [reflexivity | assumption | |].
  - simpl String.append; cbn [stopsAt]. now rewrite (nameChar_not_symbolChar c Hc).
  - simpl String.append. rewrite Hc.
    erewrite (starK_greedy nameChar u); [reflexivity | assumption | reflexivity |].
    simpl String.append. cbn [litK starK]. rewrite Ascii.eqb_refl.
    assert (Hs : oneOf "s" " "%char = false) by reflexivity.
    rewrite Hs. cbv beta.
    f_equal. f_equal.
    + change (String "<" (sy +:+ String c (u +:+ String ">" (String " " m))))
        with ("<" +:+ sy +:+ String c u +:+ ">" +:+ (String " " m)).
      rewrite <- !append_assoc. rewrite consumed_append.
      now rewrite !append_assoc.
    + f_equal; [|f_equal]; f_equal.
      * change (String c (u +:+ String ">" (String " " m)))
          with (String c u +:+ String ">" (String " " m)).
        apply consumed_append.
      * apply consumed_append.
Qed.

Lemma space_in_front (m : string) : " " +:+ m <> m.
Proof.
  intros H. apply (f_equal String.length) in H. simpl in H. lia.
Qed.

(** On every line built from a symbol, a nickname and a text within the
    character classes of the parser, the "msg" parser gives the symbol
    and the nickname back and the text with the separating space in
    front: no such line round-trips. *)
Lemma msg_parse_keeps_separator (sy u m : string) :
  allOf symbolChar sy = true -> allOf nameChar u = true -> u <> "" ->
  let d := Fields (Some sy) (Some u) (Some m) None None None None None None None in
  build msg d = "<" +:+ sy +:+ u +:+ "> " +:+ m
  /\ parse msg (build msg d) =
     Some (Fields (Some sy) (Some u) (Some (" " +:+ m)) (Some "msg")
                  None None None None None None)
  /\ roundTrips msg d = false.
Proof.
  intros Hsy Hu Hne d.
  assert (Hparse : parse msg (build msg d) =
     Some (Fields (Some sy) (Some u) (Some (" " +:+ m)) (Some "msg")
                  None None None None None None)).
  { subst d. cbn [parse build symbol username message].
    rewrite (msg_match sy u m Hsy Hu Hne). cbn [group Nat.eqb].
    do 3 f_equal. unfold build_msg, str. cbn [default]. unfold id.
    replace ("<" +:+ sy +:+ u +:+ "> " +:+ m)
      with (("<" +:+ sy +:+ u +:+ ">") +:+ " " +:+ m)
      by (now rewrite !append_assoc).
    apply substr_append. }
  split; [reflexivity|]. split; [exact Hparse|].
  unfold roundTrips. rewrite Hparse. apply bool_decide_eq_false.
  subst d. cbn [requiredFields symbol username message].
  intros [= H]. now apply (space_in_front m).
Qed.

(** C2 does not hold of the parsers.  On every line built from a symbol,
    a nickname and a text the "msg" parser gives the text back with the
    separating space in front; the "notice" parser gives the symbol back
    as the username; the parsers of "part", "quit", "kick" and "kill" give
    the reason back with its space and parentheses, and the "mode" parser
    the argument with its space.  Of the ten kinds only the connection
    event gives the sample fields back. *)
Theorem round_trip_fails :
  build msg plainFields = "<bob> hi"
  /\ message <$> parse msg (build msg plainFields) = Some (Some " hi")
  /\ roundTrips msg plainFields = false
  /\ (forall sy u m,
        allOf symbolChar sy = true -> allOf nameChar u = true -> u <> "" ->
        roundTrips msg
          (Fields (Some sy) (Some u) (Some m) None None None None None None None)
        = false)
  /\ username <$> parse notice (build notice sampleFields) = Some (Some "@")
  /\ reason <$> parse part (build part sampleFields) = Some (Some " (bye)")
  /\ argument <$> parse mode_ (build mode_ sampleFields) = Some (Some " alice")
  /\ ((fun k => roundTrips k sampleFields) <$> allKinds) =
     [false; false; false; false; false; false; false; false; false; true].
Proof.
  split; [reflexivity|]. split; [vm_compute; reflexivity|].
  split; [vm_compute; reflexivity|]. split.
  - intros sy u m Hsy Hu Hne. now apply msg_parse_keeps_separator.
  - repeat split; vm_compute; reflexivity.
Qed.

End LogFacts.

(** ** The cache engine, continued *)

Module CacheMore.
Import Cache CacheFacts CacheViews.

(** X1.  Whatever the configuration says, no cache holds more lines
    than the larger of 500 and the constant: a configured [cacheLines]
    between 20 and 500 is the limit, and a value outside that range, or
    one that is not a number, is passed over for the constant. *)
Theorem cache_never_longer_than_limits
    (E : environment) (appends : list append) (key : cacheKey) :
  let s := foldl (applyAppend E) initial appends in
  length (stored key s) <= max 500 (CACHE_LINES E)
  /\ (forall v, cacheLines E = Some v -> (20 <= v <= 500)%Z ->
        length (stored key s) <= Z.to_nat v)
  /\ (forall v, cacheLines E = Some v -> ~ (20 <= v <= 500)%Z ->
        length (stored key s) <= CACHE_LINES E)
  /\ (cacheLines E = None -> length (stored key s) <= CACHE_LINES E).
Proof.
  intros s.
  assert (Hlen : length (stored key s) <= getCacheLinesSetting E).
  { subst s. destruct appends as [|a appends] using rev_ind.
    - simpl. assert (stored key initial = []) as ->; [|simpl; lia].
      destruct key; simpl; try reflexivity. unfold initial; simpl.
      destruct (decide (categoryName = "highlights")) as [->|];
        [now rewrite lookup_insert_eq | rewrite lookup_insert_ne by congruence].
      destruct (decide (categoryName = "allfriends")) as [->|];
        [now rewrite lookup_insert_eq | rewrite lookup_insert_ne by congruence].
      destruct (decide (categoryName = "system")) as [->|];
        [now rewrite lookup_insert_eq | rewrite lookup_insert_ne by congruence].
      reflexivity.
    - rewrite foldl_app. simpl. rewrite stored_applyAppend.
      destruct (appended key a); [assumption | apply cacheItem_length]. }
  unfold getCacheLinesSetting in Hlen.
  repeat split.
  - destruct (cacheLines E) as [v|]; [|lia].
    destruct ((20 <=? v)%Z && (v <=? 500)%Z) eqn:Hv; [|lia].
    apply andb_true_iff in Hv as [H1 H2].
    apply Z.leb_le in H1, H2. lia.
  - intros v Hc [H1 H2]. rewrite Hc in Hlen.
    apply Z.leb_le in H1, H2. now rewrite H1, H2 in Hlen.
  - intros v Hc Hout. rewrite Hc in Hlen.
    destruct ((20 <=? v)%Z && (v <=? 500)%Z) eqn:Hv; [|assumption].
    apply andb_true_iff in Hv as [H1 H2].
    apply Z.leb_le in H1, H2. lia.
  - intros Hc. now rewrite Hc in Hlen.
Qed.


(** *** Runs of bunchable events, in full *)

Section RunsInFull.

Variable E : environment.
Variable channel : string.

Lemma setLast_setLast {A} (x y : A) l : setLast y (setLast x l) = setLast y l.
Proof.
  unfold setLast at 1. rewrite setLast_length. unfold setLast.
  apply list_insert_insert_eq.
Qed.

Lemma default_last_cons {A} (d x : A) l :
  default d (last (x :: l)) = default x (last l).
Proof.
  revert d x. induction l as [|y l IH]; intros d x; [reflexivity|].
  change (last (x :: y :: l)) with (last (y :: l)).
  now rewrite !(IH _ y).
Qed.

Lemma countOf_cons p e run : countOf p (e :: run) = b2n (p e) + countOf p run.
Proof. reflexivity. Qed.

(** What a run appended onto a bunch makes of the cache and of the
    bunch's counters, times and origin. *)
Lemma grow_run_full rest : forall data s b,
  tailOf channel s = Some b ->
  type b = "events" ->
  "events" ∉ BUNCHABLE_EVENT_TYPES E ->
  exists b',
    tailOf channel (bunchRun E channel (data :: rest) s) = Some b'
    /\ stored (ChannelKey channel) (bunchRun E channel (data :: rest) s)
       = setLast b' (stored (ChannelKey channel) s)
    /\ type b' = "events"
    /\ joinCount b' = joinCount b + countOf (isJoinEvent E) (data :: rest)
    /\ partCount b' = partCount b + countOf (isPartEvent E) (data :: rest)
    /\ firstTime b' = firstTime b
    /\ time b' = time (default data (last rest))
    /\ Cache.channel b' = Cache.channel b
    /\ server b' = server b.
Proof.
  induction rest as [|x rest IH]; intros data s b Ht Hty Hev.
  - destruct (cacheBunchable_grow E channel data s b Ht) as (Hst & _ & Ht');
      [congruence | assumption |].
    eexists. split; [exact Ht'|]. split; [exact Hst|].
    simpl. unfold countOf. simpl. repeat split; lia.
  - destruct (cacheBunchable_grow E channel data s b Ht) as (Hst & _ & Ht');
      [congruence | assumption |].
    destruct (IH x _ _ Ht' eq_refl Hev)
      as (b' & T & S' & Y & J & P & F & Tm & C & Sv).
    exists b'. split; [exact T|]. split.
    + change (bunchRun E channel (data :: x :: rest) s)
        with (bunchRun E channel (x :: rest)
                (cacheBunchableChannelEvent E channel data s)).
      rewrite S', Hst. apply setLast_setLast.
    + split; [exact Y|]. rewrite J, P, F, Tm, C, Sv.
      rewrite !(countOf_cons _ data), default_last_cons. simpl.
      repeat split; lia.
Qed.

End RunsInFull.

(** X2.  A run of two or more bunchable events, arriving on a channel
    whose cache does not end in a bunchable entry, adds one entry to the
    cache: a bunch whose counters count every join and every part of the
    run, however long it is, with the time of the first event as its
    first time, the time of the last event as its time, and the channel
    and server of the first event. *)
Theorem bunch_of_a_fresh_run
    (E : environment) (channel : string) (e1 e2 : line) (rest : list line)
    (s : state) :
  0 < getCacheLinesSetting E ->
  (forall t, tailOf channel s = Some t ->
             (type t ∉ BUNCHABLE_EVENT_TYPES E) /\ type t <> "events") ->
  type e1 ∈ BUNCHABLE_EVENT_TYPES E ->
  "events" ∉ BUNCHABLE_EVENT_TYPES E ->
  let run := e1 :: e2 :: rest in
  let s' := bunchRun E channel run s in
  exists b,
    stored (ChannelKey channel) s'
      = setLast b (cacheItem E (stored (ChannelKey channel) s) e1)
    /\ type b = "events"
    /\ joinCount b = countOf (isJoinEvent E) run
    /\ partCount b = countOf (isPartEvent E) run
    /\ firstTime b = time e1
    /\ time b = time (default e2 (last rest))
    /\ Cache.channel b = Cache.channel e1
    /\ server b = server e1.
Proof.
  intros Hcap Hfresh He1 Hev run s'.
  assert (Hplain : cacheBunchableChannelEvent E channel e1 s
                   = cacheChannelEvent E channel e1 s)
    by now apply cacheBunchable_plain.
  pose proof (cacheChannelEvent_tailOf E channel e1 s Hcap) as T1.
  pose proof (cacheChannelEvent_stored E channel e1 s) as S1.
  rewrite <- Hplain in T1, S1.
  destruct (cacheBunchable_new E channel e2 _ e1 T1 He1) as (S2 & _ & T2).
  rewrite S1 in S2.
  destruct rest as [|x rest].
  - eexists. split; [exact S2|]. simpl. unfold countOf. simpl.
    repeat split; lia.
  - destruct (grow_run_full E channel rest x _ _ T2 eq_refl Hev)
      as (b & T & S' & Y & J & P & F & Tm & C & Sv).
    exists b. split.
    + subst s' run.
      change (bunchRun E channel (e1 :: e2 :: x :: rest) s)
        with (bunchRun E channel (x :: rest)
                (cacheBunchableChannelEvent E channel e2
                   (cacheBunchableChannelEvent E channel e1 s))).
      rewrite S', S2. apply setLast_setLast.
    + split; [exact Y|]. rewrite J, P, F, Tm, C, Sv.
      subst run. rewrite (countOf_cons _ e1), !(countOf_cons _ e2).
      rewrite default_last_cons. simpl.
      repeat split; lia.
Qed.

Lemma bunch_of_a_fresh_run_witness :
  exists b,
    stored (ChannelKey "alpha/x")
      (bunchRun sampleEnvironment "alpha/x" [sampleJoin; samplePart; sampleQuit] initial)
    = [b]
    /\ joinCount b = 1 /\ partCount b = 1 /\ firstTime b = 1 /\ time b = 3.
Proof.
  destruct (bunch_of_a_fresh_run sampleEnvironment "alpha/x" sampleJoin samplePart
              [sampleQuit] initial) as (b & S & _ & J & P & F & T & _).
  - vm_compute; lia.
  - intros t H. vm_compute in H. discriminate H.
  - compute_done.
  - compute_done.
  - exists b. split; [exact S|]. rewrite J, P, F, T. repeat split.
Defined.


(** *** The deferred database queues *)

Section Queues.

Variable E : environment.

Lemma deleteLines_queues ids : forall s,
  let s' := deleteLinesWithLineIds ids s in
  (forall k, k ∈ lineIdsToDelete s' <-> k ∈ ids \/ k ∈ lineIdsToDelete s)
  /\ (forall k, bunchableLinesToInsert s' !! k =
                if bool_decide (k ∈ ids) then None
                else bunchableLinesToInsert s !! k)
  /\ outbox s' = outbox s.
Proof.
  induction ids as [|id ids IH]; intros s; cbv zeta.
  - simpl. repeat split; try tauto.
    intros [H|H]; [inversion H | assumption].
  - unfold deleteLinesWithLineIds in *. cbn [foldl].
    set (s1 := setBunchableLinesToInsert _ _).
    destruct (IH s1) as (Hd & Hi & Ho). repeat split.
    + intros H. apply Hd in H as [H|H]; [left; now right|].
      subst s1. simpl in H. apply elem_of_union in H as [H|H]; [|now right].
      apply elem_of_singleton in H as ->. left. left.
    + intros [H|H].
      * apply Hd. apply elem_of_cons in H as [->|H]; [|now left].
        right. subst s1. simpl. apply elem_of_union. left.
        now apply elem_of_singleton.
      * apply Hd. right. subst s1. simpl. apply elem_of_union. now right.
    + intros k. rewrite Hi. subst s1. simpl.
      destruct (decide (k = id)) as [->|Hk].
      * rewrite (bool_decide_eq_true_2 (id ∈ id :: ids)) by left.
        rewrite lookup_delete_eq. now destruct (bool_decide _).
      * rewrite lookup_delete_ne by congruence.
        destruct (decide (k ∈ ids)) as [Hin|Hin].
        -- rewrite !bool_decide_eq_true_2; [reflexivity | now right | assumption].
        -- rewrite !bool_decide_eq_false_2; [reflexivity | | assumption].
           intros H. apply elem_of_cons in H as [?|?]; contradiction.
    + now rewrite Ho.
Qed.

Lemma replaceLast_queues channel bunch s :
  let s' := replaceLastCacheItem E channel bunch s in
  (forall k, k ∈ lineIdsToDelete s' <-> k ∈ prevIds bunch \/ k ∈ lineIdsToDelete s)
  /\ (forall k, bunchableLinesToInsert s' !! k =
                if bool_decide (k ∈ prevIds bunch) then None
                else if logLinesDb E && truthy (lineId bunch)
                        && bool_decide (k = lineId bunch)
                     then Some (channel, bunch)
                     else bunchableLinesToInsert s !! k)
  /\ outbox s' = outbox s.
Proof.
  cbv zeta. unfold replaceLastCacheItem.
  set (s1 := match channelCaches s !! channel with
             | Some cache => _ | None => _ end).
  assert (H1 : lineIdsToDelete s1 = lineIdsToDelete s
               /\ bunchableLinesToInsert s1 = bunchableLinesToInsert s
               /\ outbox s1 = outbox s).
  { subst s1. destruct (channelCaches s !! channel); [|repeat split].
    destruct (0 <? _); repeat split. }
  destruct H1 as (Hd1 & Hi1 & Ho1).
  set (s2 := storeBunchableLine E channel bunch s1).
  assert (H2 : lineIdsToDelete s2 = lineIdsToDelete s
               /\ (forall k, bunchableLinesToInsert s2 !! k =
                     if logLinesDb E && truthy (lineId bunch)
                        && bool_decide (k = lineId bunch)
                     then Some (channel, bunch)
                     else bunchableLinesToInsert s !! k)
               /\ outbox s2 = outbox s).
  { subst s2. unfold storeBunchableLine.
    destruct (logLinesDb E && truthy (lineId bunch)); simpl;
      [|now rewrite Hd1, Hi1, Ho1].
    rewrite Hd1, Ho1. repeat split. intros k.
    destruct (decide (k = lineId bunch)) as [->|Hk].
    - now rewrite lookup_insert_eq, bool_decide_eq_true_2.
    - rewrite lookup_insert_ne, bool_decide_eq_false_2 by congruence.
      now rewrite Hi1. }
  destruct H2 as (Hd2 & Hi2 & Ho2).
  destruct (prevIds bunch) as [|p ps] eqn:Hp.
  - simpl. rewrite Hd2, Ho2. repeat split.
    + now right.
    + intros [H|H]; [inversion H | assumption].
    + intros k. now rewrite Hi2.
  - change (0 <? length (p :: ps)) with true. cbv iota.
    destruct (deleteLines_queues (p :: ps) s2) as (Hd & Hi & Ho).
    repeat split.
    + intros H. apply Hd in H. now rewrite Hd2 in H.
    + intros H. apply Hd. now rewrite Hd2.
    + intros k. rewrite Hi, Hi2. reflexivity.
    + now rewrite Ho, Ho2.
Qed.

End Queues.

(** X3.  When an event is bunched onto the tail of a channel's cache,
    the line it replaces is queued for deletion from the database and
    taken out of the queue of lines to insert; nothing leaves the deletion
    queue, and what enters it are identifiers of the replaced line and of
    the lines it had replaced.  With database logging on, the new bunch
    is queued for insertion under its own identifier.  No line is stored
    at once: the only call made is the emission of the bunch to the
    channel. *)
Theorem superseded_line_leaves_the_queues
    (E : environment) (channel : string) (data t : line) (s : state) :
  tailOf channel s = Some t ->
  (type t ∈ BUNCHABLE_EVENT_TYPES E \/ type t = "events") ->
  1 <= BUNCHED_EVENT_SIZE E ->
  let id := uuid_v4 E (uuidCount s) in
  let s' := cacheBunchableChannelEvent E channel data s in
  exists bunch,
    tailOf channel s' = Some bunch
    /\ lineId bunch = id
    /\ lineId t ∈ lineIdsToDelete s'
    /\ bunchableLinesToInsert s' !! lineId t = None
    /\ (forall k, k ∈ lineIdsToDelete s -> k ∈ lineIdsToDelete s')
    /\ (forall k, k ∈ lineIdsToDelete s' ->
          k ∈ lineIdsToDelete s \/ k = lineId t \/ k ∈ prevIds t)
    /\ (logLinesDb E = true -> truthy id = true ->
        id <> lineId t -> (id ∉ prevIds t) ->
        bunchableLinesToInsert s' !! id = Some (channel, bunch))
    /\ (forall k, k <> id ->
          bunchableLinesToInsert s' !! k = None
          \/ bunchableLinesToInsert s' !! k = bunchableLinesToInsert s !! k)
    /\ outbox s' =
         outbox s ++ (if io E then [IoEmitEventToChannel channel bunch] else []).
Proof.
  intros Ht Hty Hm id s'.
  set (bunch := if bool_decide (type t ∈ BUNCHABLE_EVENT_TYPES E)
                then newBunch E id t data else grownBunch E id t data).
  set (s0 := setUuidCount (S (uuidCount s)) s).
  assert (Hs' : s' = if io E
                     then emit (IoEmitEventToChannel channel bunch)
                            (replaceLastCacheItem E channel bunch s0)
                     else replaceLastCacheItem E channel bunch s0).
  { subst s' bunch. unfold cacheBunchableChannelEvent.
    change (last (default [] (channelCaches s !! channel))) with (tailOf channel s).
    rewrite Ht. destruct (bool_decide (type t ∈ _)) eqn:Hb; [reflexivity|].
    destruct Hty as [Hty|Hty];
      [apply bool_decide_eq_false in Hb; contradiction|].
    now rewrite bool_decide_eq_true_2. }
  assert (Hid : lineId bunch = id) by (subst bunch; now destruct (bool_decide _)).
  assert (Hprev : lineId t ∈ prevIds bunch
                  /\ forall k, k ∈ prevIds bunch -> k = lineId t \/ k ∈ prevIds t).
  { subst bunch. destruct (bool_decide _).
    - simpl. split; [left|]. intros k Hk. left.
      now apply list_elem_of_singleton in Hk.
    - rewrite (proj1 (proj2 (proj2 (grownBunch_fields E _ _ _)))).
      split.
      + apply last_Some_elem_of, last_sliceLast_snoc. lia.
      + intros k Hk. unfold sliceLast in Hk.
        pose proof (elem_of_sublist _ _ _ Hk (sublist_drop _ _)) as Hk'.
        clear Hk. apply elem_of_app in Hk' as [?|Hk]; [now right|].
        left. now apply list_elem_of_singleton in Hk. }
  destruct Hprev as [Hin Hsub].
  destruct (replaceLast_queues E channel bunch s0) as (Hd & Hi & Ho).
  set (s1 := replaceLastCacheItem E channel bunch s0) in *.
  assert (Hq : lineIdsToDelete s' = lineIdsToDelete s1
               /\ bunchableLinesToInsert s' = bunchableLinesToInsert s1
               /\ outbox s' = outbox s ++
                    (if io E then [IoEmitEventToChannel channel bunch] else []))
    by (rewrite Hs'; destruct (io E); simpl; rewrite ?Ho, ?app_nil_r; repeat split).
  destruct Hq as (Hd' & Hi' & Ho').
  exists bunch. split.
  { assert (tailOf channel s' = Some bunch) as ->; [|reflexivity].
    rewrite Hs'. exact (proj2 (proj2 (replaced_stored E channel bunch s t Ht))). }
  split; [assumption|].
  rewrite Hd', Hi', Ho'. repeat split.
  - apply Hd. now left.
  - rewrite Hi. now rewrite bool_decide_eq_true_2.
  - intros k Hk. apply Hd. now right.
  - intros k Hk. apply Hd in Hk as [Hk|Hk]; [|now left].
    right. now apply Hsub.
  - intros Hdb Htr Hne Hnp. rewrite Hi, Hdb, Hid, Htr.
    rewrite bool_decide_eq_false_2, bool_decide_eq_true_2; [reflexivity..|].
    intros Hk. apply Hsub in Hk as [?|?]; contradiction.
  - intros k Hk. rewrite Hi. destruct (bool_decide (k ∈ prevIds bunch)); [now left|].
    rewrite Hid, (bool_decide_eq_false_2 (k = id)) by assumption.
    rewrite andb_false_r. now right.
Qed.

Lemma superseded_line_leaves_the_queues_witness :
  "id-join" ∈ lineIdsToDelete
    (cacheBunchableChannelEvent sampleEnvironment "alpha/x" samplePart
       (cacheChannelEvent sampleEnvironment "alpha/x" sampleJoin initial)).
Proof.
  destruct (superseded_line_leaves_the_queues sampleEnvironment "alpha/x" samplePart
              sampleJoin
              (cacheChannelEvent sampleEnvironment "alpha/x" sampleJoin initial))
    as (bunch & _ & _ & Hdel & _).
  - reflexivity.
  - left. compute_done.
  - simpl; lia.
  - exact Hdel.
Defined.


(** *** Where a call files its line *)

Section Filing.

Variable E : environment.

Lemma cacheBunchable_caches channel data s :
  let s' := cacheBunchableChannelEvent E channel data s in
  (forall other, other <> channel ->
     channelCaches s' !! other = channelCaches s !! other)
  /\ userCaches s' = userCaches s
  /\ categoryCaches s' = categoryCaches s.
Proof.
  cbv zeta.
  assert (Hplain : let s' := cacheChannelEvent E channel data s in
            (forall other, other <> channel ->
               channelCaches s' !! other = channelCaches s !! other)
            /\ userCaches s' = userCaches s
            /\ categoryCaches s' = categoryCaches s).
  { destruct (cacheChannelEvent_caches E channel data s) as (Hc & Hu & Hg).
    cbv zeta. rewrite Hc, Hu, Hg. repeat split.
    intros other Hne. now rewrite lookup_insert_ne. }
  assert (Hrep : forall bunch,
            let s' :=
              (let s1 := replaceLastCacheItem E channel bunch
                           (setUuidCount (S (uuidCount s)) s) in
               if io E then emit (IoEmitEventToChannel channel bunch) s1 else s1) in
            (forall other, other <> channel ->
               channelCaches s' !! other = channelCaches s !! other)
            /\ userCaches s' = userCaches s
            /\ categoryCaches s' = categoryCaches s).
  { intros bunch. cbv zeta.
    destruct (replaceLastCacheItem_frame E channel bunch
                (setUuidCount (S (uuidCount s)) s)) as (i & d & ->).
    simpl. destruct (channelCaches s !! channel) as [cache|];
      [destruct (0 <? length cache)|]; destruct (io E); simpl;
      repeat split; intros other Hne; now rewrite lookup_insert_ne. }
  unfold cacheBunchableChannelEvent.
  destruct (last _) as [t|]; [|exact Hplain].
  destruct (bool_decide (type t ∈ _)); [apply Hrep|].
  destruct (bool_decide (type t = "events")); [apply Hrep | exact Hplain].
Qed.

(** The user and category caches after [cacheMessage]. *)
Lemma cacheMessage_filing a s s' :
  cacheMessageWith E a s = Some s' ->
  let msg := messageOf E a s in
  let friendly users :=
    if RELATIONSHIP_FRIEND E <=? withRelationship a
    then <[fromUsername a :=
             cacheItem E (default [] (users !! fromUsername a)) msg]> users
    else users in
  let allfriends categories :=
    if RELATIONSHIP_FRIEND E <=? withRelationship a
    then <["allfriends" :=
             cacheItem E (default [] (categories !! "allfriends")) msg]> categories
    else categories in
  let highlights categories :=
    if 0 <? length (highlightStrings a)
    then <["highlights" :=
             cacheItem E (default [] (categories !! "highlights"))
               (withContextMessages (nextArray s) msg)]> categories
    else categories in
  userCaches s' = friendly (userCaches s)
  /\ categoryCaches s' = highlights (allfriends (categoryCaches s)).
Proof.
  unfold cacheMessageWith, cacheMessage.
  change (newMessage E _ _ _ _ _ _ _ _ _ _ _ s) with (messageOf E a s).
  set (msg := messageOf E a s).
  set (hl := 0 <? length (highlightStrings a)).
  set (s2 := if hl then _ else _).
  assert (H2 : userCaches s2 = userCaches s /\ categoryCaches s2 = categoryCaches s)
    by (subst s2; destruct hl; repeat split).
  destruct H2 as (Hu2 & Hg2).
  destruct (cacheChannelEvent_caches E (channelUri a) msg s2) as (_ & Hu3 & Hg3).
  set (s3 := cacheChannelEvent E (channelUri a) msg s2) in *.
  destruct (addToCurrentHighlightContext E (channelUri a) msg s3) as [s4|] eqn:Hrun4;
    [|discriminate].
  destruct (addToCurrentHighlightContext_frame _ _ _ _ _ Hrun4)
    as (_ & _ & _ & _ & _ & Hu4 & Hg4 & _).
  cbn [mbind option_bind]. intros [= <-]. cbv zeta.
  assert (Hu : userCaches s4 = userCaches s) by now rewrite Hu4, Hu3, Hu2.
  assert (Hg : categoryCaches s4 = categoryCaches s) by now rewrite Hg4, Hg3, Hg2.
  set (s5 := if RELATIONSHIP_FRIEND E <=? withRelationship a then _ else s4).
  assert (H5 : userCaches s5 =
                 (if RELATIONSHIP_FRIEND E <=? withRelationship a
                  then <[fromUsername a :=
                           cacheItem E (default [] (userCaches s !! fromUsername a)) msg]>
                         (userCaches s)
                  else userCaches s)
               /\ categoryCaches s5 =
                 (if RELATIONSHIP_FRIEND E <=? withRelationship a
                  then <["allfriends" :=
                           cacheItem E (default [] (categoryCaches s !! "allfriends")) msg]>
                         (categoryCaches s)
                  else categoryCaches s)).
  { subst s5. destruct (_ <=? _); [|now split].
    destruct (cacheCategoryMessage_caches E "allfriends" msg
                (cacheUserMessage E (fromUsername a) msg s4)) as (_ & -> & ->).
    destruct (cacheUserMessage_caches E (fromUsername a) msg s4) as (_ & -> & ->).
    now rewrite Hu, Hg. }
  destruct H5 as (Hu5 & Hg5).
  destruct hl; [|now split].
  destruct (cacheCategoryMessage_caches E "highlights"
              (withContextMessages (nextArray s) msg) s5) as (_ & -> & ->).
  now rewrite Hu5, Hg5.
Qed.

End Filing.

(** X4.  [cacheMessage] files a message by the author's relationship
    and by its highlights: from a friend it is appended to the author's
    cache and to "allfriends", from anybody else neither is touched; with
    highlight strings its copy carrying the context is appended to
    "highlights", without them that category is left alone.  The caches
    of other users and of other categories stay as they are. *)
Theorem message_is_filed_by_relationship_and_highlight
    (E : environment) (a : messageArgs) (s s' : state) :
  cacheMessageWith E a s = Some s' ->
  let msg := messageOf E a s in
  (RELATIONSHIP_FRIEND E <= withRelationship a ->
     stored (UserKey (fromUsername a)) s'
       = cacheItem E (stored (UserKey (fromUsername a)) s) msg
     /\ stored (CategoryKey "allfriends") s'
       = cacheItem E (stored (CategoryKey "allfriends") s) msg)
  /\ (withRelationship a < RELATIONSHIP_FRIEND E ->
     userCaches s' = userCaches s
     /\ getCategoryCache "allfriends" s' = getCategoryCache "allfriends" s)
  /\ (highlightStrings a <> [] ->
     stored (CategoryKey "highlights") s'
       = cacheItem E (stored (CategoryKey "highlights") s)
           (withContextMessages (nextArray s) msg))
  /\ (highlightStrings a = [] ->
     getCategoryCache "highlights" s' = getCategoryCache "highlights" s)
  /\ (forall other, other <> fromUsername a ->
     getUserCache other s' = getUserCache other s)
  /\ (forall other, other <> "allfriends" -> other <> "highlights" ->
     getCategoryCache other s' = getCategoryCache other s).
Proof.
  intros Hrun msg.
  destruct (cacheMessage_filing E a s s' Hrun) as (Hu & Hg).
  cbv zeta in Hu, Hg. fold msg in Hu, Hg.
  unfold stored, getCategoryCache, getUserCache. rewrite Hu, Hg.
  assert (Hhl : (0 <? length (highlightStrings a)) = true <-> highlightStrings a <> []).
  { rewrite Nat.ltb_lt. destruct (highlightStrings a); simpl; split;
      intros; try congruence; lia. }
  split; [|split; [|split; [|split; [|split]]]].
  - intros H. apply Nat.leb_le in H. rewrite H. split.
    + now rewrite lookup_insert_eq.
    + destruct (0 <? _); [rewrite lookup_insert_ne by discriminate|];
        now rewrite lookup_insert_eq.
  - intros H. apply Nat.leb_gt in H. rewrite H. split; [reflexivity|].
    destruct (0 <? _); [rewrite lookup_insert_ne by discriminate|]; reflexivity.
  - intros H. apply Hhl in H. rewrite H. rewrite lookup_insert_eq. simpl.
    destruct (_ <=? _); [rewrite lookup_insert_ne by discriminate|]; reflexivity.
  - intros H.
    assert ((0 <? length (highlightStrings a)) = false) as ->
      by (rewrite H; reflexivity).
    destruct (_ <=? _); [rewrite lookup_insert_ne by discriminate|]; reflexivity.
  - intros other Hne. destruct (_ <=? _); [|reflexivity].
    now rewrite lookup_insert_ne by congruence.
  - intros other H1 H2.
    destruct (0 <? _); [rewrite lookup_insert_ne by congruence|];
      (destruct (_ <=? _); [rewrite lookup_insert_ne by congruence|]; reflexivity).
Qed.

Lemma message_is_filed_by_relationship_and_highlight_witness :
  exists s',
    cacheMessageWith sampleEnvironment sampleHighlight initial = Some s'
    /\ userCaches s' = userCaches initial
    /\ stored (CategoryKey "highlights") s'
       = [withContextMessages 0 (messageOf sampleEnvironment sampleHighlight initial)].
Proof.
  destruct (cacheMessage_spec sampleEnvironment sampleHighlight initial)
    as (s' & Hrun & _); [simpl; lia | apply wellFormed_initial |].
  destruct (message_is_filed_by_relationship_and_highlight sampleEnvironment
              sampleHighlight initial s' Hrun) as (_ & Hnone & Hhl & _).
  exists s'. split; [exact Hrun|]. split.
  - apply Hnone. simpl; lia.
  - rewrite Hhl by discriminate. reflexivity.
Defined.


(** X5.  A call changes only the caches it names: the caches of the
    channels it does not work on are left alone, channel events reach no
    user or category cache, and a user or category message leaves the
    other users and categories as they are. *)
Theorem calls_stay_within_their_caches
    (E : environment) (c : call) (s s' : state) :
  step E s c = Some s' ->
  (forall other, targetChannel c <> Some other ->
     getChannelCache other s' = getChannelCache other s)
  /\ ((forall a, c <> CacheMessage a) -> (forall u m, c <> CacheUserMessage u m) ->
      userCaches s' = userCaches s)
  /\ ((forall a, c <> CacheMessage a) -> (forall g m, c <> CacheCategoryMessage g m) ->
      categoryCaches s' = categoryCaches s)
  /\ (forall u m, c = CacheUserMessage u m ->
       forall other, other <> u -> getUserCache other s' = getUserCache other s)
  /\ (forall g m, c = CacheCategoryMessage g m ->
       forall other, other <> g -> getCategoryCache other s' = getCategoryCache other s).
Proof.
  intros Hstep. unfold getChannelCache, getUserCache, getCategoryCache.
  destruct c as [a|channel data|channel data|username msg|cat msg];
    cbn [step targetChannel] in *.
  - destruct (cacheMessage_caches E a s s' Hstep) as (Hc & _).
    repeat split; try congruence.
    + intros other Hne. rewrite Hc. apply lookup_insert_ne. congruence.
    + intros H. now destruct (H a).
    + intros H. now destruct (H a).
  - injection Hstep as <-.
    destruct (cacheChannelEvent_caches E channel data s) as (Hc & Hu & Hg).
    repeat split; try congruence.
    intros other Hne. rewrite Hc. apply lookup_insert_ne. congruence.
  - injection Hstep as <-.
    destruct (cacheBunchable_caches E channel data s) as (Hc & Hu & Hg).
    repeat split; try congruence.
    intros other Hne. apply Hc. congruence.
  - injection Hstep as <-.
    destruct (cacheUserMessage_caches E username msg s) as (Hc & Hu & Hg).
    repeat split; try congruence.
    + intros _ H. now destruct (H username msg).
    + intros u m [= -> ->] other Hne. rewrite Hu. now apply lookup_insert_ne.
  - injection Hstep as <-.
    destruct (cacheCategoryMessage_caches E cat msg s) as (Hc & Hu & Hg).
    repeat split; try congruence.
    + intros _ H. now destruct (H cat msg).
    + intros g m [= -> ->] other Hne. rewrite Hg. now apply lookup_insert_ne.
Qed.

Lemma calls_stay_within_their_caches_witness :
  userCaches (cacheChannelEvent sampleEnvironment "alpha/x" sampleJoin initial)
  = userCaches initial.
Proof.
  destruct (calls_stay_within_their_caches sampleEnvironment
              (CacheChannelEvent "alpha/x" sampleJoin) initial
              (cacheChannelEvent sampleEnvironment "alpha/x" sampleJoin initial))
    as (_ & Hu & _).
  - reflexivity.
  - apply Hu; discriminate.
Defined.


(** *** What reaches the database at once *)

Section Writes.

Variable E : environment.

Lemma wrote_same s s' :
  channelIdCache s' = channelIdCache s -> outbox s' = outbox s -> wrote [] s s'.
Proof. intros H1 H2. split; [assumption|]. exists []. now rewrite app_nil_r. Qed.

Lemma wrote_trans w1 w2 s1 s2 s3 :
  wrote w1 s1 s2 -> wrote w2 s2 s3 -> wrote (w1 ++ w2) s1 s3.
Proof.
  intros (H1 & n1 & O1 & F1) (H2 & n2 & O2 & F2). split; [congruence|].
  exists (n1 ++ n2). rewrite O2, O1, <- app_assoc. split; [reflexivity|].
  now rewrite List.filter_app, F1, F2.
Qed.

Lemma wrote_quiet s1 s2 s3 w :
  wrote [] s1 s2 -> wrote w s2 s3 -> wrote w s1 s3.
Proof. intros H1 H2. exact (wrote_trans [] w _ _ _ H1 H2). Qed.

Lemma wrote_then_quiet s1 s2 s3 w :
  wrote w s1 s2 -> wrote [] s2 s3 -> wrote w s1 s3.
Proof.
  intros H1 H2. pose proof (wrote_trans w [] _ _ _ H1 H2) as H.
  now rewrite app_nil_r in H.
Qed.

Lemma wrote_emit e s : isStore e = false -> wrote [] s (emit e s).
Proof.
  intros He. split; [reflexivity|]. exists [e]. split; [reflexivity|].
  simpl. now rewrite He.
Qed.

Lemma wrote_io e s :
  isStore e = false -> wrote [] s (if io E then emit e s else s).
Proof.
  intros He. destruct (io E); [now apply wrote_emit | now apply wrote_same].
Qed.

Lemma cacheChannelEvent_wrote channel data s :
  wrote (written E channel data s) s (cacheChannelEvent E channel data s).
Proof.
  unfold cacheChannelEvent, written. cbv zeta.
  set (s1 := setChannelCaches _ s).
  eapply wrote_then_quiet; [|apply wrote_io; reflexivity].
  change (channelIdCache s !! channel) with (channelIdCache s1 !! channel).
  assert (H1 : wrote [] s s1) by now apply wrote_same.
  eapply wrote_quiet; [exact H1|].
  destruct (logLinesDb E); [|now apply wrote_same].
  unfold storeLine. destruct (channelIdCache s1 !! channel) as [id|];
    [|now apply wrote_same].
  split; [reflexivity|]. now exists [DbStoreLine id data].
Qed.

Lemma cacheUserMessage_wrote username msg s :
  wrote [] s (cacheUserMessage E username msg s).
Proof.
  unfold cacheUserMessage. cbv zeta.
  eapply wrote_quiet; [|apply wrote_emit; reflexivity]. now apply wrote_same.
Qed.

Lemma cacheCategoryMessage_wrote categoryName msg s :
  wrote [] s (cacheCategoryMessage E categoryName msg s).
Proof.
  unfold cacheCategoryMessage. cbv zeta.
  set (s1 := setCategoryCaches _ s).
  set (s2 := emit (EmitToCategoryRecipients categoryName msg) s1).
  assert (H2 : wrote [] s s2).
  { eapply wrote_quiet; [|apply wrote_emit; reflexivity]. now apply wrote_same. }
  destruct (_ && _); [|assumption].
  eapply wrote_quiet; [exact H2|].
  eapply wrote_quiet; [apply (wrote_emit (UnseenHighlightIdsAdd (lineId msg))); reflexivity|].
  set (s3 := emit (UnseenHighlightIdsAdd (lineId msg)) s2).
  eapply wrote_quiet; [apply (wrote_same s3 (createCurrentHighlightContext
                                 (channel msg) msg s3)); reflexivity|].
  destruct (io E); [|now apply wrote_same].
  eapply wrote_quiet; apply wrote_emit; reflexivity.
Qed.

Lemma addToCurrentHighlightContext_wrote channel msg s s' :
  addToCurrentHighlightContext E channel msg s = Some s' -> wrote [] s s'.
Proof.
  unfold addToCurrentHighlightContext.
  destruct (currentHighlightContexts s !! channel) as [[|h hs]|];
    try (intros [= <-]; now apply wrote_same).
  destruct (pushToContexts E msg (h :: hs) (contextArrays s))
    as [[surviving arrays]|]; [|discriminate].
  simpl. intros [= <-].
  eapply wrote_quiet; [|apply wrote_emit; reflexivity]. now apply wrote_same.
Qed.

Lemma replaced_wrote channel bunch s :
  wrote [] s
    (let s1 := replaceLastCacheItem E channel bunch
                 (setUuidCount (S (uuidCount s)) s) in
     if io E then emit (IoEmitEventToChannel channel bunch) s1 else s1).
Proof.
  cbv zeta. eapply wrote_quiet; [|apply wrote_io; reflexivity].
  destruct (replaceLastCacheItem_frame E channel bunch
              (setUuidCount (S (uuidCount s)) s)) as (i & d & ->).
  apply wrote_same; simpl;
    (destruct (channelCaches s !! channel) as [cache|];
     [destruct (0 <? length cache)|]; reflexivity).
Qed.

Lemma cacheBunchable_wrote channel data s :
  wrote (writtenBy E (CacheBunchableChannelEvent channel data) s) s
        (cacheBunchableChannelEvent E channel data s).
Proof.
  unfold writtenBy, bunches, cacheBunchableChannelEvent.
  change (last (default [] (channelCaches s !! channel))) with (tailOf channel s).
  destruct (tailOf channel s) as [t|]; [|apply cacheChannelEvent_wrote].
  destruct (bool_decide (type t ∈ _)); [apply replaced_wrote|].
  destruct (bool_decide (type t = "events")); [apply replaced_wrote|].
  apply cacheChannelEvent_wrote.
Qed.

Lemma cacheMessage_wrote a s s' :
  cacheMessageWith E a s = Some s' ->
  wrote (written E (channelUri a) (messageOf E a s) s) s s'.
Proof.
  unfold cacheMessageWith, cacheMessage.
  change (newMessage E _ _ _ _ _ _ _ _ _ _ _ s) with (messageOf E a s).
  set (msg := messageOf E a s).
  set (hl := 0 <? length (highlightStrings a)).
  set (s2 := if hl then _ else _).
  assert (H2 : wrote [] s s2) by (subst s2; destruct hl; now apply wrote_same).
  assert (Hid : channelIdCache s2 = channelIdCache s) by apply H2.
  pose proof (cacheChannelEvent_wrote (channelUri a) msg s2) as H3.
  set (s3 := cacheChannelEvent E (channelUri a) msg s2) in *.
  unfold written in H3. rewrite Hid in H3. fold (written E (channelUri a) msg s) in H3.
  destruct (addToCurrentHighlightContext E (channelUri a) msg s3) as [s4|] eqn:Hrun4;
    [|discriminate].
  pose proof (addToCurrentHighlightContext_wrote _ _ _ _ Hrun4) as H4.
  cbn [mbind option_bind]. intros [= <-].
  eapply wrote_quiet; [exact H2|].
  eapply wrote_then_quiet; [exact H3|].
  eapply wrote_quiet; [exact H4|].
  set (s5 := if RELATIONSHIP_FRIEND E <=? withRelationship a then _ else s4).
  assert (H5 : wrote [] s4 s5).
  { subst s5. destruct (_ <=? _); [|now apply wrote_same].
    eapply wrote_quiet; [apply cacheUserMessage_wrote|].
    apply cacheCategoryMessage_wrote. }
  eapply wrote_quiet; [exact H5|].
  destruct hl; [apply cacheCategoryMessage_wrote | now apply wrote_same].
Qed.

End Writes.




(** *** The size of a highlight's context *)

Section ContextSize.

Variable E : environment.

(** [cacheMessage] leaves alone every context array but the one it
    allocates and those of the highlights open on its channel. *)
Lemma cacheMessage_array_frame a s s' r :
  cacheMessageWith E a s = Some s' ->
  (highlightStrings a <> [] -> r <> nextArray s) ->
  (forall h, h ∈ openOn (channelUri a) s -> contextMessages h <> Some r) ->
  contextArrays s' !! r = contextArrays s !! r.
Proof.
  unfold cacheMessageWith, cacheMessage.
  change (newMessage E _ _ _ _ _ _ _ _ _ _ _ s) with (messageOf E a s).
  set (msg := messageOf E a s).
  set (hl := 0 <? length (highlightStrings a)).
  set (s2 := if hl then _ else _).
  intros Hrun Hnew Hno.
  assert (H2 : (forall c, openOn c s2 = openOn c s)
               /\ contextArrays s2 !! r = contextArrays s !! r).
  { subst s2. destruct hl eqn:Hhl; simpl; repeat split.
    apply lookup_insert_ne. intros <-. apply Hnew; [|reflexivity].
    subst hl. apply Nat.ltb_lt in Hhl. intros Hnil. rewrite Hnil in Hhl.
    simpl in Hhl. lia. }
  destruct H2 as (Ho2 & Ha2).
  pose proof (cacheChannelEvent_sameContexts E (channelUri a) msg s2) as Hsame3.
  set (s3 := cacheChannelEvent E (channelUri a) msg s2) in *.
  destruct (addToCurrentHighlightContext E (channelUri a) msg s3) as [s4|] eqn:Hrun4;
    [|discriminate].
  destruct (addToCurrentHighlightContext_frame _ _ _ _ _ Hrun4)
    as (_ & _ & _ & Hframe4 & _).
  cbn [mbind option_bind] in Hrun. injection Hrun as <-.
  set (s5 := if RELATIONSHIP_FRIEND E <=? withRelationship a then _ else s4).
  assert (Hsame5 : sameContexts s4 s5).
  { subst s5. destruct (_ <=? _); [|repeat split].
    eapply sameContexts_trans; [apply cacheUserMessage_sameContexts|].
    apply cacheCategoryMessage_sameContexts. discriminate. }
  pose proof Hsame3 as (_ & Ha3 & _).
  pose proof Hsame5 as (_ & Ha5 & _).
  assert (Hat5 : contextArrays s5 !! r = contextArrays s !! r).
  { rewrite Ha5, Hframe4, Ha3; [assumption|].
    intros h Hin. apply Hno.
    now rewrite <- Ho2, <- (sameContexts_openOn _ _ _ Hsame3). }
  destruct hl; [|assumption].
  destruct (cacheCategoryMessage_highlights E (withContextMessages (nextArray s) msg) s5)
    as (Ha6 & _).
  now rewrite Ha6.
Qed.

Lemma cacheMessage_bounded a s :
  0 < CONTEXT_CACHE_LINES E ->
  wellFormed E s -> contextsBounded E s ->
  exists s',
    cacheMessageWith E a s = Some s' /\ wellFormed E s' /\ contextsBounded E s'.
Proof.
  intros HN Hwf Hb.
  destruct (cacheMessage_spec E a s HN Hwf) as (s' & Hrun & Hwf' & _ & Hgrow & Hnew).
  exists s'. split; [assumption|]. split; [assumption|].
  intros r arr' Hat.
  destruct (decide (Some r ∈ contextMessages <$> openOn (channelUri a) s))
    as [Hopen|Hclosed].
  - apply list_elem_of_fmap in Hopen as (h & Href & Hin).
    destruct (wf_array E s Hwf _ _ Hin) as (ref & arr & Href' & _ & Harr & Hlen).
    assert (ref = r) as -> by congruence.
    destruct (Hgrow h r arr Hin Href' Harr) as (Hat' & _).
    rewrite Hat' in Hat. injection Hat as <-.
    rewrite length_app. simpl. lia.
  - assert (Hno : forall h, h ∈ openOn (channelUri a) s -> contextMessages h <> Some r).
    { intros h Hin Href. apply Hclosed. apply list_elem_of_fmap. eauto. }
    destruct (decide (highlightStrings a <> [] /\ r = nextArray s)) as [[Hhl ->]|Hold].
    + destruct (Hnew Hhl) as (Hat' & _). rewrite Hat' in Hat. injection Hat as <-.
      rewrite sliceLast_length. lia.
    + apply (Hb r). rewrite <- Hat. symmetry.
      apply (cacheMessage_array_frame a s s' r Hrun); [|assumption].
      intros Hhl ->. apply Hold. now split.
Qed.

Lemma step_bounded c s :
  0 < CONTEXT_CACHE_LINES E ->
  wellFormed E s -> contextsBounded E s ->
  feedsOtherCategory c ->
  exists s', step E s c = Some s' /\ wellFormed E s' /\ contextsBounded E s'.
Proof.
  intros HN Hwf Hb Hfeeds.
  assert (Hcase : (exists a, c = CacheMessage a) \/ forall a, c <> CacheMessage a)
    by (destruct c; [left; eauto | right; discriminate..]).
  destruct Hcase as [[a ->]|Hnot].
  - now apply cacheMessage_bounded.
  - destruct (step_total E c s HN Hwf Hfeeds) as (s' & Hstep & Hwf').
    exists s'. split; [assumption|]. split; [assumption|].
    destruct (step_sameContexts E c s s' Hnot Hfeeds Hstep) as (_ & Ha & _).
    intros r arr. rewrite Ha. apply Hb.
Qed.

Lemma steps_bounded calls : forall s,
  0 < CONTEXT_CACHE_LINES E ->
  wellFormed E s -> contextsBounded E s ->
  Forall feedsOtherCategory calls ->
  exists s', steps E s calls = Some s' /\ wellFormed E s' /\ contextsBounded E s'.
Proof.
  induction calls as [|c calls IH]; intros s HN Hwf Hb Hall.
  - exists s. split; [reflexivity|]. now split.
  - apply Forall_cons in Hall as [Hc Hall].
    destruct (step_bounded c s HN Hwf Hb Hc) as (s1 & Hstep & Hwf1 & Hb1).
    destruct (IH s1 HN Hwf1 Hb1 Hall) as (s' & Hrun & Hwf' & Hb').
    exists s'. split; [|now split]. simpl. now rewrite Hstep.
Qed.

End ContextSize.




End CacheMore.

(** ** The connection module, continued *)

Module IrcControlFacts.
Import Irc IrcFacts IrcControl.

Lemma find_lookup serverName s i c :
  findClientByServerName serverName s = Some (i, c) ->
  clients s !! i = Some c /\ extConfigName c = Some serverName.
Proof.
  unfold findClientByServerName. rewrite list_find_Some.
  intros (Hi & Hname & _). now split.
Qed.

Lemma abortClient_spec serverName s i c st :
  findClientByServerName serverName s = Some (i, c) ->
  let s1 := abortClient i st s in
  clients s1 = <[i := Client (Some serverName) (channels c) true]> (clients s)
  /\ multiServerChannels s1 = multiServerChannels s
  /\ calls s1 = calls s ++ [MainHandleIrcConnectionStateChange serverName ABORTED]
  /\ findClientByServerName serverName s1
     = Some (i, Client (Some serverName) (channels c) true).
Proof.
  intros Hfind s1. destruct (find_lookup _ _ _ _ Hfind) as [Hi Hname].
  assert (Hlt : i < length (clients s)) by now apply lookup_lt_Some in Hi.
  pose proof (find_after_flag serverName s i c true Hfind) as Hfind1.
  rewrite Hname in Hfind1.
  subst s1. unfold abortClient. rewrite Hi, Hname.
  unfold handleConnectionStateChange. cbn [clients setClient].
  rewrite list_lookup_insert_eq by assumption.
  cbn [pyramidAborted clientServerName extConfigName call clients
       multiServerChannels calls].
  repeat split. exact Hfind1.
Qed.

Lemma onConnect_spec serverName s i c :
  findClientByServerName serverName s = Some (i, c) ->
  let s1 := onConnect i s in
  clients s1 = <[i := Client (Some serverName) (channels c) false]> (clients s)
  /\ multiServerChannels s1 = multiServerChannels s
  /\ calls s1 = calls s ++ [MainHandleIrcConnectionStateChange serverName CONNECTED;
                            PluginsConnect i]
  /\ findClientByServerName serverName s1
     = Some (i, Client (Some serverName) (channels c) false).
Proof.
  intros Hfind s1. destruct (find_lookup _ _ _ _ Hfind) as [Hi Hname].
  assert (Hlt : i < length (clients s)) by now apply lookup_lt_Some in Hi.
  pose proof (find_after_flag serverName s i c false Hfind) as Hfind1.
  rewrite Hname in Hfind1.
  subst s1. unfold onConnect. rewrite Hi, Hname.
  unfold handleConnectionStateChange. cbn [clients setClient].
  rewrite list_lookup_insert_eq by assumption.
  cbn [pyramidAborted clientServerName extConfigName call clients
       multiServerChannels calls].
  rewrite <- app_assoc. repeat split. exact Hfind1.
Qed.

Lemma disconnectServer_spec serverName s i c :
  findClientByServerName serverName s = Some (i, c) ->
  let s1 := disconnectServer serverName s in
  clients s1 = <[i := Client (Some serverName) (channels c) true]> (clients s)
  /\ multiServerChannels s1 = multiServerChannels s
  /\ calls s1 = calls s ++ [MainHandleIrcConnectionStateChange serverName ABORTED;
                            ClientDisconnect i]
  /\ findClientByServerName serverName s1
     = Some (i, Client (Some serverName) (channels c) true).
Proof.
  intros Hfind s1.
  destruct (abortClient_spec serverName s i c ABORTED Hfind) as (Hc & Hm & Hl & Hf).
  subst s1. unfold disconnectServer. rewrite Hfind.
  cbn [call clients multiServerChannels calls].
  rewrite Hc, Hm, Hl, <- app_assoc. repeat split. exact Hf.
Qed.




(** What the listeners of a client report while its flag stands as
    [flag]: nothing of the state but the trace changes. *)
Lemma listen_run events : forall serverName s i c,
  clients s !! i = Some c ->
  extConfigName c = Some serverName ->
  let s' := foldl (listen i) s events in
  clients s' = clients s
  /\ multiServerChannels s' = multiServerChannels s
  /\ calls s' = calls s ++
       ((fun e => MainHandleIrcConnectionStateChange serverName
                    (if pyramidAborted c then ABORTED else reported e)) <$> events).
Proof.
  induction events as [|e events IH]; intros serverName s i c Hi Hname; cbv zeta.
  - simpl. now rewrite app_nil_r.
  - cbn [foldl].
    assert (H1 : listen i s e =
                 call (MainHandleIrcConnectionStateChange serverName
                         (if pyramidAborted c then ABORTED else reported e)) s).
    { unfold listen, handleConnectionStateChange, clientServerName.
      now rewrite Hi, Hname. }
    rewrite H1.
    destruct (IH serverName (call (MainHandleIrcConnectionStateChange serverName
                         (if pyramidAborted c then ABORTED else reported e)) s)
                i c Hi Hname) as (Hc & Hm & Hl).
    rewrite Hc, Hm, Hl. cbn [call clients multiServerChannels calls fmap list_fmap].
    now rewrite <- app_assoc.
Qed.




Lemma delete_insert_same {A} (l : list A) i x : delete i (<[i := x]> l) = delete i l.
Proof.
  apply list_eq. intros j. rewrite !list_lookup_delete.
  destruct (decide (j < i)); apply list_lookup_insert_ne; lia.
Qed.

Lemma find_after_removal serverName other s i c j d :
  findClientByServerName serverName s = Some (i, c) ->
  other <> serverName ->
  findClientByServerName other s = Some (j, d) ->
  list_find (fun c => clientServerName c = Some other) (delete i (clients s))
  = Some (if j <? i then j else j - 1, d).
Proof.
  unfold findClientByServerName. rewrite !list_find_Some.
  intros (Hi & Hn & _) Hne (Hj & Hm & Hfirst).
  assert (Hji : j <> i).
  { intros ->. rewrite Hi in Hj. injection Hj as <-.
    rewrite Hn in Hm. congruence. }
  destruct (j <? i) eqn:Hlt.
  - apply Nat.ltb_lt in Hlt. split; [|split; [assumption|]].
    + now rewrite list_lookup_delete_lt.
    + intros k y Hk Hkj. rewrite list_lookup_delete_lt in Hk by lia.
      now apply (Hfirst k).
  - apply Nat.ltb_ge in Hlt. split; [|split; [assumption|]].
    + rewrite list_lookup_delete_ge by lia.
      now replace (S (j - 1)) with j by lia.
    + intros k y Hk Hkj. rewrite list_lookup_delete in Hk.
      destruct (decide (k < i)); [apply (Hfirst k) | apply (Hfirst (S k))];
        (assumption || lia).
Qed.

Lemma removeServer_state serverName s i c :
  findClientByServerName serverName s = Some (i, c) ->
  removeServer serverName s
  = State (delete i (clients s)) (multiServerChannels s)
          (calls s ++ [MainHandleIrcConnectionStateChange serverName ABORTED;
                       ClientDisconnect i]).
Proof.
  intros Hfind.
  destruct (disconnectServer_spec serverName s i c Hfind) as (Hc1 & Hm1 & Hl1 & _).
  unfold removeServer. rewrite Hfind. cbv zeta.
  now rewrite Hc1, Hm1, Hl1, delete_insert_same.
Qed.

Lemma removed_not_found serverName s i c :
  findClientByServerName serverName s = Some (i, c) ->
  NoDup (serverNames s) ->
  list_find (fun c => clientServerName c = Some serverName) (delete i (clients s))
  = None.
Proof.
  intros Hfind Hnd. apply list_find_None.
  apply Forall_lookup. intros k y Hk Hy.
  destruct (find_lookup _ _ _ _ Hfind) as [Hi Hn].
  rewrite list_lookup_delete in Hk.
  set (k' := if decide (k < i) then k else S k) in Hk.
  assert (k' <> i) by (subst k'; destruct (decide (k < i)); lia).
  assert (k' = i); [|contradiction].
  apply (NoDup_lookup (serverNames s) k' i (Some serverName) Hnd);
    unfold serverNames; rewrite list_lookup_fmap.
  - rewrite Hk. simpl. now f_equal.
  - rewrite Hi. simpl. now f_equal.
Qed.




(** *** Setting clients up *)

Lemma find_app_l serverName cs extra i c :
  list_find (fun c => clientServerName c = Some serverName) cs = Some (i, c) ->
  list_find (fun c => clientServerName c = Some serverName) (cs ++ extra) = Some (i, c).
Proof. intros H. apply list_find_app_Some. now left. Qed.

(** One entry of the configuration: at most one client is pushed, under
    a name no client went by. *)
Lemma connectUnconnected_step acc config :
  let acc' := connectUnconnected acc config in
  multiServerChannels (after acc') = multiServerChannels (after acc)
  /\ calls (after acc') = calls (after acc)
  /\ ((acc' = acc
       /\ forall cf, config = Some cf -> connectable cf ->
            exists n, name cf = Some n
                      /\ is_Some (findClientByServerName n (after acc)))
      \/ (exists cf n,
            config = Some cf /\ name cf = Some n /\ connectable cf
            /\ findClientByServerName n (after acc) = None
            /\ clients (after acc') =
                 clients (after acc) ++
                 [Client (Some n) (convertChannelObjects (channelNames cf)) false]
            /\ newNames acc' = newNames acc ++ [n]
            /\ logged acc' = logged acc ++
                 ["Connecting to " +:+ text (hostname cf) +:+ " as "
                  +:+ text (nickname cf)])).
Proof.
  cbv zeta. unfold connectUnconnected.
  destruct config as [cf|]; [|repeat split; left; split; [reflexivity|discriminate]].
  destruct (name cf) as [n|] eqn:Hn.
  2:{ repeat split. left. split; [reflexivity|].
      intros cf' [= <-] (n & Hn' & _). congruence. }
  destruct (truthy n) eqn:Ht.
  2:{ repeat split. left. split; [reflexivity|].
      intros cf' [= <-] (n' & Hn' & Ht' & _). congruence. }
  destruct (given (hostname cf)) eqn:Hh.
  2:{ repeat split. left. split; [reflexivity|].
      intros cf' [= <-] (n' & _ & _ & Hh'). congruence. }
  destruct (findClientByServerName n (after acc)) as [[i c]|] eqn:Hfind.
  - rewrite bool_decide_eq_true_2 by eauto. cbn [andb negb].
    repeat split. left. split; [reflexivity|].
    intros cf' [= <-] _. exists n. rewrite Hfind. eauto.
  - rewrite bool_decide_eq_false_2 by (intros [? ?]; discriminate).
    cbn [andb negb]. unfold initiateClient. rewrite Hh. cbn [after logged newNames].
    split; [reflexivity|]. split; [reflexivity|].
    right. exists cf, n. rewrite Hn.
    split; [reflexivity|]. split; [reflexivity|].
    split; [exists n; now rewrite Hn, Ht, Hh|].
    split; [assumption|]. split; [reflexivity|]. split; reflexivity.
Qed.

Lemma find_new_client serverName cs chs :
  list_find (fun c => clientServerName c = Some serverName) cs = None ->
  list_find (fun c => clientServerName c = Some serverName)
    (cs ++ [Client (Some serverName) chs false])
  = Some (length cs, Client (Some serverName) chs false).
Proof.
  intros Hnone. rewrite list_find_app_r by assumption.
  cbn [list_find clientServerName extConfigName].
  rewrite decide_True by reflexivity. reflexivity.
Qed.

Lemma serverNames_fresh serverName s :
  findClientByServerName serverName s = None ->
  Some serverName ∉ serverNames s.
Proof.
  unfold findClientByServerName, serverNames. rewrite list_find_None, Forall_forall.
  intros Hall Hin. apply list_elem_of_fmap in Hin as (c & Hc & Hin).
  now apply (Hall c Hin).
Qed.

(** A client made from an entry of the configuration. *)
Lemma connectUnconnected_run ircConfig : forall acc,
  let r := foldl connectUnconnected acc ircConfig in
  multiServerChannels (after r) = multiServerChannels (after acc)
  /\ calls (after r) = calls (after acc)
  /\ (exists added,
        clients (after r) = clients (after acc) ++ added
        /\ forall c, c ∈ added ->
             exists cf n,
               Some cf ∈ ircConfig /\ connectable cf /\ name cf = Some n
               /\ c = Client (Some n) (convertChannelObjects (channelNames cf)) false)
  /\ (NoDup (serverNames (after acc)) -> NoDup (serverNames (after r)))
  /\ (forall n i c,
        findClientByServerName n (after acc) = Some (i, c) ->
        findClientByServerName n (after r) = Some (i, c))
  /\ (forall cf, Some cf ∈ ircConfig -> connectable cf ->
        exists n, name cf = Some n /\ is_Some (findClientByServerName n (after r))).
Proof.
  induction ircConfig as [|config ircConfig IH]; intros acc; cbv zeta.
  - cbn [foldl]. split; [reflexivity|]. split; [reflexivity|]. split.
    { exists []. split; [now rewrite app_nil_r|]. intros c Hc. inversion Hc. }
    split; [tauto|]. split; [tauto|]. intros cf Hin. inversion Hin.
  - cbn [foldl].
    destruct (connectUnconnected_step acc config) as (Hm1 & Hl1 & Hstep).
    destruct (IH (connectUnconnected acc config))
      as (Hm & Hl & (added & Hc & Hadded) & Hnd & Hkeep & Hall).
    set (acc1 := connectUnconnected acc config) in *.
    set (r := foldl connectUnconnected acc1 ircConfig) in *.
    split; [congruence|]. split; [congruence|].
    destruct Hstep as [[Hsame Hknown]|(cf & n & -> & Hn & Hable & Hfresh & Hc1 & _)].
    + rewrite Hsame in *. split.
      { exists added. split; [assumption|]. intros c Hin.
        destruct (Hadded c Hin) as (cf & n & ? & ? & ? & ?).
        exists cf, n. split; [now right | tauto]. }
      split; [assumption|]. split; [assumption|].
      intros cf Hin Hable. apply elem_of_cons in Hin as [Heq|Hin]; [|now apply Hall].
      destruct (Hknown cf (eq_sym Heq) Hable) as (n & Hn & [[i c] Hfind]).
      exists n. split; [assumption|]. rewrite (Hkeep n i c Hfind). eauto.
    + split.
      { exists ([Client (Some n) (convertChannelObjects (channelNames cf)) false]
                  ++ added).
        split; [now rewrite Hc, Hc1, <- app_assoc|].
        intros c Hin. apply elem_of_app in Hin as [Hin|Hin].
        - apply list_elem_of_singleton in Hin. exists cf, n.
          split; [left | tauto].
        - destruct (Hadded c Hin) as (cf' & n' & ? & ? & ? & ?).
          exists cf', n'. split; [now right | tauto]. }
      split; [|split].
      * intros Hnd0. apply Hnd. unfold serverNames. rewrite Hc1, fmap_app.
        apply NoDup_app. split; [assumption|]. split; [|apply NoDup_singleton].
        intros x Hx Hx'. apply list_elem_of_singleton in Hx'. subst x.
        now apply (serverNames_fresh n (after acc)).
      * intros m i c Hfind. apply Hkeep. unfold findClientByServerName.
        rewrite Hc1. now apply find_app_l.
      * intros cf' Hin Hable'.
        apply elem_of_cons in Hin as [[= <-]|Hin]; [|now apply Hall].
        exists n. split; [assumption|].
        erewrite Hkeep; [eauto|]. unfold findClientByServerName. rewrite Hc1.
        now apply find_new_client.
Qed.

(** Nothing is taken up when every entry that could be already has its
    client. *)
Lemma connectUnconnected_settled ircConfig : forall acc,
  (forall cf, Some cf ∈ ircConfig -> connectable cf ->
     exists n, name cf = Some n /\ is_Some (findClientByServerName n (after acc))) ->
  foldl connectUnconnected acc ircConfig = acc.
Proof.
  induction ircConfig as [|config ircConfig IH]; intros acc Hall; [reflexivity|].
  cbn [foldl].
  assert (Hstep : connectUnconnected acc config = acc).
  { destruct (connectUnconnected_step acc config) as (_ & _ & [[H _]|H]);
      [assumption|].
    destruct H as (cf & n & -> & Hn & Hable & Hfresh & _).
    destruct (Hall cf (list_elem_of_here _ _) Hable) as (n' & Hn' & [x Hx]).
    congruence. }
  rewrite Hstep. apply IH. intros cf Hin. apply Hall. now right.
Qed.

Lemma calibrate_twice s :
  calibrateMultiServerChannels (calibrateMultiServerChannels s)
  = calibrateMultiServerChannels s.
Proof. reflexivity. Qed.

(** X11.  [connectUnconnectedClients] only adds clients, behind those
    there are, and makes no call to them: distinct server names stay
    distinct, a server that had a client keeps it at its position, every
    entry of the configuration with a name and a host has a client
    afterwards, the multi-server channels are recalibrated, and running it
    again on the result adds and logs nothing. *)
Theorem connectUnconnectedClients_one_client_per_name
    (ircConfig : list (option serverConfig)) (s : state) :
  let r := connectUnconnectedClients ircConfig s in
  (exists added, clients (after r) = clients s ++ added)
  /\ calls (after r) = calls s
  /\ (NoDup (serverNames s) -> NoDup (serverNames (after r)))
  /\ (forall n i c,
        findClientByServerName n s = Some (i, c) ->
        findClientByServerName n (after r) = Some (i, c))
  /\ (forall cf, Some cf ∈ ircConfig -> connectable cf ->
        exists n, name cf = Some n /\ is_Some (findClientByServerName n (after r)))
  /\ (forall ch, ch ∈ multiServerChannels (after r)
                 <-> repeated ch (flat_map channels (clients (after r))))
  /\ connectUnconnectedClients ircConfig (after r) = SetUp [] [] (after r).
Proof.
  intros r.
  destruct (connectUnconnected_run ircConfig (SetUp [] [] s))
    as (Hm & Hl & (added & Hc & _) & Hnd & Hkeep & Hall).
  set (r0 := foldl connectUnconnected (SetUp [] [] s) ircConfig) in *.
  assert (Hr : after r = calibrateMultiServerChannels (after r0)) by reflexivity.
  cbn [after] in Hl, Hc, Hnd, Hkeep.
  rewrite Hr.
  split; [now exists added|]. split; [exact Hl|]. split; [exact Hnd|].
  split; [exact Hkeep|]. split; [exact Hall|]. split.
  - intros ch. apply (calibrate_repeated ch (after r0)).
  - unfold connectUnconnectedClients.
    rewrite connectUnconnected_settled; [reflexivity|].
    intros cf Hin Hable. exact (Hall cf Hin Hable).
Qed.

(** X12.  A changed server is replaced: after [removeServer] and
    [connectUnconnectedClients], a server whose name has an entry with a
    host in the configuration is served by a client made from such an
    entry, with its channels and without the abort flag; the connection
    is logged, the server names are still distinct, and the only calls
    made are the report of the abort and the disconnection of the old
    client. *)
Theorem changed_server_gets_a_fresh_client
    (serverName : string) (ircConfig : list (option serverConfig))
    (s : state) (i : nat) (c : client) :
  findClientByServerName serverName s = Some (i, c) ->
  NoDup (serverNames s) ->
  (exists cf, Some cf ∈ ircConfig /\ connectable cf /\ name cf = Some serverName) ->
  let r := connectUnconnectedClients ircConfig (removeServer serverName s) in
  exists j cf,
    Some cf ∈ ircConfig /\ connectable cf /\ name cf = Some serverName
    /\ findClientByServerName serverName (after r)
       = Some (j, Client (Some serverName)
                    (convertChannelObjects (channelNames cf)) false)
    /\ NoDup (serverNames (after r))
    /\ calls (after r)
       = calls s ++ [MainHandleIrcConnectionStateChange serverName ABORTED;
                     ClientDisconnect i]
    /\ logged r <> [].
Proof.
  intros Hfind Hnd (cf0 & Hin0 & Hable0 & Hname0) r.
  pose proof (removeServer_state serverName s i c Hfind) as Hs1.
  pose proof (removed_not_found serverName s i c Hfind Hnd) as Hnone.
  set (s1 := removeServer serverName s) in *.
  assert (Hc1 : clients s1 = delete i (clients s)) by now rewrite Hs1.
  assert (Hnd1 : NoDup (serverNames s1)).
  { unfold serverNames. rewrite Hc1, list_fmap_delete.
    eapply sublist_NoDup; [exact Hnd | apply sublist_delete]. }
  destruct (connectUnconnected_run ircConfig (SetUp [] [] s1))
    as (_ & Hl & (added & Hc & Hadded) & Hnd' & _ & Hall).
  set (r0 := foldl connectUnconnected (SetUp [] [] s1) ircConfig) in *.
  cbn [after] in Hl, Hc, Hnd'.
  destruct (Hall cf0 Hin0 Hable0) as (n & Hn & [[j c'] Hfound]).
  assert (n = serverName) as -> by congruence.
  pose proof Hfound as Hfound'.
  unfold findClientByServerName in Hfound'. apply list_find_Some in Hfound'.
  destruct Hfound' as (Hj & Hnamed & _).
  assert (Hin : c' ∈ added).
  { apply list_elem_of_lookup_2 in Hj. rewrite Hc in Hj.
    apply elem_of_app in Hj as [Hold|Hnew]; [|assumption].
    rewrite Hc1 in Hold.
    destruct (list_find_elem_of (fun c => clientServerName c = Some serverName)
                _ c' Hold Hnamed) as [x Hx].
    rewrite Hnone in Hx. discriminate. }
  destruct (Hadded c' Hin) as (cf & n' & Hcf & Hable & Hn' & ->).
  cbn [clientServerName extConfigName] in Hnamed. injection Hnamed as ->.
  exists j, cf. split; [assumption|]. split; [assumption|]. split; [assumption|].
  split; [exact Hfound|]. split; [now apply Hnd'|]. split.
  - change (calls (after r)) with (calls (after r0)). rewrite Hl. now rewrite Hs1.
  - change (logged r) with (logged r0). intros Hlog.
    assert (Hlen : forall configs acc,
              length (logged (foldl connectUnconnected acc configs))
              = length (logged acc)
                + (length (clients (after (foldl connectUnconnected acc configs)))
                   - length (clients (after acc)))).
    { induction configs as [|config configs IHc]; intros acc; cbn [foldl]; [lia|].
      rewrite IHc.
      destruct (connectUnconnected_run configs (connectUnconnected acc config))
        as (_ & _ & (more & Hmore & _) & _).
      cbv zeta in Hmore. rewrite Hmore, length_app.
      destruct (connectUnconnected_step acc config)
        as (_ & _ & [[-> _]|(? & ? & _ & _ & _ & _ & Hcl & _ & Hlg)]).
      - lia.
      - rewrite Hcl, Hlg, !length_app. cbn [length]. lia. }
    specialize (Hlen ircConfig (SetUp [] [] s1)). fold r0 in Hlen.
    rewrite Hlog, Hc, length_app in Hlen. cbn [logged after length] in Hlen.
    destruct added; [inversion Hin | cbn [length] in Hlen; lia].
Qed.

Lemma changed_server_gets_a_fresh_client_witness :
  exists j,
    findClientByServerName "beta"
      (after (connectUnconnectedClients sampleConfig (removeServer "beta" sampleState)))
    = Some (j, Client (Some "beta") ["#lobby"] false).
Proof.
  destruct (changed_server_gets_a_fresh_client "beta" sampleConfig sampleState 1
              (Client (Some "beta") ["#general"] true))
    as (j & cf & Hin & _ & _ & Hfind & _).
  - reflexivity.
  - repeat constructor; compute_done.
  - eexists. split; [left|]. split; [|reflexivity].
    exists "beta". repeat split.
  - exists j. rewrite Hfind.
    apply list_elem_of_singleton in Hin. injection Hin as ->. reflexivity.
Defined.


(** *** Requests to the IRC library *)

#[local] Arguments String.append !_ _ / : simpl nomatch.

Lemma formatChannelName_hash rest :
  formatChannelName (String "#" rest) = String "#" rest.
Proof. reflexivity. Qed.

Lemma formatChannelName_plain channelName :
  (forall rest, channelName <> String "#" rest) ->
  formatChannelName channelName = String "#" channelName.
Proof.
  intros Hno. unfold formatChannelName.
  destruct channelName as [|a rest]; [reflexivity|].
  destruct (Ascii.eqb_spec a "#") as [->|Hne]; [now destruct (Hno rest)|].
  destruct a as [[] [] [] [] [] [] [] []]; try reflexivity. now destruct Hne.
Qed.

(** X13.  [formatChannelName] gives a name that starts with "#" and is
    left alone when formatted again.  A name without a leading "#" is
    joined and parted as the name with one, and is listed by
    [convertChannelObjects] under that same name; a name that is
    configured with its "#" is listed with two. *)
Theorem channel_names_get_one_hash (channelName : string) :
  (exists rest, formatChannelName channelName = String "#" rest)
  /\ formatChannelName (formatChannelName channelName) = formatChannelName channelName
  /\ ((forall rest, channelName <> String "#" rest) ->
      formatChannelName (String "#" channelName) = formatChannelName channelName
      /\ convertChannelObjects [channelName] = [formatChannelName channelName]
      /\ forall serverName s,
           joinChannel serverName (String "#" channelName) s
           = joinChannel serverName channelName s
           /\ partChannel serverName (String "#" channelName) s
             = partChannel serverName channelName s)
  /\ (forall rest, channelName = String "#" rest ->
      formatChannelName channelName = channelName
      /\ convertChannelObjects [channelName] = [String "#" channelName]
      /\ convertChannelObjects [channelName] <> [formatChannelName channelName]).
Proof.
  assert (Hcase : (exists rest, channelName = String "#" rest)
                  \/ forall rest, channelName <> String "#" rest).
  { destruct channelName as [|a rest]; [right; discriminate|].
    destruct (Ascii.eqb_spec a "#") as [->|Hne]; [left; eauto|].
    right. intros rest' [= ? ?]. contradiction. }
  split; [|split; [|split]].
  - destruct Hcase as [[rest ->]|Hno]; [eauto|].
    rewrite formatChannelName_plain by assumption. eauto.
  - destruct Hcase as [[rest ->]|Hno]; [reflexivity|].
    now rewrite (formatChannelName_plain channelName Hno).
  - intros Hno. rewrite (formatChannelName_plain channelName Hno).
    split; [reflexivity|]. split; [reflexivity|].
    intros serverName s. unfold joinChannel, partChannel.
    rewrite formatChannelName_hash, (formatChannelName_plain channelName Hno).
    now split.
  - intros rest ->. split; [reflexivity|]. split; [reflexivity|].
    cbn. intros [= H]. apply (f_equal String.length) in H. simpl in H. lia.
Qed.

Section Outgoing.

Variable U : util.

(** The "/me" prefix with its whitespace is matched whole. *)
Lemma meRegex_match (ws rest : string) :
  Log.allOf Log.space ws = true -> ws <> "" -> Log.stopsAt Log.space rest = true ->
  Log.jsMatch meRegex ("/me" +:+ ws +:+ rest) = Some ("/me" +:+ ws, []).
Proof.
  intros Hws Hne Hstop. destruct ws as [|c ws]; [congruence|].
  cbn [Log.allOf] in Hws. apply andb_true_iff in Hws as [Hc Hws].
  unfold Log.jsMatch, meRegex. cbn [Log.seqs Log.run].
  simpl String.append. cbn [Log.litK]. rewrite !Ascii.eqb_refl. rewrite Hc.
  erewrite (LogFacts.starK_greedy Log.space ws rest); [reflexivity|assumption..|].
  f_equal. f_equal.
  change (String "/" (String "m" (String "e" (String c (ws +:+ rest)))))
    with (("/me" +:+ String c ws) +:+ rest).
  apply LogFacts.consumed_append.
Qed.

(** No match unless "/me" is followed by whitespace. *)
Lemma meRegex_no_match (message : string) :
  (forall c rest, message = "/me" +:+ String c rest -> Log.space c = false) ->
  Log.jsMatch meRegex message = None.
Proof.
  intros Hno. unfold Log.jsMatch, meRegex. cbn [Log.seqs Log.run].
  destruct message as [|a1 m1]; [reflexivity|]. cbn [Log.litK].
  destruct (Ascii.eqb_spec "/" a1) as [<-|]; [|reflexivity].
  destruct m1 as [|a2 m2]; [reflexivity|]. cbn [Log.litK].
  destruct (Ascii.eqb_spec "m" a2) as [<-|]; [|reflexivity].
  destruct m2 as [|a3 m3]; [reflexivity|]. cbn [Log.litK].
  destruct (Ascii.eqb_spec "e" a3) as [<-|]; [|reflexivity].
  destruct m3 as [|c rest]; [reflexivity|].
  now rewrite (Hno c rest eq_refl).
Qed.





(** Without a client for the server of the URI nothing is sent. *)
Lemma outgoing_message_without_client channelUri message isAction s :
  (forall serverName, channelServerNameFromUrl U channelUri = Some serverName ->
     findClientByServerName serverName s = None) ->
  sendOutgoingMessage U channelUri message isAction s = (false, []).
Proof.
  intros Hnone. unfold sendOutgoingMessage.
  destruct (channelServerNameFromUrl U channelUri) as [serverName|]; [|reflexivity].
  destruct (channelNameFromUrl U channelUri "#") as [channelName|]; [|reflexivity].
  rewrite (Hnone serverName eq_refl). now destruct (_ && _).
Qed.

End Outgoing.


End IrcControlFacts.

(** ** The first IRC watcher: caches and recipients *)

Module LegacyCacheFacts.
Import LegacyCache.

Section WithMessages.

Context {msg : Type}.
Implicit Types (m : msg) (s : state msg) (calls : list (call msg)).

Lemma cacheMessage_within cache m :
  length cache <= CACHE_LINES ->
  cacheMessage cache m = sliceLast CACHE_LINES (cache ++ [m]).
Proof.
  intros Hlen. unfold cacheMessage. cbv zeta.
  destruct (CACHE_LINES <? length (cache ++ [m])) eqn:Hover.
  - apply Nat.ltb_lt in Hover. rewrite length_app in Hover.
    cbn [length] in Hover.
    assert (Hfull : length cache = CACHE_LINES) by lia.
    assert ((length (cache ++ [m]) =? CACHE_LINES + 1) = true) as ->
      by (apply Nat.eqb_eq; rewrite length_app; cbn [length]; lia).
    rewrite sliceLast_rotate by (unfold CACHE_LINES in *; lia).
    unfold shift. destruct cache; [cbn [length] in Hfull; unfold CACHE_LINES in *; lia|].
    reflexivity.
  - apply Nat.ltb_ge in Hover. now rewrite sliceLast_all.
Qed.

Lemma cacheMessage_overlong cache m :
  CACHE_LINES < length cache -> cacheMessage cache m = cache ++ [m].
Proof.
  intros Hlen. unfold cacheMessage. cbv zeta.
  rewrite length_app. cbn [length].
  destruct (CACHE_LINES <? length cache + 1); [|reflexivity].
  assert ((length cache + 1 =? CACHE_LINES + 1) = false) as ->
    by (apply Nat.eqb_neq; lia).
  reflexivity.
Qed.

Lemma step_channelCache channelUrl s c :
  default [] (channelCaches (step s c) !! channelUrl) =
  match channelHistory channelUrl [c] with
  | m :: _ => cacheMessage (default [] (channelCaches s !! channelUrl)) m
  | [] => default [] (channelCaches s !! channelUrl)
  end.
Proof.
  destruct c as [u m|u m|u so|u so|u so|u so]; cbn; try reflexivity.
  case_bool_decide as Hu; cbn.
  - subst u. now rewrite lookup_insert_eq.
  - now rewrite lookup_insert_ne.
Qed.

Lemma run_channelCache channelUrl calls : forall s,
  length (default [] (channelCaches s !! channelUrl)) <= CACHE_LINES ->
  default [] (channelCaches (foldl step s calls) !! channelUrl) =
  sliceLast CACHE_LINES
    (default [] (channelCaches s !! channelUrl) ++ channelHistory channelUrl calls).
Proof.
  induction calls as [|c calls IH]; intros s Hlen.
  - cbn. rewrite app_nil_r. now rewrite sliceLast_all.
  - cbn [foldl].
    pose proof (step_channelCache channelUrl s c) as Hstep.
    assert (Hsplit : channelHistory channelUrl (c :: calls)
              = channelHistory channelUrl [c] ++ channelHistory channelUrl calls)
      by (unfold channelHistory; now rewrite <- omap_app).
    rewrite Hsplit. clear Hsplit.
    destruct (channelHistory channelUrl [c]) as [|m rest] eqn:Hc.
    + rewrite IH by now rewrite Hstep. now rewrite Hstep.
    + assert (rest = []) as ->.
      { destruct c; cbn in Hc; try discriminate.
        case_bool_decide; cbn in Hc; congruence. }
      rewrite (cacheMessage_within _ _ Hlen) in Hstep.
      rewrite IH; rewrite Hstep.
      * rewrite sliceLast_sliceLast_app. now rewrite <- app_assoc.
      * rewrite sliceLast_length. lia.
Qed.

(** *** Recipients *)

Lemma addRecipient_spec (lists : gmap string (list socket)) target so u :
  NoDup (default [] (lists !! u)) ->
  let sockets := default [] (addRecipient lists target so !! u) in
  NoDup sockets
  /\ forall r, r ∈ sockets <->
        (u = target /\ r = so) \/ r ∈ default [] (lists !! u).
Proof.
  intros Hnd. cbv zeta. unfold addRecipient.
  destruct (decide (u = target)) as [->|Hne].
  - rewrite lookup_insert_eq. cbn [default]. unfold id.
    case_bool_decide as Hin.
    + split; [assumption|]. intros r. split; [now right|].
      intros [[_ ->]| ?]; assumption.
    + split.
      * apply NoDup_app. split; [assumption|]. split; [|apply NoDup_singleton].
        intros x Hx Hx'. apply list_elem_of_singleton in Hx'. now subst.
      * intros r. rewrite elem_of_app, list_elem_of_singleton. split.
        -- intros [?| ->]; [now right | now left].
        -- intros [[_ ->]| ?]; [now right | now left].
  - rewrite lookup_insert_ne by congruence. split; [assumption|].
    intros r. split; [now right|]. intros [[? _]|?]; [congruence | assumption].
Qed.

Lemma removeRecipient_spec (lists : gmap string (list socket)) target so u :
  NoDup (default [] (lists !! u)) ->
  let sockets := default [] (removeRecipient lists target so !! u) in
  NoDup sockets
  /\ forall r, r ∈ sockets <->
        ~ (u = target /\ r = so) /\ r ∈ default [] (lists !! u).
Proof.
  intros Hnd. cbv zeta. unfold removeRecipient.
  destruct (lists !! target) as [sockets|] eqn:Ht.
  - destruct (decide (u = target)) as [->|Hne].
    + rewrite lookup_insert_eq, Ht in *. cbn [default] in *. unfold id in *.
      split; [now apply NoDup_filter|].
      intros r. rewrite list_elem_of_filter. split.
      * intros [Hr Hin]. split; [|assumption]. intros [_ ->]. now apply Hr.
      * intros [Hr Hin]. split; [|assumption]. intros ->. now apply Hr.
    + rewrite lookup_insert_ne by congruence. split; [assumption|].
      intros r. split; [|tauto]. intros Hin. split; [|assumption].
      intros [? _]. congruence.
  - split; [assumption|]. intros r. split; [|tauto].
    intros Hin. split; [|assumption]. intros [-> _].
    rewrite Ht in Hin. cbn in Hin. inversion Hin.
Qed.

Lemma subscribed_snoc channelUrl so calls (c : call msg) :
  subscribed channelUrl so (calls ++ [c]) =
  match c with
  | AddChannelRecipient u r =>
      if bool_decide (u = channelUrl /\ r = so) then true
      else subscribed channelUrl so calls
  | RemoveChannelRecipient u r =>
      if bool_decide (u = channelUrl /\ r = so) then false
      else subscribed channelUrl so calls
  | _ => subscribed channelUrl so calls
  end.
Proof. unfold subscribed. rewrite foldl_app. now destruct c. Qed.

(** The recipients of a channel after a run of calls: nobody twice, and
    the sockets whose last request was to be added. *)
Lemma run_recipients channelUrl calls :
  let sockets :=
    default [] (channelRecipients (foldl step (initial (msg := msg)) calls)
                  !! channelUrl) in
  NoDup sockets
  /\ forall so, so ∈ sockets <-> subscribed channelUrl so calls = true.
Proof.
  induction calls as [|c calls IH] using rev_ind; cbv zeta.
  - cbn. rewrite lookup_empty. cbn. split; [apply NoDup_nil_2|].
    intros so. split; [intros H; inversion H | discriminate].
  - rewrite foldl_app. cbn [foldl].
    cbv zeta in IH. destruct IH as [Hnd Hin].
    set (s := foldl step initial calls) in *.
    destruct c as [u m|u m|u r|u r|u r|u r]; cbn [step channelRecipients];
      try (split; [assumption|]; intros so; rewrite subscribed_snoc; apply Hin).
    + destruct (addRecipient_spec (channelRecipients s) u r channelUrl Hnd)
        as [Hnd' Hin'].
      split; [assumption|]. intros so. rewrite Hin', subscribed_snoc.
      case_bool_decide as Hd.
      * destruct Hd as [-> ->]. split; [reflexivity|]. intros _. now left.
      * rewrite Hin. split; [|now right].
        intros [[-> ->]|?]; [now destruct Hd | assumption].
    + destruct (removeRecipient_spec (channelRecipients s) u r channelUrl Hnd)
        as [Hnd' Hin'].
      split; [assumption|]. intros so. rewrite Hin', subscribed_snoc.
      case_bool_decide as Hd.
      * destruct Hd as [-> ->]. split; [|discriminate].
        intros [Hne _]. now destruct Hne.
      * rewrite Hin. split; [tauto|]. intros Hs. split; [|assumption].
        intros [-> ->]. now apply Hd.
Qed.

Lemma emit_once (sockets : list socket) m :
  NoDup sockets ->
  let new := emitMessageToRecipients (Some sockets) m in
  NoDup new
  /\ forall n m', (n, m') ∈ new <-> m' = m /\ Some n ∈ sockets.
Proof.
  intros Hnd. cbv zeta. unfold emitMessageToRecipients. split.
  - induction Hnd as [|so sockets Hnotin Hnd IH]; [apply NoDup_nil_2|].
    cbn [omap list_omap]. destruct so as [n|]; cbn [fmap option_fmap option_map];
      [|assumption].
    apply NoDup_cons. split; [|assumption].
    intros Hin. apply list_elem_of_omap in Hin as (x & Hx & Heq).
    destruct x as [n'|]; cbn in Heq; [|discriminate].
    injection Heq as ->. contradiction.
  - intros n m'. rewrite list_elem_of_omap. split.
    + intros (x & Hx & Heq). destruct x as [n'|]; cbn in Heq; [|discriminate].
      injection Heq as -> ->. now split.
    + intros [-> Hin]. exists (Some n). now split.
Qed.

End WithMessages.

(** X15.  After any run of cache and recipient calls, a message cached
    for a channel is emitted once to every socket whose last request for
    that channel was to be added, and to nobody else; the recipient
    lists are left as they are. *)
Theorem message_goes_once_to_each_subscribed_socket
    {msg : Type} (calls : list (call msg)) (channelUrl : string) (m : msg) :
  let s := foldl step initial calls in
  let s' := cacheChannelMessage channelUrl m s in
  exists new,
    emitted s' = emitted s ++ new
    /\ NoDup new
    /\ (forall n m', (n, m') ∈ new <->
          m' = m /\ subscribed channelUrl (Some n) calls = true)
    /\ channelRecipients s' = channelRecipients s.
Proof.
  intros s s'.
  destruct (run_recipients (msg := msg) channelUrl calls) as [Hnd Hin].
  cbv zeta in Hnd, Hin. fold s in Hnd, Hin.
  exists (emitMessageToRecipients (channelRecipients s !! channelUrl) m).
  split; [reflexivity|].
  destruct (channelRecipients s !! channelUrl) as [sockets|] eqn:Hs;
    cbn [default] in Hnd, Hin.
  - destruct (emit_once sockets m Hnd) as [Hnd' Hin'].
    split; [assumption|]. split; [|reflexivity].
    intros n m'. rewrite Hin'. now rewrite Hin.
  - cbn. split; [apply NoDup_nil_2|]. split; [|reflexivity].
    intros n m'. split; [intros H; inversion H|].
    intros [_ Hsub]. apply Hin in Hsub. inversion Hsub.
Qed.

(** X16.  The cache the first IRC watcher keeps for a channel holds
    the last 150 messages cached for it, in order.  The function trims by
    one line only: a cache that is already longer than 150 lines just
    grows by the message. *)
Theorem legacy_cache_keeps_the_last_150
    {msg : Type} (calls : list (call msg)) (channelUrl : string) :
  let s := foldl step initial calls in
  let cache := default [] (channelCaches s !! channelUrl) in
  cache = sliceLast 150 (channelHistory channelUrl calls)
  /\ length cache <= 150
  /\ (forall (longer : list msg) (m : msg),
        150 < length longer -> cacheMessage longer m = longer ++ [m]).
Proof.
  intros s cache.
  assert (Hcache : cache = sliceLast 150 (channelHistory channelUrl calls)).
  { subst cache s. rewrite run_channelCache; [reflexivity|].
    cbn. rewrite lookup_empty. cbn. lia. }
  split; [assumption|]. split.
  - rewrite Hcache, sliceLast_length. lia.
  - intros longer m. apply cacheMessage_overlong.
Qed.

End LegacyCacheFacts.

(** ** A connection's requests, one after the other *)

Module IoSessionFacts.
Import Io IoSession.

Section WithEnvironment.

Variable E : environment.

Lemma handler_keeps_token ev details connectionToken :
  ev <> token ->
  fst (handler E ev details connectionToken) = connectionToken.
Proof.
  intros Hev. destruct ev; try (now destruct Hev); unfold handler; cbv zeta;
    repeat match goal with
           | |- context [if ?b then _ else _] => destruct b
           end; reflexivity.
Qed.

Lemma handler_rejected ev details connectionToken :
  isRequest ev = true ->
  isAnAcceptedToken E connectionToken = false ->
  handler E ev details connectionToken = (connectionToken, []).
Proof.
  intros Hreq Hrejected.
  destruct ev; try discriminate Hreq; unfold handler; rewrite Hrejected; reflexivity.
Qed.

Lemma connection_snoc requests request :
  connection E (requests ++ [request]) = serve E (connection E requests) request.
Proof. unfold connection. now rewrite foldl_app. Qed.

Lemma serve_token acc request :
  fst (serve E acc request) = default (fst acc) (presented request).
Proof.
  destruct acc as [connectionToken done], request as [ev details].
  unfold serve, presented. cbn [fst snd].
  destruct (handler E ev details connectionToken) as [t acts] eqn:Hh.
  cbn [fst].
  assert (Hcase : ev = token \/ ev <> token)
    by (destruct ev; (now left) || (right; discriminate)).
  destruct Hcase as [->|Hev].
  - unfold handler in Hh. destruct (_ && _); injection Hh as <- _; reflexivity.
  - pose proof (handler_keeps_token ev details connectionToken Hev) as Hk.
    rewrite Hh in Hk. cbn [fst] in Hk. subst t. now destruct ev.
Qed.

Lemma connection_token requests :
  fst (connection E requests) = default VNull (last (omap presented requests)).
Proof.
  induction requests as [|request requests IH] using rev_ind; [reflexivity|].
  rewrite connection_snoc, serve_token, IH, omap_app. cbn [omap list_omap].
  destruct (presented request) as [t|]; cbn [default].
  - now rewrite last_snoc.
  - now rewrite app_nil_r.
Qed.

End WithEnvironment.

(** X17.  A connection holds the token that was presented last, or
    [null] when none was.  While that token is not an accepted one, a
    request changes nothing and makes no call, whatever was presented
    before; in particular a request that follows the presentation of a
    rejected token is answered with the token's status only. *)
Theorem only_the_token_presented_last_counts
    (E : environment) (requests : list (event * value)) :
  let held := default VNull (last (omap presented requests)) in
  fst (connection E requests) = held
  /\ (forall ev details,
        isRequest ev = true ->
        isAnAcceptedToken E held = false ->
        connection E (requests ++ [(ev, details)]) = connection E requests)
  /\ (forall t,
        isAnAcceptedToken E (VString t) = false ->
        forall ev details,
          isRequest ev = true ->
          snd (connection E (requests ++ [(token, VObject [("token", VString t)]);
                                          (ev, details)]))
          = snd (connection E requests) ++ [Do "emitTokenStatus" [VBool false]]).
Proof.
  intros held.
  pose proof (connection_token E requests) as Hheld. fold held in Hheld.
  split; [exact Hheld|]. split.
  - intros ev details Hreq Hrej. rewrite connection_snoc.
    destruct (connection E requests) as [connectionToken done] eqn:Hc.
    cbn [fst] in Hheld. subst connectionToken.
    unfold serve. cbn [fst snd]. rewrite (handler_rejected E ev details held Hreq Hrej).
    now rewrite app_nil_r.
  - intros t Hrej ev details Hreq.
    change (requests ++ [(token, VObject [("token", VString t)]); (ev, details)])
      with (requests ++ [(token, VObject [("token", VString t)])] ++ [(ev, details)]).
    rewrite app_assoc, connection_snoc, connection_snoc.
    destruct (connection E requests) as [connectionToken done].
    assert (Hinner : serve E (connectionToken, done)
                       (token, VObject [("token", VString t)])
                     = (VString t, done ++ [Do "emitTokenStatus"
                                              [VBool (isAnAcceptedToken E (VString t))]]))
      by reflexivity.
    rewrite Hinner. unfold serve. cbn [fst snd].
    rewrite (handler_rejected E ev details (VString t) Hreq Hrej).
    cbn [snd]. now rewrite Hrej, app_nil_r.
Qed.

End IoSessionFacts.

(** ** The persisted line formats, continued *)

Module LogLinesFacts.
Import Log LogFacts LogLines.

#[local] Arguments String.append !_ _ / : simpl nomatch.

(** *** Character classes against each other *)

Lemma nameChar_not_space c : nameChar c = true -> space c = false.
Proof. destruct c as [[] [] [] [] [] [] [] []]; vm_compute; congruence. Qed.

Lemma symbolChar_not_space c : symbolChar c = true -> space c = false.
Proof. destruct c as [[] [] [] [] [] [] [] []]; vm_compute; congruence. Qed.

Lemma symbolChar_not_nameChar c : symbolChar c = true -> nameChar c = false.
Proof. destruct c as [[] [] [] [] [] [] [] []]; vm_compute; congruence. Qed.

Lemma space_not_symbolChar c : space c = true -> symbolChar c = false.
Proof. destruct c as [[] [] [] [] [] [] [] []]; vm_compute; congruence. Qed.

Lemma space_not_nameChar c : space c = true -> nameChar c = false.
Proof. destruct c as [[] [] [] [] [] [] [] []]; vm_compute; congruence. Qed.

Lemma space_not_notSpaceStar c : space c = true -> notSpaceStar c = false.
Proof. destruct c as [[] [] [] [] [] [] [] []]; vm_compute; congruence. Qed.

Lemma notSpaceStar_not_space c : notSpaceStar c = true -> space c = false.
Proof. destruct c as [[] [] [] [] [] [] [] []]; vm_compute; congruence. Qed.

Lemma notSpace_not_space c : notSpace c = true -> space c = false.
Proof. destruct c as [[] [] [] [] [] [] [] []]; vm_compute; congruence. Qed.

Lemma nameChar_notSpaceStar c : nameChar c = true -> notSpaceStar c = true.
Proof. destruct c as [[] [] [] [] [] [] [] []]; vm_compute; congruence. Qed.

Lemma symbolChar_notSpaceStar c : symbolChar c = true -> notSpaceStar c = true.
Proof. destruct c as [[] [] [] [] [] [] [] []]; vm_compute; congruence. Qed.

(** *** Strings *)

Lemma allOf_append cls (a b : string) :
  allOf cls (a +:+ b) = allOf cls a && allOf cls b.
Proof.
  induction a as [|c a IH]; [reflexivity|].
  change (String c a +:+ b) with (String c (a +:+ b)). cbn [allOf].
  now rewrite IH, andb_assoc.
Qed.

Lemma allOf_impl (cls cls' : charClass) (a : string) :
  (forall c, cls c = true -> cls' c = true) ->
  allOf cls a = true -> allOf cls' a = true.
Proof.
  intros Himpl. induction a as [|c a IH]; [reflexivity|]. cbn [allOf].
  rewrite !andb_true_iff. intros [Hc Ha]. split; [now apply Himpl | now apply IH].
Qed.

Lemma stopsAt_word (cls cls' : charClass) (w rest : string) :
  (forall c, cls' c = true -> cls c = false) ->
  word cls' w -> stopsAt cls (w +:+ rest) = true.
Proof.
  intros Hout [Hall Hne]. destruct w as [|c w]; [congruence|].
  cbn [allOf] in Hall. apply andb_true_iff in Hall as [Hc _].
  change (String c w +:+ rest) with (String c (w +:+ rest)). cbn [stopsAt].
  now rewrite (Hout c Hc).
Qed.

Lemma append_nil_r (a : string) : a +:+ "" = a.
Proof. induction a as [|c a IH]; [reflexivity|]. simpl. now rewrite IH. Qed.

Lemma consumed_all (s : string) : consumed s "" = s.
Proof. rewrite <- (append_nil_r s) at 1. apply consumed_append. Qed.

Lemma nick_word sy u : nick sy u -> word notSpaceStar (sy +:+ u).
Proof.
  intros (Hsy & Hu & Hne). split.
  - rewrite allOf_append, andb_true_iff. split.
    + exact (allOf_impl _ _ _ symbolChar_notSpaceStar Hsy).
    + exact (allOf_impl _ _ _ nameChar_notSpaceStar Hu).
  - destruct sy, u; try discriminate. congruence.
Qed.

(** A greedy run that gives the last character back: the class holds
    along [a] and of [x], the continuation turns down what follows [x]
    and accepts [x] with what follows. *)
Lemma starK_back_one {R} cls (a : string) (x : ascii) (rest : string)
    (k : string -> option R) (r : R) :
  allOf cls a = true -> cls x = true -> stopsAt cls rest = true ->
  k rest = None -> k (String x rest) = Some r ->
  starK cls (a +:+ String x rest) k = Some r.
Proof.
  intros Ha Hx Hstop Hno Hk. induction a as [|c a IH].
  - change ("" +:+ String x rest) with (String x rest). cbn [starK]. rewrite Hx.
    assert (starK cls rest k = None) as ->; [|assumption].
    destruct rest as [|c rest]; cbn [starK]; [assumption|].
    cbn [stopsAt] in Hstop. apply negb_true_iff in Hstop. now rewrite Hstop.
  - cbn [allOf] in Ha. apply andb_true_iff in Ha as [Hc Ha].
    change (String c a +:+ String x rest) with (String c (a +:+ String x rest)).
    cbn [starK]. now rewrite Hc, (IH Ha).
Qed.

(** A continuation that accepts everything makes the repetition
    accept. *)
Lemma starK_some {R} cls (s : string) (k : string -> option R) :
  (forall s', is_Some (k s')) -> is_Some (starK cls s k).
Proof.
  intros Hk. induction s as [|c s IH]; cbn [starK]; [apply Hk|].
  destruct (cls c); [|apply Hk].
  destruct IH as [r ->]. eauto.
Qed.

(** *** Steps of a match that needs no backtracking *)

Section Steps.

Context {R : Type}.
Implicit Types (k : string -> captures -> option R).

Lemma run_Seq r1 r2 s caps k :
  run (Seq r1 r2) s caps k = run r1 s caps (fun s' caps' => run r2 s' caps' k).
Proof. reflexivity. Qed.

Lemma run_Group i re s caps k :
  run (Group i re) s caps k =
  run re s caps (fun s' caps' => k s' ((i, consumed s s') :: caps')).
Proof. reflexivity. Qed.

Lemma run_Lit l rest caps k : run (Lit l) (l +:+ rest) caps k = k rest caps.
Proof. cbn [run]. now rewrite litK_append. Qed.

Lemma run_Eos caps k : run Eos "" caps k = k "" caps.
Proof. reflexivity. Qed.

Lemma run_Star_greedy cls a rest caps k (r : R) :
  allOf cls a = true -> stopsAt cls rest = true -> k rest caps = Some r ->
  run (Star cls) (a +:+ rest) caps k = Some r.
Proof. intros Ha Hs Hk. cbn [run]. now apply starK_greedy. Qed.

Lemma run_Plus_greedy cls a rest caps k (r : R) :
  word cls a -> stopsAt cls rest = true -> k rest caps = Some r ->
  run (Plus cls) (a +:+ rest) caps k = Some r.
Proof.
  intros [Ha Hne] Hs Hk. destruct a as [|c a]; [congruence|].
  cbn [allOf] in Ha. apply andb_true_iff in Ha as [Hc Ha].
  change (String c a +:+ rest) with (String c (a +:+ rest)).
  cbn [run]. rewrite Hc. now apply starK_greedy.
Qed.

Lemma run_Group_Star_greedy i cls a rest caps k (r : R) :
  allOf cls a = true -> stopsAt cls rest = true ->
  k rest ((i, a) :: caps) = Some r ->
  run (Group i (Star cls)) (a +:+ rest) caps k = Some r.
Proof.
  intros Ha Hs Hk. rewrite run_Group.
  apply run_Star_greedy; [assumption..|]. now rewrite consumed_append.
Qed.

Lemma run_Group_Plus_greedy i cls a rest caps k (r : R) :
  word cls a -> stopsAt cls rest = true ->
  k rest ((i, a) :: caps) = Some r ->
  run (Group i (Plus cls)) (a +:+ rest) caps k = Some r.
Proof.
  intros Ha Hs Hk. rewrite run_Group.
  apply run_Plus_greedy; [assumption..|]. now rewrite consumed_append.
Qed.

Lemma run_Plus_one_space rest caps k (r : R) :
  stopsAt space rest = true -> k rest caps = Some r ->
  run (Plus space) (String " " rest) caps k = Some r.
Proof.
  intros Hs Hk. change (String " " rest) with (" " +:+ rest).
  apply run_Plus_greedy; [now split | assumption..].
Qed.

Lemma run_Star_one_space rest caps k (r : R) :
  stopsAt space rest = true -> k rest caps = Some r ->
  run (Star space) (String " " rest) caps k = Some r.
Proof.
  intros Hs Hk. change (String " " rest) with (" " +:+ rest).
  now apply run_Star_greedy.
Qed.

Lemma run_USERNAME_SYMBOL i sy u rest caps k (r : R) :
  nick sy u -> stopsAt nameChar rest = true ->
  k rest ((S i, u) :: (i, sy) :: caps) = Some r ->
  run (USERNAME_SYMBOL i) (sy +:+ u +:+ rest) caps k = Some r.
Proof.
  intros (Hsy & Hu & Hne) Hs Hk. unfold USERNAME_SYMBOL. rewrite run_Seq.
  apply run_Group_Star_greedy; [assumption| |].
  - apply (stopsAt_word symbolChar nameChar); [|now split].
    intros c Hc. now apply nameChar_not_symbolChar.
  - now apply run_Group_Plus_greedy.
Qed.

Lemma run_Alt_left re1 re2 s caps k (r : R) :
  run re1 s caps k = Some r -> run (Alt re1 re2) s caps k = Some r.
Proof. intros H. cbn [run]. now rewrite H. Qed.

Lemma run_Alt_right re1 re2 s caps k :
  run re1 s caps k = None -> run (Alt re1 re2) s caps k = run re2 s caps k.
Proof. intros H. cbn [run]. now rewrite H. Qed.

Lemma run_Opt_taken re s caps k (r : R) :
  run re s caps k = Some r -> run (Opt re) s caps k = Some r.
Proof. intros H. cbn [run]. now rewrite H. Qed.

(** The optional reason at the end of a line, taken and left out. *)
Lemma run_reasonSuffix_given i reason caps k (r : R) :
  word notParen reason ->
  k "" ((i, " (" +:+ reason +:+ ")") :: (S i, reason) :: caps) = Some r ->
  run (reasonSuffix i) (" (" +:+ reason +:+ ")") caps k = Some r.
Proof.
  intros Hr Hk. unfold reasonSuffix. apply run_Opt_taken.
  rewrite run_Group. cbn [seqs]. rewrite run_Seq.
  change (" (" +:+ reason +:+ ")") with (String " " ("(" +:+ reason +:+ ")")).
  apply run_Plus_one_space; [reflexivity|]. cbv beta.
  rewrite run_Seq, run_Lit, run_Seq.
  apply run_Group_Plus_greedy; [assumption | reflexivity |]. cbv beta.
  change (run (Lit ")") ")") with (run (R := R) (Lit ")") (")" +:+ "")).
  rewrite run_Lit. now rewrite consumed_all.
Qed.

Lemma run_reasonSuffix_none i caps k :
  run (reasonSuffix i) "" caps k = k "" caps.
Proof. reflexivity. Qed.

End Steps.

(** *** The lines the builders write, matched by their own expressions *)

Section Matches.

Context {R : Type}.
Implicit Types (k : string -> captures -> option R).

Lemma join_run sy u k (r : R) :
  nick sy u ->
  k "" [(1, sy +:+ u)] = Some r ->
  run joinRegExp ("** " +:+ sy +:+ u +:+ " joined") [] k = Some r.
Proof.
  intros Hn Hk. pose proof (nick_word sy u Hn) as Hw.
  unfold joinRegExp. cbn [seqs].
  change ("** " +:+ sy +:+ u +:+ " joined")
    with ("**" +:+ String " " (sy +:+ u +:+ " joined")).
  rewrite run_Seq, run_Lit, run_Seq.
  rewrite <- append_assoc.
  apply run_Star_one_space.
  { apply (stopsAt_word space notSpaceStar); [apply notSpaceStar_not_space | assumption]. }
  cbv beta. rewrite run_Seq.
  apply run_Group_Plus_greedy; [assumption | reflexivity |]. cbv beta.
  rewrite run_Seq.
  apply run_Plus_one_space; [reflexivity|]. cbv beta.
  change "joined" with ("joined" +:+ "") at 2.
  rewrite run_Seq, run_Lit. exact Hk.
Qed.

(** The opening every event line but "join" shares: the stars, the
    symbol and the nickname, and the space behind them. *)
Lemma header_run re sy u tail k (r : R) :
  nick sy u -> stopsAt space tail = true ->
  run re tail [(2, u); (1, sy)] k = Some r ->
  run (Seq (Lit "**") (Seq (Star space) (Seq (USERNAME_SYMBOL 1)
         (Seq (Plus space) re))))
      ("** " +:+ sy +:+ u +:+ String " " tail) [] k = Some r.
Proof.
  intros Hn Hs Hk.
  change ("** " +:+ sy +:+ u +:+ String " " tail)
    with ("**" +:+ String " " (sy +:+ u +:+ String " " tail)).
  rewrite run_Seq, run_Lit, run_Seq.
  apply run_Star_one_space.
  { destruct Hn as (Hsy & Hu & Hne). destruct sy as [|c sy].
    - change ("" +:+ u +:+ String " " tail) with (u +:+ String " " tail).
      apply (stopsAt_word space nameChar); [apply nameChar_not_space | now split].
    - apply (stopsAt_word space symbolChar); [apply symbolChar_not_space|].
      now split. }
  cbv beta. rewrite run_Seq.
  apply run_USERNAME_SYMBOL; [assumption | reflexivity |]. cbv beta.
  rewrite run_Seq. now apply run_Plus_one_space.
Qed.

Lemma event_run_given d sy u reason k (r : R) :
  nick sy u -> stopsAt space d = true -> d <> "" -> word notParen reason ->
  k "" [(3, " (" +:+ reason +:+ ")"); (4, reason); (2, u); (1, sy)] = Some r ->
  run (eventWithReasonLogRegExp d)
      ("** " +:+ sy +:+ u +:+ String " " (d +:+ " (" +:+ reason +:+ ")")) [] k
  = Some r.
Proof.
  intros Hn Hd Hne Hr Hk. unfold eventWithReasonLogRegExp. cbn [seqs].
  apply header_run; [assumption| |].
  { destruct d; [congruence | exact Hd]. }
  rewrite run_Seq, run_Lit, run_Seq.
  now apply run_reasonSuffix_given.
Qed.

Lemma event_run_plain d sy u k (r : R) :
  nick sy u -> stopsAt space d = true -> d <> "" ->
  k "" [(2, u); (1, sy)] = Some r ->
  run (eventWithReasonLogRegExp d) ("** " +:+ sy +:+ u +:+ String " " d) [] k
  = Some r.
Proof.
  intros Hn Hd Hne Hk. unfold eventWithReasonLogRegExp. cbn [seqs].
  apply header_run; [assumption| |].
  { destruct d; [congruence | exact Hd]. }
  rewrite <- (append_nil_r d) at 2.
  rewrite run_Seq, run_Lit, run_Seq. exact Hk.
Qed.

Lemma kick_run_given sy u b reason k (r : R) :
  nick sy u -> word notSpace b -> word notParen reason ->
  k "" [(4, " (" +:+ reason +:+ ")"); (5, reason); (3, b); (2, u); (1, sy)] = Some r ->
  run kickRegExp
      ("** " +:+ sy +:+ u +:+
       String " " ("was kicked by" +:+ String " " (b +:+ " (" +:+ reason +:+ ")")))
      [] k
  = Some r.
Proof.
  intros Hn Hb Hr Hk. unfold kickRegExp. cbn [seqs].
  apply header_run; [assumption | reflexivity |].
  rewrite run_Seq, run_Lit, run_Seq.
  apply run_Plus_one_space.
  { apply (stopsAt_word space notSpace); [apply notSpace_not_space | assumption]. }
  cbv beta. rewrite run_Seq.
  apply run_Group_Plus_greedy; [assumption | reflexivity |]. cbv beta.
  rewrite run_Seq. now apply run_reasonSuffix_given.
Qed.

Lemma kick_run_plain sy u b k (r : R) :
  nick sy u -> word notSpace b ->
  k "" [(3, b); (2, u); (1, sy)] = Some r ->
  run kickRegExp
      ("** " +:+ sy +:+ u +:+ String " " ("was kicked by" +:+ String " " b)) [] k
  = Some r.
Proof.
  intros Hn Hb Hk. unfold kickRegExp. cbn [seqs].
  apply header_run; [assumption | reflexivity |].
  rewrite run_Seq, run_Lit, run_Seq.
  rewrite <- (append_nil_r b).
  apply run_Plus_one_space.
  { apply (stopsAt_word space notSpace); [apply notSpace_not_space | assumption]. }
  cbv beta. rewrite run_Seq.
  apply run_Group_Plus_greedy; [assumption | reflexivity |]. cbv beta.
  rewrite run_Seq. exact Hk.
Qed.

Lemma mode_run_given sy u mo arg k (r : R) :
  nick sy u -> word notSpace mo -> word dot arg -> stopsAt space arg = true ->
  k "" [(4, String " " arg); (5, arg); (3, mo); (2, u); (1, sy)] = Some r ->
  run modeRegExp
      ("** " +:+ sy +:+ u +:+
       String " " ("sets mode:" +:+ String " " (mo +:+ String " " arg))) [] k
  = Some r.
Proof.
  intros Hn Hm Ha Hs Hk. unfold modeRegExp. cbn [seqs].
  apply header_run; [assumption | reflexivity |].
  rewrite run_Seq, run_Lit, run_Seq.
  apply run_Plus_one_space.
  { apply (stopsAt_word space notSpace); [apply notSpace_not_space | assumption]. }
  cbv beta. rewrite run_Seq.
  apply run_Group_Plus_greedy; [assumption | reflexivity |]. cbv beta.
  rewrite run_Seq. apply run_Opt_taken. rewrite run_Group, run_Seq.
  apply run_Plus_one_space; [assumption|]. cbv beta.
  rewrite <- (append_nil_r arg) at 1.
  apply run_Group_Plus_greedy; [assumption | reflexivity |].
  rewrite consumed_all. exact Hk.
Qed.

Lemma mode_run_plain sy u mo k (r : R) :
  nick sy u -> word notSpace mo ->
  k "" [(3, mo); (2, u); (1, sy)] = Some r ->
  run modeRegExp
      ("** " +:+ sy +:+ u +:+ String " " ("sets mode:" +:+ String " " mo)) [] k
  = Some r.
Proof.
  intros Hn Hm Hk. unfold modeRegExp. cbn [seqs].
  apply header_run; [assumption | reflexivity |].
  rewrite run_Seq, run_Lit, run_Seq.
  rewrite <- (append_nil_r mo).
  apply run_Plus_one_space.
  { apply (stopsAt_word space notSpace); [apply notSpace_not_space | assumption]. }
  cbv beta. rewrite run_Seq.
  apply run_Group_Plus_greedy; [assumption | reflexivity |]. cbv beta.
  rewrite run_Seq. exact Hk.
Qed.

Lemma connection_run st by' sv k (r : R) :
  word notSpaceStar st -> word notSpaceStar sv ->
  by' = "by" \/ by' = "to" \/ by' = "from" ->
  k "" [(3, sv); (2, by'); (1, st)] = Some r ->
  run connectionEventRegExp
      ("*** " +:+ st +:+ String " " (by' +:+ String " " sv)) [] k
  = Some r.
Proof.
  intros Hst Hsv Hby Hk. unfold connectionEventRegExp. cbn [seqs].
  change ("*** " +:+ st +:+ String " " (by' +:+ String " " sv))
    with ("***" +:+ String " " (st +:+ String " " (by' +:+ String " " sv))).
  rewrite run_Seq, run_Lit, run_Seq.
  apply run_Star_one_space.
  { apply (stopsAt_word space notSpaceStar); [apply notSpaceStar_not_space | assumption]. }
  cbv beta. rewrite run_Seq.
  apply run_Group_Plus_greedy; [assumption | reflexivity |]. cbv beta.
  rewrite run_Seq.
  apply run_Plus_one_space; [now destruct Hby as [->|[->| ->]]|]. cbv beta.
  rewrite run_Seq, run_Group.
  assert (Hrest : run (Seq (Plus space) (Seq (Group 3 (Plus notSpaceStar)) Eos))
                    (String " " sv) ((2, by') :: [(1, st)]) k = Some r).
  { rewrite run_Seq. rewrite <- (append_nil_r sv).
    apply run_Plus_one_space.
    { apply (stopsAt_word space notSpaceStar);
        [apply notSpaceStar_not_space | assumption]. }
    cbv beta. rewrite run_Seq.
    now apply run_Group_Plus_greedy. }
  destruct Hby as [->|[->| ->]].
  - apply run_Alt_left. rewrite run_Lit, consumed_append. exact Hrest.
  - rewrite run_Alt_right by reflexivity.
    apply run_Alt_left. rewrite run_Lit, consumed_append. exact Hrest.
  - rewrite run_Alt_right by reflexivity. rewrite run_Alt_right by reflexivity.
    rewrite run_Lit, consumed_append. exact Hrest.
Qed.

Lemma action_run sy u m k (r : R) :
  nick sy u ->
  run (Plus space) (String " " m) [(1, sy +:+ u)] k = Some r ->
  run actionRegExp ("* " +:+ sy +:+ u +:+ String " " m) [] k = Some r.
Proof.
  intros Hn Hk. pose proof (nick_word sy u Hn) as Hw.
  unfold actionRegExp. cbn [seqs].
  change ("* " +:+ sy +:+ u +:+ String " " m)
    with ("*" +:+ String " " (sy +:+ u +:+ String " " m)).
  rewrite run_Seq, run_Lit, run_Seq.
  rewrite <- append_assoc.
  apply run_Star_one_space.
  { apply (stopsAt_word space notSpaceStar); [apply notSpaceStar_not_space | assumption]. }
  cbv beta. rewrite run_Seq.
  now apply run_Group_Plus_greedy.
Qed.

Lemma notice_run sy u m k (r : R) :
  nick sy u ->
  k (String " " m) [(2, u); (1, sy)] = Some r ->
  run noticeRegExp ("-" +:+ sy +:+ u +:+ String "-" (String " " m)) [] k = Some r.
Proof.
  intros (Hsy & Hu & Hne) Hk. unfold noticeRegExp. cbn [seqs].
  rewrite run_Seq, run_Lit, run_Seq. unfold USERNAME_SYMBOL. rewrite run_Seq.
  apply run_Group_Star_greedy; [assumption| |].
  { apply (stopsAt_word symbolChar nameChar); [|now split].
    intros c Hc. now apply nameChar_not_symbolChar. }
  cbv beta. rewrite run_Group.
  destruct u as [|c u]; [congruence|].
  cbn [allOf] in Hu. apply andb_true_iff in Hu as [Hc Hu].
  change (String c u +:+ String "-" (String " " m))
    with (String c (u +:+ String "-" (String " " m))).
  cbn [run]. rewrite Hc.
  apply starK_back_one; [assumption | reflexivity | reflexivity | reflexivity |].
  cbn [litK]. rewrite Ascii.eqb_refl. cbn [starK].
  assert (Hs : oneOf "s" " "%char = false) by reflexivity.
  rewrite Hs.
  change (String c (u +:+ String "-" (String " " m)))
    with (String c u +:+ String "-" (String " " m)).
  now rewrite consumed_append.
Qed.

End Matches.

(** *** Lines an expression turns down *)

Lemma starK_stops {R} cls (s : string) (k : string -> option R) :
  stopsAt cls s = true -> starK cls s k = k s.
Proof.
  destruct s as [|c s]; [reflexivity|]. cbn [stopsAt starK].
  intros H. apply negb_true_iff in H. now rewrite H.
Qed.

(** A repetition whose continuation turns down every place it could
    stop at. *)
Lemma starK_fails {R} cls (a rest : string) (k : string -> option R) :
  allOf cls a = true -> stopsAt cls rest = true ->
  k rest = None ->
  (forall c s, cls c = true -> k (String c s) = None) ->
  starK cls (a +:+ rest) k = None.
Proof.
  intros Ha Hstop Hrest Hin. induction a as [|c a IH].
  - change ("" +:+ rest) with rest. now rewrite starK_stops.
  - cbn [allOf] in Ha. apply andb_true_iff in Ha as [Hc Ha].
    change (String c a +:+ rest) with (String c (a +:+ rest)).
    cbn [starK]. rewrite Hc, (IH Ha). now apply Hin.
Qed.

Section Failures.

Context {R : Type}.
Implicit Types (k : string -> captures -> option R).

Lemma run_Star_fails cls a rest caps k :
  allOf cls a = true -> stopsAt cls rest = true ->
  k rest caps = None ->
  (forall c s, cls c = true -> k (String c s) caps = None) ->
  run (Star cls) (a +:+ rest) caps k = None.
Proof. intros. cbn [run]. now apply starK_fails. Qed.

Lemma run_Plus_fails cls a rest caps k :
  allOf cls a = true -> stopsAt cls rest = true ->
  k rest caps = None ->
  (forall c s, cls c = true -> k (String c s) caps = None) ->
  run (Plus cls) (a +:+ rest) caps k = None.
Proof.
  intros Ha Hs Hrest Hin. destruct a as [|c a].
  - change ("" +:+ rest) with rest. cbn [run].
    destruct rest as [|c rest]; [reflexivity|].
    cbn [stopsAt] in Hs. apply negb_true_iff in Hs. now rewrite Hs.
  - cbn [allOf] in Ha. apply andb_true_iff in Ha as [Hc Ha].
    change (String c a +:+ rest) with (String c (a +:+ rest)).
    cbn [run]. rewrite Hc. now apply starK_fails.
Qed.

Lemma run_Plus_space_fails tail caps k :
  stopsAt space tail = true -> k tail caps = None ->
  run (Plus space) (String " " tail) caps k = None.
Proof.
  intros Hs Hk. cbn [run].
  assert (Hsp : space " "%char = true) by reflexivity.
  rewrite Hsp. now rewrite starK_stops.
Qed.

Lemma run_Plus_outside cls c s caps k :
  cls c = false -> run (Plus cls) (String c s) caps k = None.
Proof. intros H. cbn [run]. now rewrite H. Qed.

Lemma run_Lit_fails l tail caps k :
  (forall k' : string -> option R, litK l tail k' = None) ->
  run (Lit l) tail caps k = None.
Proof. intros H. cbn [run]. apply H. Qed.

(** The "join" expression on a line whose word is not followed by
    "joined". *)
Lemma join_fails w tail k :
  word notSpaceStar w -> stopsAt space tail = true ->
  (forall k' : string -> option R, litK "joined" tail k' = None) ->
  run joinRegExp ("** " +:+ w +:+ String " " tail) [] k = None.
Proof.
  intros [Hw Hne] Hs Hno. unfold joinRegExp. cbn [seqs].
  change ("** " +:+ w +:+ String " " tail)
    with ("**" +:+ (" " +:+ (w +:+ String " " tail))).
  rewrite run_Seq, run_Lit, run_Seq.
  apply run_Star_fails; [reflexivity| | |].
  - apply (stopsAt_word space notSpaceStar); [apply notSpaceStar_not_space | now split].
  - rewrite run_Seq, run_Group.
    apply run_Plus_fails; [assumption | reflexivity | |].
    + rewrite run_Seq. apply run_Plus_space_fails; [assumption|].
      rewrite run_Seq. now apply run_Lit_fails.
    + intros c s Hc. rewrite run_Seq. apply run_Plus_outside.
      now apply notSpaceStar_not_space.
  - intros c s Hc. rewrite run_Seq, run_Group. apply run_Plus_outside.
    now apply space_not_notSpaceStar.
Qed.

(** An event expression on a line that goes on, behind the nickname,
    with something else than its own words. *)
Lemma header_fails d re sy u tail k :
  nick sy u -> stopsAt space tail = true ->
  (forall k' : string -> option R, litK d tail k' = None) ->
  run (Seq (Lit "**") (Seq (Star space) (Seq (USERNAME_SYMBOL 1)
         (Seq (Plus space) (Seq (Lit d) re)))))
      ("** " +:+ sy +:+ u +:+ String " " tail) [] k = None.
Proof.
  intros (Hsy & Hu & Hne) Hs Hno.
  change ("** " +:+ sy +:+ u +:+ String " " tail)
    with ("**" +:+ (" " +:+ (sy +:+ u +:+ String " " tail))).
  rewrite run_Seq, run_Lit, run_Seq.
  assert (Hname : forall caps,
            run (Group 2 (Plus nameChar)) (u +:+ String " " tail) caps
              (fun s' caps' =>
                 run (Seq (Plus space) (Seq (Lit d) re)) s' caps' k) = None).
  { intros caps. rewrite run_Group.
    apply run_Plus_fails; [assumption | reflexivity | |].
    - rewrite run_Seq. apply run_Plus_space_fails; [assumption|].
      rewrite run_Seq. now apply run_Lit_fails.
    - intros c s Hc. rewrite run_Seq. apply run_Plus_outside.
      now apply nameChar_not_space. }
  apply run_Star_fails; [reflexivity| | |].
  - destruct sy as [|c sy].
    + change ("" +:+ u +:+ String " " tail) with (u +:+ String " " tail).
      apply (stopsAt_word space nameChar); [apply nameChar_not_space | now split].
    + apply (stopsAt_word space symbolChar); [apply symbolChar_not_space|].
      now split.
  - rewrite run_Seq. unfold USERNAME_SYMBOL. rewrite run_Seq, run_Group.
    apply run_Star_fails; [assumption| | |].
    + apply (stopsAt_word symbolChar nameChar); [|now split].
      intros c Hc. now apply nameChar_not_symbolChar.
    + apply Hname.
    + intros c s Hc. rewrite run_Group. apply run_Plus_outside.
      now apply symbolChar_not_nameChar.
  - intros c s Hc. rewrite run_Seq. unfold USERNAME_SYMBOL.
    rewrite run_Seq, run_Group. cbn [run starK].
    now rewrite (space_not_symbolChar c Hc), (space_not_nameChar c Hc).
Qed.

End Failures.

(** *** What the parsers give back *)

Lemma given_word cls r : word cls r -> given (Some r) = true.
Proof.
  intros [_ Hne]. unfold given, truthy. now rewrite bool_decide_eq_false_2.
Qed.

Lemma parse_join_built sy u :
  nick sy u ->
  parse join (build_join (Some sy) (Some u)) =
  Some (Fields None (Some (sy +:+ u)) None None None None None None None None).
Proof.
  intros Hn. unfold build_join, str. cbn [default parse]. unfold id, jsMatch.
  erewrite join_run; [|assumption|reflexivity]. reflexivity.
Qed.

Lemma parse_event_plain d sy u :
  nick sy u -> stopsAt space d = true -> d <> "" ->
  eventWithReasonLogParser d ("** " +:+ sy +:+ u +:+ String " " d) =
  Some (Fields (Some sy) (Some u) None None None None None None None None).
Proof.
  intros Hn Hs Hne. unfold eventWithReasonLogParser, jsMatch.
  erewrite event_run_plain; [|assumption..|reflexivity]. reflexivity.
Qed.

Lemma parse_event_given d sy u r :
  nick sy u -> stopsAt space d = true -> d <> "" -> word notParen r ->
  eventWithReasonLogParser d
    ("** " +:+ sy +:+ u +:+ String " " (d +:+ " (" +:+ r +:+ ")")) =
  Some (Fields (Some sy) (Some u) None None (Some (" (" +:+ r +:+ ")"))
          None None None None None).
Proof.
  intros Hn Hs Hne Hr. unfold eventWithReasonLogParser, jsMatch.
  erewrite event_run_given; [|assumption..|reflexivity]. reflexivity.
Qed.

Lemma build_leaving k sy u reason :
  k = part \/ k = quit \/ k = kill ->
  build k (Fields (Some sy) (Some u) None None reason None None None None None)
  = "** " +:+ sy +:+ u +:+ String " " (descriptor k +:+ withReason reason)
  /\ parse k = eventWithReasonLogParser (descriptor k).
Proof. intros [->|[->| ->]]; split; reflexivity. Qed.

Lemma parse_kick_plain sy u b :
  nick sy u -> word notSpace b ->
  parse kick ("** " +:+ sy +:+ u +:+ String " " ("was kicked by" +:+ String " " b)) =
  Some (Fields (Some sy) (Some u) None None None (Some b) None None None None).
Proof.
  intros Hn Hb. cbn [parse]. unfold jsMatch.
  erewrite kick_run_plain; [|assumption..|reflexivity]. reflexivity.
Qed.

Lemma parse_kick_given sy u b r :
  nick sy u -> word notSpace b -> word notParen r ->
  parse kick ("** " +:+ sy +:+ u +:+
              String " " ("was kicked by" +:+ String " " (b +:+ " (" +:+ r +:+ ")"))) =
  Some (Fields (Some sy) (Some u) None None (Some (" (" +:+ r +:+ ")")) (Some b)
          None None None None).
Proof.
  intros Hn Hb Hr. cbn [parse]. unfold jsMatch.
  erewrite kick_run_given; [|assumption..|reflexivity]. reflexivity.
Qed.

Lemma parse_mode_plain sy u mo :
  nick sy u -> word notSpace mo ->
  parse mode_ ("** " +:+ sy +:+ u +:+ String " " ("sets mode:" +:+ String " " mo)) =
  Some (Fields (Some sy) (Some u) None None None None (Some mo) None None None).
Proof.
  intros Hn Hm. cbn [parse]. unfold jsMatch.
  erewrite mode_run_plain; [|assumption..|reflexivity]. reflexivity.
Qed.

Lemma parse_mode_given sy u mo arg :
  nick sy u -> word notSpace mo -> word dot arg -> stopsAt space arg = true ->
  parse mode_ ("** " +:+ sy +:+ u +:+
               String " " ("sets mode:" +:+ String " " (mo +:+ String " " arg))) =
  Some (Fields (Some sy) (Some u) None None None None (Some mo)
          (Some (String " " arg)) None None).
Proof.
  intros Hn Hm Ha Hs. cbn [parse]. unfold jsMatch.
  erewrite mode_run_given; [|assumption..|reflexivity]. reflexivity.
Qed.

Lemma parse_connection st by' sv :
  word notSpaceStar st -> word notSpaceStar sv ->
  by' = "by" \/ by' = "to" \/ by' = "from" ->
  parse connectionEvent ("*** " +:+ st +:+ String " " (by' +:+ String " " sv)) =
  Some (Fields None None None None None None None None (Some st) (Some sv)).
Proof.
  intros Hst Hsv Hby. cbn [parse]. unfold jsMatch.
  erewrite connection_run; [|assumption..|reflexivity]. reflexivity.
Qed.

Lemma parse_notice_built sy u m :
  nick sy u ->
  parse notice ("-" +:+ sy +:+ u +:+ String "-" (String " " m)) =
  Some (Fields None (Some sy) (Some (String " " m)) (Some "notice")
          None None None None None None).
Proof.
  intros Hn. cbn [parse]. unfold jsMatch.
  erewrite notice_run; [|assumption|reflexivity].
  cbn [group Nat.eqb].
  replace ("-" +:+ sy +:+ u +:+ String "-" (String " " m))
    with (("-" +:+ sy +:+ u +:+ "-") +:+ String " " m)
    by (now rewrite !append_assoc).
  now rewrite consumed_append, substr_append.
Qed.

Lemma parse_action_built sy u m :
  nick sy u -> stopsAt space m = true ->
  parse action ("* " +:+ sy +:+ u +:+ String " " m) =
  Some (Fields None (Some (sy +:+ u)) (Some m) (Some "action")
          None None None None None None).
Proof.
  intros Hn Hs. cbn [parse]. unfold jsMatch.
  erewrite action_run; [|assumption|apply run_Plus_one_space; [assumption|reflexivity]].
  cbn [group Nat.eqb].
  replace ("* " +:+ sy +:+ u +:+ String " " m)
    with (("* " +:+ sy +:+ u +:+ " ") +:+ m)
    by (now rewrite !append_assoc).
  now rewrite consumed_append, substr_append.
Qed.

Lemma parse_action_some sy u m :
  nick sy u -> is_Some (parse action ("* " +:+ sy +:+ u +:+ String " " m)).
Proof.
  intros Hn. cbn [parse]. unfold jsMatch.
  set (line := "* " +:+ sy +:+ u +:+ String " " m).
  assert (Hend : is_Some (run (Plus space) (String " " m) [(1, sy +:+ u)]
                   (fun rest caps => Some (consumed line rest, caps)))).
  { cbn [run]. assert (Hsp : space " "%char = true) by reflexivity. rewrite Hsp.
    apply starK_some. eauto. }
  destruct Hend as [[m0 caps] Hend]. subst line.
  erewrite action_run; [|assumption|exact Hend]. eauto.
Qed.

(** *** Lines turned down by the parsers of other kinds *)

Lemma stars_are_no_message tail :
  parse msg ("** " +:+ tail) = None
  /\ parse action ("** " +:+ tail) = None
  /\ parse notice ("** " +:+ tail) = None.
Proof. repeat split. Qed.

Lemma parse_join_none sy u tail :
  nick sy u -> stopsAt space tail = true ->
  (forall k' : string -> option (string * captures), litK "joined" tail k' = None) ->
  parse join ("** " +:+ sy +:+ u +:+ String " " tail) = None.
Proof.
  intros Hn Hs Hno. cbn [parse]. unfold jsMatch.
  rewrite <- (append_assoc sy u (String " " tail)).
  rewrite join_fails; [reflexivity | now apply nick_word | assumption..].
Qed.

Lemma parse_event_none d sy u tail :
  nick sy u -> stopsAt space tail = true ->
  (forall k' : string -> option (string * captures), litK d tail k' = None) ->
  eventWithReasonLogParser d ("** " +:+ sy +:+ u +:+ String " " tail) = None.
Proof.
  intros Hn Hs Hno. unfold eventWithReasonLogParser, jsMatch, eventWithReasonLogRegExp.
  cbn [seqs]. now rewrite header_fails.
Qed.

Lemma parse_kick_none sy u tail :
  nick sy u -> stopsAt space tail = true ->
  (forall k' : string -> option (string * captures),
     litK "was kicked by" tail k' = None) ->
  parse kick ("** " +:+ sy +:+ u +:+ String " " tail) = None.
Proof.
  intros Hn Hs Hno. cbn [parse]. unfold jsMatch, kickRegExp.
  cbn [seqs]. now rewrite header_fails.
Qed.

Lemma parse_mode_none sy u tail :
  nick sy u -> stopsAt space tail = true ->
  (forall k' : string -> option (string * captures),
     litK "sets mode:" tail k' = None) ->
  parse mode_ ("** " +:+ sy +:+ u +:+ String " " tail) = None.
Proof.
  intros Hn Hs Hno. cbn [parse]. unfold jsMatch, modeRegExp.
  cbn [seqs]. now rewrite header_fails.
Qed.

(** *** Telling the type of a line *)

Lemma firstParse_skip type rest line :
  parse type line = None -> firstParse (type :: rest) line = firstParse rest line.
Proof. intros H. cbn [firstParse]. now rewrite H. Qed.

Lemma firstParse_hit type rest line :
  is_Some (parse type line) ->
  exists p, firstParse (type :: rest) line = Some (type, p).
Proof. intros [p H]. cbn [firstParse]. rewrite H. eauto. Qed.

(** An event line: the message parsers and the "join" parser turn it
    down when something else than "joined" follows the nickname. *)
Lemma event_line_skips_to_part sy u tail :
  nick sy u -> stopsAt space tail = true ->
  (forall k' : string -> option (string * captures), litK "joined" tail k' = None) ->
  parseContents ("** " +:+ sy +:+ u +:+ String " " tail)
  = firstParse [part; quit; kick; mode_; kill; connectionEvent]
      ("** " +:+ sy +:+ u +:+ String " " tail).
Proof.
  intros Hn Hs Hno. unfold parseContents, lineTypes, allKinds.
  destruct (stars_are_no_message (sy +:+ u +:+ String " " tail)) as (H1 & H2 & H3).
  rewrite (firstParse_skip msg) by exact H1.
  rewrite (firstParse_skip action) by exact H2.
  rewrite (firstParse_skip notice) by exact H3.
  rewrite (firstParse_skip join) by now apply parse_join_none.
  reflexivity.
Qed.

(** *** The lines as built *)

Lemma build_connection st sv :
  st <> "failed" -> st <> "aborted" ->
  exists by',
    (by' = "by" \/ by' = "to" \/ by' = "from")
    /\ build_connectionEvent (Some st) (Some sv)
       = "*** " +:+ st +:+ String " " (by' +:+ String " " sv).
Proof.
  intros Hf Ha. unfold build_connectionEvent, str. cbn [default]. unfold id.
  rewrite (bool_decide_eq_false_2 (Some st = Some "failed")) by congruence.
  rewrite (bool_decide_eq_false_2 (Some st = Some "aborted")) by congruence.
  destruct (decide (st = "disconnected")) as [->|Hd].
  - rewrite (bool_decide_eq_true_2 (Some "disconnected" = Some "disconnected"))
      by reflexivity.
    exists "from". split; [tauto | reflexivity].
  - rewrite (bool_decide_eq_false_2 (Some st = Some "disconnected")) by congruence.
    destruct (decide (st = "connected")) as [->|Hc].
    + rewrite (bool_decide_eq_true_2 (Some "connected" = Some "connected"))
        by reflexivity.
      exists "to". split; [tauto | reflexivity].
    + rewrite (bool_decide_eq_false_2 (Some st = Some "connected")) by congruence.
      exists "by". split; [tauto | reflexivity].
Qed.

(** X18.  A connection-event line with a status other than "failed"
    and "aborted" is parsed back to its status and server, and the line
    is read as a connection event; the lines built for "failed" and
    "aborted" are turned down by their own parser and by every other. *)
Theorem connection_event_lines (st sv : string) :
  word notSpaceStar st -> word notSpaceStar sv ->
  let d := Fields None None None None None None None None (Some st) (Some sv) in
  (st <> "failed" -> st <> "aborted" ->
     parse connectionEvent (build connectionEvent d) = Some d
     /\ roundTrips connectionEvent d = true
     /\ parseContents (build connectionEvent d) = Some (connectionEvent, d))
  /\ (st = "failed" \/ st = "aborted" ->
      parse connectionEvent (build connectionEvent d) = None
      /\ parseContents (build connectionEvent d) = None).
Proof.
  intros Hst Hsv d. split.
  - intros Hf Ha. destruct (build_connection st sv Hf Ha) as (by' & Hby & Hline).
    assert (Hparse : parse connectionEvent (build connectionEvent d) = Some d).
    { subst d. cbn [build status server]. rewrite Hline.
      now apply parse_connection. }
    split; [exact Hparse|]. split.
    + unfold roundTrips. rewrite Hparse. now apply bool_decide_eq_true_2.
    + unfold parseContents, lineTypes, allKinds.
      assert (Hearly : forall k, k <> connectionEvent ->
                parse k (build connectionEvent d) = None).
      { intros k Hk. subst d. cbn [build status server]. rewrite Hline.
        destruct k; try reflexivity. now destruct Hk. }
      cbn [firstParse]. rewrite !Hearly by discriminate. now rewrite Hparse.
  - intros [->| ->]; split; reflexivity.
Qed.

Lemma connection_event_lines_witness :
  roundTrips connectionEvent
    (Fields None None None None None None None None
       (Some "connected") (Some "irc.example.org")) = true
  /\ parse connectionEvent
       (build connectionEvent
          (Fields None None None None None None None None
             (Some "failed") (Some "irc.example.org"))) = None.
Proof.
  split.
  - destruct (connection_event_lines "connected" "irc.example.org") as (Hok & _).
    + split; [reflexivity | discriminate].
    + split; [reflexivity | discriminate].
    + apply Hok; discriminate.
  - destruct (connection_event_lines "failed" "irc.example.org") as (_ & Hno).
    + split; [reflexivity | discriminate].
    + split; [reflexivity | discriminate].
    + apply Hno. now left.
Defined.





(** X20.  A "part", "quit" or "kill" line without a reason is parsed
    back to the symbol and the nickname it was built from and
    round-trips; with a reason, the reason comes back with the space and
    the parentheses the builder put around it, so the line does not
    round-trip. *)
Theorem leaving_lines_keep_the_reason_in_parentheses
    (k : kind) (sy u : string) :
  k = part \/ k = quit \/ k = kill ->
  nick sy u ->
  let d reason :=
    Fields (Some sy) (Some u) None None reason None None None None None in
  parse k (build k (d None)) = Some (d None)
  /\ roundTrips k (d None) = true
  /\ (forall r, word notParen r ->
        parse k (build k (d (Some r))) = Some (d (Some (" (" +:+ r +:+ ")")))
        /\ roundTrips k (d (Some r)) = false).
Proof.
  intros Hk Hn d.
  assert (Hd : stopsAt space (descriptor k) = true /\ descriptor k <> "")
    by (destruct Hk as [->|[->| ->]]; split; (reflexivity || discriminate)).
  destruct Hd as [Hs Hne].
  assert (Hplain : parse k (build k (d None)) = Some (d None)).
  { unfold d. destruct (build_leaving k sy u None Hk) as [-> ->].
    unfold withReason. cbn [given]. rewrite append_nil_r.
    now apply parse_event_plain. }
  assert (Hgiven : forall r, word notParen r ->
            parse k (build k (d (Some r))) = Some (d (Some (" (" +:+ r +:+ ")")))).
  { intros r Hr. unfold d.
    destruct (build_leaving k sy u (Some r) Hk) as [-> ->].
    unfold withReason. rewrite (given_word notParen r Hr).
    unfold str. cbn [default]. unfold id.
    now apply parse_event_given. }
  split; [exact Hplain|]. split.
  - unfold roundTrips. rewrite Hplain. apply bool_decide_eq_true_2.
    destruct Hk as [->|[->| ->]]; reflexivity.
  - intros r Hr. split; [now apply Hgiven|].
    unfold roundTrips. rewrite (Hgiven r Hr). apply bool_decide_eq_false_2.
    assert (Hdiff : Some (" (" +:+ r +:+ ")") <> Some r).
    { intros [= H]. apply (f_equal String.length) in H.
      simpl in H. rewrite length_append in H. simpl in H. lia. }
    unfold d.
    destruct Hk as [->|[->| ->]]; cbn [requiredFields symbol username reason];
      intros [= H]; apply Hdiff; now f_equal.
Qed.

Lemma leaving_lines_keep_the_reason_in_parentheses_witness :
  reason <$> parse part (build part sampleFields) = Some (Some " (bye)").
Proof.
  destruct (leaving_lines_keep_the_reason_in_parentheses part "@" "bob")
    as (_ & _ & Hgiven).
  - now left.
  - repeat split. discriminate.
  - destruct (Hgiven "bye") as (Hparse & _); [split; [reflexivity | discriminate]|].
    change (build part sampleFields)
      with (build part (Fields (Some "@") (Some "bob") None None (Some "bye")
                          None None None None None)).
    rewrite Hparse. reflexivity.
Defined.


Lemma withReason_plain reason :
  plainReason reason ->
  withReason reason = ""
  \/ exists r, word notParen r /\ withReason reason = " (" +:+ r +:+ ")".
Proof.
  intros [Hno|(r & -> & Hr)]; unfold withReason.
  - left. now rewrite Hno.
  - right. exists r. split; [assumption|].
    now rewrite (given_word notParen r Hr).
Qed.

Lemma classify_leaving k sy u reason :
  k = part \/ k = quit \/ k = kill ->
  nick sy u -> plainReason reason ->
  exists p,
    parseContents
      (build k (Fields (Some sy) (Some u) None None reason None None None None None))
    = Some (k, p).
Proof.
  intros Hk Hn Hr.
  destruct (build_leaving k sy u reason Hk) as [Hline Hparse]. rewrite Hline.
  assert (Hown : is_Some (parse k ("** " +:+ sy +:+ u +:+
                    String " " (descriptor k +:+ withReason reason)))).
  { rewrite Hparse.
    assert (Hd : stopsAt space (descriptor k) = true /\ descriptor k <> "")
      by (destruct Hk as [->|[->| ->]]; split; (reflexivity || discriminate)).
    destruct Hd as [Hs Hne].
    destruct (withReason_plain reason Hr) as [->|(r & Hw & ->)].
    - rewrite append_nil_r. rewrite parse_event_plain by assumption. eauto.
    - rewrite parse_event_given by assumption. eauto. }
  rewrite event_line_skips_to_part;
    [|assumption | now destruct Hk as [->|[->| ->]]
     | now destruct Hk as [->|[->| ->]]].
  destruct Hk as [->|[->| ->]].
  - now apply firstParse_hit.
  - rewrite (firstParse_skip part)
      by (apply parse_event_none; [assumption | reflexivity | reflexivity]).
    now apply firstParse_hit.
  - rewrite (firstParse_skip part)
      by (apply parse_event_none; [assumption | reflexivity | reflexivity]).
    rewrite (firstParse_skip quit)
      by (apply parse_event_none; [assumption | reflexivity | reflexivity]).
    rewrite (firstParse_skip kick)
      by (apply parse_kick_none; [assumption | reflexivity | reflexivity]).
    rewrite (firstParse_skip mode_)
      by (apply parse_mode_none; [assumption | reflexivity | reflexivity]).
    now apply firstParse_hit.
Qed.

Lemma classify_kick sy u b reason :
  nick sy u -> word notSpace b -> plainReason reason ->
  exists p,
    parseContents (build_kick (Some sy) (Some u) (Some b) reason) = Some (kick, p).
Proof.
  intros Hn Hb Hr. unfold build_kick, str. cbn [default]. unfold id.
  change ("** " +:+ sy +:+ u +:+ " was kicked by " +:+ b +:+ withReason reason)
    with ("** " +:+ sy +:+ u +:+
          String " " ("was kicked by" +:+ String " " (b +:+ withReason reason))).
  rewrite event_line_skips_to_part; [|assumption | reflexivity | reflexivity].
  rewrite (firstParse_skip part)
    by (apply parse_event_none; [assumption | reflexivity | reflexivity]).
  rewrite (firstParse_skip quit)
    by (apply parse_event_none; [assumption | reflexivity | reflexivity]).
  apply firstParse_hit.
  destruct (withReason_plain reason Hr) as [->|(r & Hw & ->)].
  - rewrite append_nil_r. rewrite parse_kick_plain by assumption. eauto.
  - rewrite parse_kick_given by assumption. eauto.
Qed.

Lemma classify_mode_line sy u x :
  nick sy u ->
  is_Some (parse mode_ ("** " +:+ sy +:+ u +:+ String " " ("sets mode:" +:+ x))) ->
  exists p,
    parseContents ("** " +:+ sy +:+ u +:+ String " " ("sets mode:" +:+ x))
    = Some (mode_, p).
Proof.
  intros Hn Hown.
  rewrite event_line_skips_to_part; [|assumption | reflexivity | reflexivity].
  rewrite (firstParse_skip part)
    by (apply parse_event_none; [assumption | reflexivity | reflexivity]).
  rewrite (firstParse_skip quit)
    by (apply parse_event_none; [assumption | reflexivity | reflexivity]).
  rewrite (firstParse_skip kick)
    by (apply parse_kick_none; [assumption | reflexivity | reflexivity]).
  now apply firstParse_hit.
Qed.

Lemma classify_mode sy u mo argument :
  nick sy u -> word notSpace mo -> plainArgument argument ->
  exists p,
    parseContents (build_mode (Some sy) (Some u) (Some mo) argument) = Some (mode_, p).
Proof.
  intros Hn Hm Ha. unfold build_mode.
  destruct Ha as [Hno|(a & -> & Hw & Hs)].
  - rewrite Hno. unfold str. cbn [default]. unfold id.
    change ("** " +:+ sy +:+ u +:+ " sets mode: " +:+ mo +:+ "")
      with ("** " +:+ sy +:+ u +:+
            String " " ("sets mode:" +:+ String " " (mo +:+ ""))).
    rewrite append_nil_r. apply classify_mode_line; [assumption|].
    rewrite parse_mode_plain by assumption. eauto.
  - rewrite (given_word dot a Hw). unfold str. cbn [default]. unfold id.
    change ("** " +:+ sy +:+ u +:+ " sets mode: " +:+ mo +:+ " " +:+ a)
      with ("** " +:+ sy +:+ u +:+
            String " " ("sets mode:" +:+ String " " (mo +:+ String " " a))).
    apply classify_mode_line; [assumption|].
    rewrite parse_mode_given by assumption. eauto.
Qed.

(** X21.  A line built from well-formed fields is read by the loop of
    [parseLogLine] as a line of the kind it was built as: the parsers of
    the kinds in front of it turn the line down and its own parser accepts
    it.  [getLogLineFromData] builds these lines under the kinds' names,
    except that it builds nothing for "notice". *)
Theorem built_line_is_read_as_its_kind (k : kind) (d : fields) :
  wellFormed k d ->
  (exists p, parseContents (build k d) = Some (k, p))
  /\ (k <> notice -> getLogLineFromData (kindName k) (Some d) = build k d)
  /\ getLogLineFromData "notice" (Some d) = "".
Proof.
  intros Hwf. split; [|split; [destruct k; try reflexivity; congruence | reflexivity]].
  destruct d as [symbol username message type reason by_ mode argument status server].
  destruct k; cbn [wellFormed Log.symbol Log.username Log.message Log.reason
                   Log.by_ Log.mode Log.argument Log.status Log.server] in Hwf;
    cbn [build Log.symbol Log.username Log.message Log.reason
         Log.by_ Log.mode Log.argument Log.status Log.server].
  - (* msg *)
    destruct Hwf as ((sy & u & -> & -> & Hsy & Hu & Hne) & (m & ->)).
    unfold parseContents, lineTypes, allKinds. apply firstParse_hit.
    cbn [parse]. rewrite (msg_match sy u m Hsy Hu Hne). eauto.
  - (* action *)
    destruct Hwf as ((sy & u & -> & -> & Hn) & (m & ->)).
    unfold parseContents, lineTypes, allKinds.
    rewrite (firstParse_skip msg) by reflexivity.
    apply firstParse_hit. unfold build_action, str. cbn [default]. unfold id.
    now apply parse_action_some.
  - (* notice *)
    destruct Hwf as ((sy & u & -> & -> & Hn) & (m & ->)).
    unfold parseContents, lineTypes, allKinds.
    rewrite (firstParse_skip msg) by reflexivity.
    rewrite (firstParse_skip action) by reflexivity.
    apply firstParse_hit. unfold build_notice.
    rewrite (given_word nameChar u) by (split; apply Hn).
    unfold str. cbn [default]. unfold id.
    change ("-" +:+ sy +:+ u +:+ "- " +:+ m)
      with ("-" +:+ sy +:+ u +:+ String "-" (String " " m)).
    rewrite parse_notice_built by assumption. eauto.
  - (* join *)
    destruct Hwf as ((sy & u & -> & -> & Hn) & _).
    unfold parseContents, lineTypes, allKinds.
    unfold build_join, str. cbn [default]. unfold id.
    destruct (stars_are_no_message (sy +:+ u +:+ " joined")) as (H1 & H2 & H3).
    rewrite (firstParse_skip msg) by exact H1.
    rewrite (firstParse_skip action) by exact H2.
    rewrite (firstParse_skip notice) by exact H3.
    apply firstParse_hit.
    pose proof (parse_join_built sy u Hn) as Hj.
    unfold build_join, str in Hj. cbn [default] in Hj. unfold id in Hj.
    rewrite Hj. eauto.
  - (* part *)
    destruct Hwf as ((sy & u & -> & -> & Hn) & Hr).
    apply (classify_leaving part sy u reason); tauto.
  - (* quit *)
    destruct Hwf as ((sy & u & -> & -> & Hn) & Hr).
    apply (classify_leaving quit sy u reason); tauto.
  - (* kick *)
    destruct Hwf as ((sy & u & -> & -> & Hn) & (b & -> & Hb) & Hr).
    now apply classify_kick.
  - (* mode *)
    destruct Hwf as ((sy & u & -> & -> & Hn) & (mo & -> & Hm) & Ha).
    now apply classify_mode.
  - (* kill *)
    destruct Hwf as ((sy & u & -> & -> & Hn) & Hr).
    apply (classify_leaving kill sy u reason); tauto.
  - (* connectionEvent *)
    destruct Hwf as (st & sv & -> & -> & Hst & Hsv & Hf & Ha).
    destruct (build_connection st sv Hf Ha) as (by' & Hby & Hline).
    rewrite Hline. unfold parseContents, lineTypes, allKinds.
    assert (Hearly : forall j, j <> connectionEvent ->
              parse j ("*** " +:+ st +:+ String " " (by' +:+ String " " sv)) = None)
      by (intros j Hj; destruct j; try reflexivity; now destruct Hj).
    cbn [firstParse]. rewrite !Hearly by discriminate.
    rewrite parse_connection by assumption. eauto.
Qed.

Lemma built_line_is_read_as_its_kind_witness :
  exists p, parseContents (build kick sampleFields) = Some (kick, p).
Proof.
  destruct (built_line_is_read_as_its_kind kick sampleFields) as (Hread & _).
  - split; [|split].
    + exists "@", "bob". repeat split. discriminate.
    + exists "op". repeat split. discriminate.
    + right. exists "bye". repeat split. discriminate.
  - exact Hread.
Defined.


End LogLinesFacts.

(** ** The lines of a log file, bunched *)

Module LogListFacts.
Import LogList.

Section WithConstants.

Variable B : list string.
Hypothesis events_not_bunchable : "events" ∉ B.

Lemma setLast_snoc {A} (l : list A) (x y : A) : setLast y (l ++ [x]) = l ++ [y].
Proof.
  unfold setLast. rewrite length_app. cbn [length].
  replace (length l + 1 - 1) with (length l + 0) by lia.
  now rewrite insert_app_r.
Qed.

Lemma flatten_app l1 l2 : flatten (l1 ++ l2) = flatten l1 ++ flatten l2.
Proof. unfold flatten. now rewrite flat_map_app. Qed.

Lemma flatten_single o : type o <> "events" -> flatten [o] = [o].
Proof.
  intros H. unfold flatten. cbn [flat_map].
  rewrite bool_decide_eq_false_2 by assumption. reflexivity.
Qed.

Lemma flatten_events o : type o = "events" -> flatten [o] = events o.
Proof.
  intros H. unfold flatten. cbn [flat_map].
  rewrite bool_decide_eq_true_2 by assumption. apply app_nil_r.
Qed.

Lemma flatten_bunch es t : flatten [bunch es t] = es.
Proof. unfold flatten. cbn. now rewrite app_nil_r. Qed.

Lemma bunchable_not_events o : type o ∈ B -> type o <> "events".
Proof. intros Hin Heq. rewrite Heq in Hin. contradiction. Qed.

(** One more line: nothing is lost and nothing moves. *)
Lemma addLineObjectToList_flatten linesList data :
  type data <> "events" ->
  flatten (addLineObjectToList B linesList (Some data)) = flatten linesList ++ [data].
Proof.
  intros Hdata. unfold addLineObjectToList.
  assert (Hpush : flatten (linesList ++ [data]) = flatten linesList ++ [data])
    by now rewrite flatten_app, flatten_single.
  case_bool_decide as Hb; [|exact Hpush].
  destruct linesList as [|x l] using rev_ind; [exact Hpush|]. clear IHl.
  rewrite last_snoc.
  case_bool_decide as Hlast.
  - rewrite setLast_snoc, !flatten_app, flatten_bunch.
    rewrite flatten_single by now apply bunchable_not_events.
    now rewrite <- app_assoc.
  - case_bool_decide as Hev; [|exact Hpush].
    rewrite setLast_snoc, !flatten_app, flatten_bunch.
    rewrite (flatten_events x) by assumption.
    now rewrite <- app_assoc.
Qed.

Lemma convert_flatten lines : forall linesList,
  Forall (fun data => forall o, data = Some o -> type o <> "events") lines ->
  flatten (foldl (addLineObjectToList B) linesList lines)
  = flatten linesList ++ omap id lines.
Proof.
  induction lines as [|data lines IH]; intros linesList Hall.
  - cbn. now rewrite app_nil_r.
  - apply Forall_cons in Hall as [Hdata Hall]. cbn [foldl].
    rewrite IH by assumption. destruct data as [o|].
    + rewrite addLineObjectToList_flatten by now apply Hdata.
      cbn. now rewrite <- app_assoc.
    + reflexivity.
Qed.

(** A run of bunchable lines at the start of a file ends up in one
    entry. *)
Lemma convert_run run : forall first,
  type first ∈ B ->
  Forall (fun o => type o ∈ B) run ->
  foldl (addLineObjectToList B) [first] (Some <$> run)
  = match last run with
    | Some o => [bunch (first :: run) (time o)]
    | None => [first]
    end.
Proof.
  induction run as [|o run IH] using rev_ind; intros first Hfirst Hall; [reflexivity|].
  apply Forall_app in Hall as [Hall Ho]. rewrite Forall_singleton in Ho.
  rewrite fmap_app, foldl_app, (IH first Hfirst Hall). rewrite last_snoc.
  cbn [fmap list_fmap foldl]. unfold addLineObjectToList.
  rewrite (bool_decide_eq_true_2 (type o ∈ B)) by assumption.
  destruct (last run) as [p|] eqn:Hlast.
  - cbn [last]. rewrite (bool_decide_eq_false_2 (type (bunch _ _) ∈ B))
      by exact events_not_bunchable.
    rewrite (bool_decide_eq_true_2 (type (bunch _ _) = "events")) by reflexivity.
    cbn. now rewrite app_comm_cons.
  - apply last_None in Hlast. subst run. cbn [last].
    now rewrite (bool_decide_eq_true_2 (type first ∈ B)) by assumption.
Qed.

End WithConstants.

(** X22.  Bunching the lines of a log file loses no line and keeps
    their order: with the bunches opened up, the list is the lines that
    were parsed.  A file of bunchable lines only becomes one bunch that
    holds them all, however many there are, with the time of the last
    one. *)
Theorem log_bunching_keeps_every_line
    (B : list string) (lines : list (option lineObject)) :
  ("events" ∉ B) ->
  Forall (fun data => forall o, data = Some o -> type o <> "events") lines ->
  flatten (convert B lines) = omap id lines
  /\ (forall first run,
        lines = Some <$> (first :: run) ->
        Forall (fun o => type o ∈ B) (first :: run) ->
        convert B lines
        = match last run with
          | Some o => [bunch (first :: run) (time o)]
          | None => [first]
          end).
Proof.
  intros Hev Hall. split.
  - unfold convert. now rewrite (convert_flatten B Hev).
  - intros first run -> Hrun. apply Forall_cons in Hrun as [Hfirst Hrun].
    unfold convert. cbn [fmap list_fmap foldl].
    assert (addLineObjectToList B [] (Some first) = [first]) as ->
      by (unfold addLineObjectToList; now destruct (bool_decide _)).
    now apply convert_run.
Qed.

Lemma log_bunching_keeps_every_line_witness :
  convert ["join"; "part"]
    [Some sampleJoinLine; None; Some samplePartLine; Some sampleMessageLine]
  = [bunch [sampleJoinLine; samplePartLine] (Some "12:00:02"); sampleMessageLine]
  /\ flatten (convert ["join"; "part"]
               [Some sampleJoinLine; None; Some samplePartLine; Some sampleMessageLine])
     = [sampleJoinLine; samplePartLine; sampleMessageLine].
Proof.
  split; [reflexivity|].
  destruct (log_bunching_keeps_every_line ["join"; "part"]
              [Some sampleJoinLine; None; Some samplePartLine; Some sampleMessageLine])
    as (Hflat & _).
  - compute_done.
  - repeat constructor; intros o [= <-]; discriminate.
  - rewrite Hflat. reflexivity.
Defined.

End LogListFacts.
